(** * Smart Route Navigator: the route planner of [DSA_LabProject.cpp]

    A shallow embedding of the class [RoutePlanner] (graph model, cost
    functions, the Dijkstra loop of [findRoute] and the itinerary built by
    [printDetailedReceipt]) and the properties proved about it.

    Numeric model.  A C++ [double] is a primitive binary64 float of Rocq
    ([PrimFloat.float]): IEEE-754 arithmetic, round to nearest even, each
    operation rounded on its own.  A C++ [int] is a [Z]; the places where the
    source converts an [int] to a [double] go through [int_to_double].  The
    facts about floats used below are derived from the specification of the
    primitive operations ([FloatAxioms]) over [SpecFloat]. *)

From Stdlib Require Import ZArith List Bool Lia String Ascii.
From Stdlib Require Import Uint63 Floats Zpower.
Import ListNotations.

Set Warnings "-inexact-float".

Local Open Scope Z_scope.

(* ================================================================== *)
(** * Configuration constants *)

Definition PRICE_PETROL : float := 280.0%float.
Definition MAX_CITIES : Z := 20.
Definition INF : float := 1e9%float.

(* ================================================================== *)
(** * Data structures *)

(** [enum TrafficLevel]: an unscoped enumeration, hence an integer; the
    [switch] statements of the source have a [default] branch, which the
    integer encoding keeps reachable. *)
Definition TrafficLevel := Z.
Definition LOW : TrafficLevel := 0.
Definition MODERATE : TrafficLevel := 1.
Definition HIGH : TrafficLevel := 2.
Definition JAMMED : TrafficLevel := 3.

Inductive RoadType := MOTORWAY | HIGHWAY | LOCAL.

Definition RoadType_eqb (a b : RoadType) : bool :=
  match a, b with
  | MOTORWAY, MOTORWAY | HIGHWAY, HIGHWAY | LOCAL, LOCAL => true
  | _, _ => false
  end.

Record Edge := mkEdge {
  destination : Z;
  distanceKM : float;
  traffic : TrafficLevel;
  type : RoadType;
  roadName : string
}.

Record PqNode := mkPqNode {
  id : Z;
  timeCost : float
}.

(** [PqNode::operator>]. *)
Definition PqNode_gt (a b : PqNode) : bool :=
  (timeCost b <? timeCost a)%float.

(** ** Conversions between [int] and [double] *)

(** [int] to [double]; exact on the whole range of a 32-bit [int]. *)
Definition int_to_double (z : Z) : float :=
  if z <? 0 then (- of_uint63 (Uint63.of_Z (- z)))%float
  else of_uint63 (Uint63.of_Z z).

(** [(int)x] for a [double] [x]: truncation toward zero (the source only
    applies it to the total time of a route). *)
Definition double_to_int (x : float) : Z :=
  match Prim2SF x with
  | S754_finite s m e =>
      let a := match e with
               | Zneg k => Z.shiftr (Zpos m) (Zpos k)
               | _ => Z.shiftl (Zpos m) e
               end in
      if s then - a else a
  | _ => 0
  end.

(** ** Fixed-size arrays indexed by a city identifier

    An index outside an array is undefined behaviour in the source.  Here a
    read outside the array gives a default and a write outside it is
    dropped; the planners built by [addCity] and [addRoad] never get there
    (see [wf] below). *)

Definition get {A : Type} (d : A) (a : list A) (i : Z) : A :=
  if i <? 0 then d else nth (Z.to_nat i) a d.

Fixpoint set_nth {A : Type} (a : list A) (n : nat) (x : A) : list A :=
  match a, n with
  | [], _ => []
  | _ :: t, O => x :: t
  | h :: t, S n' => h :: set_nth t n' x
  end.

Definition set {A : Type} (a : list A) (i : Z) (x : A) : list A :=
  if i <? 0 then a else set_nth a (Z.to_nat i) x.

Definition in_range (i : Z) : Prop := 0 <= i < MAX_CITIES.

(* ================================================================== *)
(** * The class [RoutePlanner] *)

Record RoutePlanner := mkRoutePlanner {
  adj : list (list Edge);        (* vector<Edge> adj[MAX_CITIES] *)
  cityNames : list string;       (* string cityNames[MAX_CITIES] *)
  cityCount : Z
}.

Definition adj_of (g : RoutePlanner) (u : Z) : list Edge := get [] (adj g) u.
Definition cityName (g : RoutePlanner) (u : Z) : string := get EmptyString (cityNames g) u.

(** ** Cost functions *)

Definition getTrafficMultiplier (level : TrafficLevel) : float :=
  match level with
  | 0 => 1.0
  | 1 => 1.2
  | 2 => 1.5
  | 3 => 2.5
  | _ => 1.0
  end%float.

Definition getTrafficString (level : TrafficLevel) : string :=
  match level with
  | 0 => "Clear"
  | 1 => "Moderate"
  | 2 => "Heavy"
  | 3 => "Jammed"
  | _ => "Unknown"
  end%string.

(** [std::max] on doubles: [(a < b) ? b : a]. *)
Definition fmax (a b : float) : float := if (a <? b)%float then b else a.

Definition calculateFuelEfficiency (speed : Z) (type : RoadType) : float :=
  let baseEfficiency := 16.0%float in
  let baseEfficiency :=
    if RoadType_eqb type LOCAL then (baseEfficiency - 4.0)%float else baseEfficiency in
  if speed >? 90 then
    let excess := int_to_double (speed - 90) in
    let drop := ((excess * excess) / 400.0)%float in
    fmax 5.0%float (baseEfficiency - drop)%float
  else if speed <? 40 then (baseEfficiency - 3.0)%float
  else baseEfficiency.

(** The travel time of one road, as the relaxation step of [findRoute]
    computes it (the locals [multiplier], [baseTime] and [realTime]). *)
Definition realTime (distanceKM : float) (speed : Z) (level : TrafficLevel) : float :=
  let multiplier := getTrafficMultiplier level in
  let baseTime := ((distanceKM / int_to_double speed) * 60.0)%float in
  (baseTime * multiplier)%float.

(** The fuel of one road, as the relaxation step computes it. *)
Definition segmentFuel (distanceKM : float) (speed : Z) (type : RoadType) : float :=
  let segmentEff := calculateFuelEfficiency speed type in
  (distanceKM / segmentEff)%float.

(** ** Map data initialisation *)

Definition emptyPlanner : RoutePlanner :=
  mkRoutePlanner (repeat [] (Z.to_nat MAX_CITIES))
                 (repeat EmptyString (Z.to_nat MAX_CITIES)) 0.

(** [addCity]: the guard is [id < MAX_CITIES] only, so a negative [id]
    writes outside [cityNames]: undefined behaviour, [None]. *)
Definition addCity (id : Z) (name : string) (g : RoutePlanner) : option RoutePlanner :=
  if id <? MAX_CITIES then
    if id <? 0 then None
    else Some (mkRoutePlanner (adj g) (set (cityNames g) id name)
                              (Z.max (cityCount g) id))
  else Some g.

(** [addRoad]: no guard at all; an index outside [adj] is undefined
    behaviour, [None]. *)
Definition addRoad (u v : Z) (dist : float) (traf : TrafficLevel) (type : RoadType)
    (name : string) (g : RoutePlanner) : option RoutePlanner :=
  if (0 <=? u) && (u <? MAX_CITIES) && (0 <=? v) && (v <? MAX_CITIES) then
    let adj1 := set (adj g) u (get [] (adj g) u ++ [mkEdge v dist traf type name]) in
    let adj2 := set adj1 v (get [] adj1 v ++ [mkEdge u dist traf type name]) in
    Some (mkRoutePlanner adj2 (cityNames g) (cityCount g))
  else None.

(** A sequence of calls to the two mutators. *)
Inductive BuildOp :=
| AddCity (id : Z) (name : string)
| AddRoad (u v : Z) (dist : float) (traf : TrafficLevel) (type : RoadType) (name : string).

Definition apply_op (o : BuildOp) (g : RoutePlanner) : option RoutePlanner :=
  match o with
  | AddCity id name => addCity id name g
  | AddRoad u v dist traf type name => addRoad u v dist traf type name g
  end.

Fixpoint build (ops : list BuildOp) (g : RoutePlanner) : option RoutePlanner :=
  match ops with
  | [] => Some g
  | o :: rest =>
      match apply_op o g with
      | Some g' => build rest g'
      | None => None
      end
  end.

Definition mapData : list BuildOp :=
  [ AddCity 1 "Karachi"; AddCity 2 "Hyderabad"; AddCity 3 "Sukkur";
    AddCity 4 "Multan"; AddCity 5 "Faisalabad"; AddCity 6 "Lahore";
    AddCity 7 "Islamabad"; AddCity 8 "Peshawar"; AddCity 9 "Quetta";
    AddCity 10 "Gwadar"; AddCity 11 "Sialkot"; AddCity 12 "Abbottabad";
    AddCity 13 "Gilgit"; AddCity 14 "Sahiwal"; AddCity 15 "Bahawalpur";
    (* South Corridor *)
    AddRoad 1 2 165 JAMMED MOTORWAY "M-9 Motorway";
    AddRoad 2 3 330 MODERATE HIGHWAY "N-5 National Hwy";
    AddRoad 3 4 420 LOW MOTORWAY "M-5 Sukkur-Multan";
    AddRoad 3 9 390 LOW HIGHWAY "N-65 Highway";
    (* Central Corridor *)
    AddRoad 4 5 240 LOW MOTORWAY "M-4 Motorway";
    AddRoad 4 15 90 MODERATE HIGHWAY "N-5 Lodhran";
    AddRoad 15 3 300 LOW HIGHWAY "N-5 South";
    AddRoad 4 14 180 MODERATE HIGHWAY "N-5 GT Road";
    AddRoad 14 6 170 HIGH HIGHWAY "N-5 Okara";
    (* Punjab Grid *)
    AddRoad 5 6 150 HIGH MOTORWAY "M-3 Motorway";
    AddRoad 5 7 320 LOW MOTORWAY "M-4 (Goa-Pindi)";
    AddRoad 6 7 375 MODERATE MOTORWAY "M-2 Motorway";
    AddRoad 6 11 130 MODERATE MOTORWAY "M-11 Sialkot";
    (* North Corridor *)
    AddRoad 7 8 180 LOW MOTORWAY "M-1 Motorway";
    AddRoad 7 12 120 HIGH HIGHWAY "N-35 Karakoram";
    AddRoad 12 13 450 HIGH HIGHWAY "KKH (Hazara)";
    (* West Corridor *)
    AddRoad 1 10 650 LOW HIGHWAY "N-10 Coastal Hwy";
    AddRoad 10 9 920 LOW HIGHWAY "N-85 Highway";
    AddRoad 9 8 800 LOW HIGHWAY "N-50 Zhob Route" ]%float%string.

Definition initializeMapData (g : RoutePlanner) : option RoutePlanner := build mapData g.

(** The planner the constructor [RoutePlanner()] leaves behind. *)
Definition thePlanner : RoutePlanner :=
  match initializeMapData emptyPlanner with
  | Some g => g
  | None => emptyPlanner
  end.

(* ================================================================== *)
(** * The priority queue

    [std::priority_queue<PqNode, vector<PqNode>, greater<PqNode>>]: [push]
    adds an entry, [top]/[pop] take out an entry that no other entry is
    smaller than.  Which one of several entries with the same [timeCost]
    comes out is left open by the container: here it is the oldest one,
    the binary heap of a given standard library may take another, and
    with it another of several equally fast routes.  The proofs use of
    the queue only that [pop] takes out one entry, and one that no other
    entry is smaller than ([pq_pop_some], [pq_pop_min]). *)

Definition pq_push (x : PqNode) (q : list PqNode) : list PqNode := q ++ [x].

Fixpoint pq_pop (q : list PqNode) : option (PqNode * list PqNode) :=
  match q with
  | [] => None
  | x :: t =>
      match pq_pop t with
      | None => Some (x, [])
      | Some (m, r) => if PqNode_gt x m then Some (m, x :: r) else Some (x, t)
      end
  end.

(* ================================================================== *)
(** * The main algorithm: [findRoute] *)

(** The locals of [findRoute]. *)
Record SearchState := mkState {
  pq : list PqNode;
  minTime : list float;
  parent : list Z;
  fuelConsumed : list float;
  pathDist : list float
}.

(** The body of [for (auto& edge : adj[u])]. *)
Definition relax (speed : Z) (u : Z) (st : SearchState) (edge : Edge) : SearchState :=
  let v := destination edge in
  let rt := realTime (distanceKM edge) speed (traffic edge) in
  if (get INF (minTime st) u + rt <? get INF (minTime st) v)%float then
    let minTime' := set (minTime st) v (get INF (minTime st) u + rt)%float in
    let parent' := set (parent st) v u in
    let pathDist' :=
      set (pathDist st) v (get 0%float (pathDist st) u + distanceKM edge)%float in
    let fuelConsumed' :=
      set (fuelConsumed st) v
          (get 0%float (fuelConsumed st) u
           + segmentFuel (distanceKM edge) speed (type edge))%float in
    mkState (pq_push (mkPqNode v (get INF minTime' v)) (pq st))
            minTime' parent' fuelConsumed' pathDist'
  else st.

(** One turn of [while (!pq.empty())]; [None] when the queue is empty. *)
Definition step (g : RoutePlanner) (speed : Z) (st : SearchState) : option SearchState :=
  match pq_pop (pq st) with
  | None => None
  | Some (top, rest) =>
      let u := id top in
      let currentTime := timeCost top in
      let st1 := mkState rest (minTime st) (parent st) (fuelConsumed st) (pathDist st) in
      if (get INF (minTime st) u <? currentTime)%float then Some st1
      else Some (fold_left (relax speed u) (adj_of g u) st1)
  end.

(** The loop, with a bound on the number of turns; [None] when the bound
    is reached before the queue is empty. *)
Fixpoint dijkstra (fuel : nat) (g : RoutePlanner) (speed : Z) (st : SearchState)
  : option SearchState :=
  match fuel with
  | O => None
  | S fuel' =>
      match step g speed st with
      | None => Some st
      | Some st' => dijkstra fuel' g speed st'
      end
  end.

Definition initState (startNode : Z) : SearchState :=
  let n := Z.to_nat MAX_CITIES in
  mkState (pq_push (mkPqNode startNode 0%float) [])
          (set (repeat INF n) startNode 0%float)
          (repeat (-1) n)
          (repeat 0%float n)
          (repeat 0%float n).

(* ================================================================== *)
(** * Output: [printDetailedReceipt] *)

(** One printed row of the itinerary; [leg_from] and [leg_to] are the
    loop variables [u] and [v] the row was printed for. *)
Record Leg := mkLeg {
  leg_from : Z;
  leg_to : Z;
  leg : string;
  rName : string;
  tCond : string;
  d : float
}.

Record Receipt := mkReceipt {
  origin : string;
  destinationName : string;
  avgSpeed : Z;
  legs : list Leg;
  totalTime : float;
  totalDist : float;
  totalFuel : float;
  hrs : Z;
  mins : Z;
  cost : float
}.

(** [for (int v = end; v != -1; v = parent[v]) path.push_back(v);] *)
Fixpoint backtrack (fuel : nat) (parent : list Z) (v : Z) : option (list Z) :=
  match fuel with
  | O => None
  | S fuel' =>
      if v =? -1 then Some []
      else match backtrack fuel' parent (get (-1) parent v) with
           | Some p => Some (v :: p)
           | None => None
           end
  end.

(** The inner search for the road that joins [u] and [v]: the first entry
    of [adj[u]] that leads to [v], with the defaults of the source. *)
Fixpoint findRoad (es : list Edge) (v : Z) : string * string * float :=
  match es with
  | [] => ("Unknown"%string, "Unknown"%string, 0%float)
  | e :: rest =>
      if destination e =? v then (roadName e, getTrafficString (traffic e), distanceKM e)
      else findRoad rest v
  end.

Definition printLeg (g : RoutePlanner) (u v : Z) : Leg :=
  let '(rName, tCond, d) := findRoad (adj_of g u) v in
  let leg := (cityName g u ++ "->" ++ cityName g v)%string in
  let leg := if (18 <? String.length leg)%nat then substring 0 18 leg else leg in
  mkLeg u v leg rName tCond d.

(** The rows, from a path listed from the origin to the destination. *)
Fixpoint printLegs (g : RoutePlanner) (cities : list Z) : list Leg :=
  match cities with
  | u :: ((v :: _) as rest) => printLeg g u v :: printLegs g rest
  | _ => []
  end.

Definition printDetailedReceipt (fuel : nat) (g : RoutePlanner) (start end_ : Z)
    (parent : list Z) (totalTime totalDist totalFuel : float) (speed : Z)
  : option Receipt :=
  match backtrack fuel parent end_ with
  | None => None
  | Some path =>
      Some (mkReceipt (cityName g start) (cityName g end_) speed
                      (printLegs g (rev path))
                      totalTime totalDist totalFuel
                      (Z.quot (double_to_int totalTime) 60)
                      (Z.rem (double_to_int totalTime) 60)
                      (totalFuel * PRICE_PETROL)%float)
  end.

(** The three ways [findRoute] ends. *)
Inductive Outcome :=
| InvalidCity                  (* "Invalid City ID Selected!" *)
| Unreachable                  (* "Error: No road connection exists between these cities." *)
| Route (r : Receipt).

(** [findRoute]; [None] when [fuel] turns of a loop do not suffice. *)
Definition findRoute (fuel : nat) (g : RoutePlanner) (startNode endNode speed : Z)
  : option Outcome :=
  if (startNode <? 1) || (startNode >? cityCount g)
     || (endNode <? 1) || (endNode >? cityCount g)
  then Some InvalidCity
  else
    match dijkstra fuel g speed (initState startNode) with
    | None => None
    | Some st =>
        if (get INF (minTime st) endNode =? INF)%float then Some Unreachable
        else
          match printDetailedReceipt fuel g startNode endNode (parent st)
                  (get INF (minTime st) endNode)
                  (get 0%float (pathDist st) endNode)
                  (get 0%float (fuelConsumed st) endNode) speed with
          | Some r => Some (Route r)
          | None => None
          end
    end.

(* ================================================================== *)
(** * Definitions used by the statements and the proofs *)

(** Value of a float in units of 2^emin. *)
Definition TOP : Z := 2 ^ 2098.

Definition SFmag (x : spec_float) : Z :=
  match x with
  | S754_zero _ => 0
  | S754_infinity _ => TOP
  | S754_nan => 0
  | S754_finite _ m e => Zpos m * 2 ^ (e + 1074)
  end.

Definition SFsign (x : spec_float) : bool :=
  match x with
  | S754_zero s | S754_infinity s | S754_finite s _ _ => s
  | S754_nan => false
  end.

Definition SFval (x : spec_float) : Z :=
  if SFsign x then - SFmag x else SFmag x.

Definition SFnan (x : spec_float) : bool :=
  match x with S754_nan => true | _ => false end.

Definition Wfrac (A B : Z) : Z := A / B - (- A) / B.

Definition RHE (W K : Z) : Z :=
  let q := W / 2 ^ K in
  let r := W mod 2 ^ K in
  match 2 * r ?= 2 ^ K with
  | Lt => q
  | Gt => q + 1
  | Eq => if Z.even q then q else q + 1
  end.

Definition rlevel (W : Z) : Z := Z.max (Zdigits2 W - 53) 2.

Definition rho (W : Z) : Z := Z.min TOP (RHE W (rlevel W) * 2 ^ (rlevel W - 2)).

Definition locfrac (a b : Z) : location :=
  if a mod b =? 0 then loc_Exact else loc_Inexact (2 * (a mod b) ?= b).

(** ** The shifts of [binary_round_aux] as divisions *)

Definition shr_rep (mrs : shr_record) (a b : Z) : Prop :=
  shr_m mrs = a / b /\ loc_of_shr_record mrs = locfrac a b.

Definition Wscaled (a b e : Z) : Z :=
  if 0 <=? e + 1075 then Wfrac (a * 2 ^ (e + 1075)) b
  else Wfrac a (b * 2 ^ (- (e + 1075))).

(** Not NaN and not negative (a zero of either sign is allowed). *)
Definition SFnn (x : spec_float) : Prop :=
  SFnan x = false /\ (SFsign x = true -> SFmag x = 0).

(** finite: neither NaN nor an infinity *)
Definition SFfin (x : spec_float) : bool :=
  match x with S754_zero _ | S754_finite _ _ _ => true | _ => false end.

(** ** Addition *)

Inductive SFnn_shape : spec_float -> Prop :=
| nn_zero s : SFnn_shape (S754_zero s)
| nn_inf : SFnn_shape (S754_infinity false)
| nn_fin m e : bounded prec emax m e = true -> SFnn_shape (S754_finite false m e).

Definition FV (x : float) : Z := SFmag (Prim2SF x).
Definition Fnn (x : float) : Prop := SFnn (Prim2SF x).
Definition Fpos (x : float) : Prop := exists m e, Prim2SF x = S754_finite false m e.
Definition rank (x : float) : Z := SFval (Prim2SF x).

(** ** [int] to [double] *)

Definition INT_MAX : Z := 2147483647.

(** A planner as [addCity] and [addRoad] leave it: arrays of [MAX_CITIES]
    cells, a city count inside the array, and roads between cells. *)
Definition wf (g : RoutePlanner) : Prop :=
  List.length (adj g) = Z.to_nat MAX_CITIES /\
  List.length (cityNames g) = Z.to_nat MAX_CITIES /\
  0 <= cityCount g < MAX_CITIES /\
  forall u e, In e (adj_of g u) -> in_range u /\ in_range (destination e).

(** The arrays of a search have [MAX_CITIES] cells. *)
Definition wfs (st : SearchState) : Prop :=
  List.length (minTime st) = Z.to_nat MAX_CITIES /\
  List.length (parent st) = Z.to_nat MAX_CITIES /\
  List.length (fuelConsumed st) = Z.to_nat MAX_CITIES /\
  List.length (pathDist st) = Z.to_nat MAX_CITIES.

(** The potential that bounds the number of turns of the loop. *)
Fixpoint sumrank (l : list float) : Z :=
  match l with
  | [] => 0
  | x :: t => (rank x + TOP) + sumrank t
  end.

Definition potential (st : SearchState) : Z :=
  2 * sumrank (minTime st) + Z.of_nat (List.length (pq st)).

(** A path: consecutive entries of the adjacency lists, from [u] to [v]. *)
Fixpoint is_path (g : RoutePlanner) (u : Z) (es : list Edge) (v : Z) : Prop :=
  match es with
  | [] => u = v
  | e :: rest => In e (adj_of g u) /\ is_path g (destination e) rest v
  end.

Definition reachable (g : RoutePlanner) (u v : Z) : Prop :=
  exists es, is_path g u es v.

(** A city registered by the calls [ops]: [addCity] was called for it, with
    a positive identifier below [MAX_CITIES]. *)
Definition registered (ops : list BuildOp) (c : Z) : Prop :=
  1 <= c < MAX_CITIES /\ exists name, In (AddCity c name) ops.

(** The range check at the head of [findRoute]. *)
Definition validCity (g : RoutePlanner) (c : Z) : Prop := 1 <= c <= cityCount g.

(** ** Only reachable cities are ever touched *)

Definition touched_reachable (g : RoutePlanner) (s : Z) (st : SearchState) : Prop :=
  (forall x, In x (pq st) -> reachable g s (id x)) /\
  (forall v, reachable g s v \/ get INF (minTime st) v = INF).

(** The time and the fuel of one road at a given speed, and the totals of
    a path, each accumulated from the origin on, as [findRoute] does. *)
Definition segTime (speed : Z) (e : Edge) : float :=
  realTime (distanceKM e) speed (traffic e).

Definition segFuel (speed : Z) (e : Edge) : float :=
  segmentFuel (distanceKM e) speed (type e).

Definition pathTimeFrom (speed : Z) (acc : float) (es : list Edge) : float :=
  fold_left (fun t e => (t + segTime speed e)%float) es acc.

Definition pathTime (speed : Z) (es : list Edge) : float :=
  pathTimeFrom speed 0%float es.

Definition pathDistance (es : list Edge) : float :=
  fold_left (fun t e => (t + distanceKM e)%float) es 0%float.

Definition pathFuel (speed : Z) (es : list Edge) : float :=
  fold_left (fun t e => (t + segFuel speed e)%float) es 0%float.

(** The pairs of neighbours of a list of cities. *)
Fixpoint hops (cities : list Z) : list (Z * Z) :=
  match cities with
  | u :: ((v :: _) as rest) => (u, v) :: hops rest
  | _ => []
  end.

Definition leg_ends (l : Leg) : Z * Z := (leg_from l, leg_to l).

(** Every road has a length that is not negative (and not a NaN). *)
Definition nonneg_roads (g : RoutePlanner) : Prop :=
  forall u e, In e (adj_of g u) -> (0 <=? distanceKM e)%float = true.

(** The cells of the four arrays of a search. *)
Definition mt (st : SearchState) (v : Z) : float := get INF (minTime st) v.
Definition par (st : SearchState) (v : Z) : Z := get (-1) (parent st) v.
Definition pd (st : SearchState) (v : Z) : float := get 0%float (pathDist st) v.
Definition fc (st : SearchState) (v : Z) : float := get 0%float (fuelConsumed st) v.

(** A city the search has reached: the origin, or a city with a predecessor. *)
Definition touched (start : Z) (st : SearchState) (v : Z) : Prop :=
  v = start \/ par st v <> -1.

(** What the arrays say about a reached city [v]: a path from the origin
    whose totals are the three cells of [v], and whose cities are what
    walking the predecessors back from [v] gives, all of them but [v]
    settled, and none met twice. *)
Definition witness (g : RoutePlanner) (speed start : Z) (S : list Z)
    (st : SearchState) (v : Z) : Prop :=
  exists es cs n,
    is_path g start es v /\
    pathTime speed es = mt st v /\
    pathDistance es = pd st v /\
    pathFuel speed es = fc st v /\
    backtrack n (parent st) v = Some (v :: cs) /\
    rev (v :: cs) = start :: map destination es /\
    (forall c, In c cs -> In c S) /\
    NoDup (v :: cs).

(** The invariant of the loop.  [S] lists the settled cities (popped with
    their current time); [T] says which roads are known not to improve
    their far end. *)
Record Inv (g : RoutePlanner) (speed start : Z) (S : list Z)
    (T : Z -> Edge -> Prop) (st : SearchState) : Prop := mkInv {
  inv_wfs : wfs st;
  inv_nn : forall v, Fnn (mt st v) /\ FV (mt st v) <= FV INF;
  inv_start : mt st start = 0%float /\ par st start = -1 /\
              pd st start = 0%float /\ fc st start = 0%float;
  inv_pq : forall x, In x (pq st) ->
           in_range (id x) /\ Fnn (timeCost x) /\
           FV (mt st (id x)) <= FV (timeCost x) /\ touched start st (id x);
  inv_S : forall u, In u S -> in_range u /\ touched start st u;
  inv_S_pq : forall u x, In u S -> In x (pq st) -> FV (mt st u) <= FV (timeCost x);
  inv_T_S : forall u e, T u e -> In u S;
  inv_T : forall u e, T u e -> In e (adj_of g u) ->
          FV (mt st (destination e)) <= FV (mt st u + segTime speed e);
  inv_pending : forall u, in_range u ->
                In u S \/
                (exists x, In x (pq st) /\ id x = u /\ FV (timeCost x) = FV (mt st u)) \/
                ~ touched start st u;
  inv_untouched : forall v, ~ touched start st v -> mt st v = INF;
  inv_wit : forall v, in_range v -> touched start st v -> witness g speed start S st v
}.

(** The roads of the settled cities. *)
Definition settled_roads (g : RoutePlanner) (S : list Z) (u : Z) (e : Edge) : Prop :=
  In u S /\ In e (adj_of g u).

(** What a route handed to the caller says about a path [es]. *)
Definition route_of (g : RoutePlanner) (speed start : Z) (es : list Edge) (r : Receipt)
  : Prop :=
  totalTime r = pathTime speed es /\
  totalDist r = pathDistance es /\
  totalFuel r = pathFuel speed es /\
  legs r = printLegs g (start :: map destination es).

(** [nonneg_roads], as a test that can be run. *)
Definition nonneg_roadsb (g : RoutePlanner) : bool :=
  forallb (forallb (fun e => (0 <=? distanceKM e)%float)) (adj g).

(** A planner with one road of two billion kilometres. *)
Definition farOps : list BuildOp :=
  [AddCity 1 "A"; AddCity 2 "B"; AddRoad 1 2 2e9 LOW MOTORWAY "far"]%float%string.

Definition farPlanner : RoutePlanner :=
  match build farOps emptyPlanner with Some g => g | None => emptyPlanner end.

(** Two cities and no road. *)
Definition apartOps : list BuildOp := [AddCity 1 "A"; AddCity 2 "B"]%string.

Definition apartPlanner : RoutePlanner :=
  match build apartOps emptyPlanner with Some g => g | None => emptyPlanner end.

(** The fuel efficiency as the specification words it: base 16.0, 4.0 less
    on a local road; above 90 km/h the square of the excess over 400 is
    taken off and the result is raised to 5.0 when it falls below; under
    40 km/h a flat 3.0 is taken off, with no floor; otherwise the base. *)
Definition fuelEfficiencyKmPerLitre (speedKmh : Z) (roadType : RoadType) : float :=
  let base := match roadType with LOCAL => (16.0 - 4.0)%float | _ => 16.0%float end in
  if 90 <? speedKmh then
    let excess := int_to_double (speedKmh - 90) in
    let reduced := (base - (excess * excess) / 400.0)%float in
    if (reduced <? 5.0)%float then 5.0%float else reduced
  else if speedKmh <? 40 then (base - 3.0)%float
  else base.

(** Cities 1 and 5 registered, nothing in between, no road. *)
Definition gapOps : list BuildOp := [AddCity 1 "A"; AddCity 5 "E"]%string.

Definition gapPlanner : RoutePlanner :=
  match build gapOps emptyPlanner with Some g => g | None => emptyPlanner end.

(** Every road has a length above zero. *)
Definition positive_roads (g : RoutePlanner) : Prop :=
  forall u e, In e (adj_of g u) -> (0 <? distanceKM e)%float = true.

Definition positive_roadsb (g : RoutePlanner) : bool :=
  forallb (forallb (fun e => (0 <? distanceKM e)%float)) (adj g).

(** [e1] is the first road of the list [es] that leads to [v]. *)
Definition first_road_to (es : list Edge) (v : Z) (e1 : Edge) : Prop :=
  exists pre post,
    es = pre ++ e1 :: post /\
    (forall x, In x pre -> destination x <> v) /\
    destination e1 = v.

(** The road [e], leaving [u], taken the other way. *)
Definition reverse_road (u : Z) (e : Edge) : Edge :=
  mkEdge u (distanceKM e) (traffic e) (type e) (roadName e).

(** Every entry has its reverse entry. *)
Definition symmetric (g : RoutePlanner) : Prop :=
  forall u e, In e (adj_of g u) -> In (reverse_road u e) (adj_of g (destination e)).

(** A sum of times taken the way the loop takes it: from zero, from left
    to right. *)
Definition sumTimes (ts : list float) : float :=
  fold_left (fun t x => (t + x)%float) ts 0%float.

(** The receipt of a query that returned a route (an empty receipt
    otherwise). *)
Definition the_route (o : option Outcome) : Receipt :=
  match o with
  | Some (Route r) => r
  | _ => mkReceipt EmptyString EmptyString 0 [] 0%float 0%float 0%float 0 0 0%float
  end.

(** Some entry of [es] leads to [v]. *)
Definition has_road_to (es : list Edge) (v : Z) : bool :=
  existsb (fun e => destination e =? v) es.

(** No later call registers the city [c] again. *)
Definition not_renamed (c : Z) (ops : list BuildOp) : Prop :=
  forall name, ~ In (AddCity c name) ops.

(** The indices of the arrays: [0 .. MAX_CITIES - 1]. *)
Definition cities : list Z := map Z.of_nat (seq 0 (Z.to_nat MAX_CITIES)).

(** The number of entries of the adjacency lists. *)
Definition n_roads (g : RoutePlanner) : nat :=
  list_sum (map (fun u => List.length (adj_of g u)) cities).

(** The number of calls to [addRoad]. *)
Definition count_roads (ops : list BuildOp) : nat :=
  List.length (filter (fun o => match o with AddRoad _ _ _ _ _ _ => true | _ => false end) ops).

Definition memb (u : Z) (S : list Z) : bool := existsb (Z.eqb u) S.

(** The entries of the cities that are not settled yet. *)
Definition unsettled (g : RoutePlanner) (S : list Z) : nat :=
  list_sum (map (fun u => if memb u S then O else List.length (adj_of g u)) cities).

(** The row of the itinerary [l] shows a road that exists: the first road
    from its first city to its second one. *)
Definition real_leg (g : RoutePlanner) (l : Leg) : Prop :=
  exists e1,
    first_road_to (adj_of g (leg_from l)) (leg_to l) e1 /\
    rName l = roadName e1 /\
    tCond l = getTrafficString (traffic e1) /\
    d l = distanceKM e1.

(** The integers from [lo] to [hi]. *)
Definition Zrange (lo hi : Z) : list Z :=
  map (fun i => lo + Z.of_nat i) (seq 0 (Z.to_nat (hi - lo + 1))).

(** The conditions under which the three input loops of [main] leave with
    their value: [source] and [dest] from 1 to 15, [speedInput] from 40 to
    160; [main] then calls [findRoute source dest speedInput]. *)
Definition main_accepts (source dest speedInput : Z) : bool :=
  ((source >=? 1) && (source <=? 15)) &&
  ((dest >=? 1) && (dest <=? 15)) &&
  ((speedInput >=? 40) && (speedInput <=? 160)).

(** A route, of fewer than [h] hours. *)
Definition is_route_under (h : Z) (o : option Outcome) : bool :=
  match o with
  | Some (Route r) => hrs r <? h
  | _ => false
  end.

(** The map of the program and one more city, with no road to it. *)
Definition isleOps : list BuildOp := mapData ++ [AddCity 16 "Murree"%string].

Definition islePlanner : RoutePlanner :=
  match build isleOps emptyPlanner with Some g => g | None => emptyPlanner end.

(** No two entries of one adjacency list lead to the same city. *)
Definition no_parallel (g : RoutePlanner) : Prop :=
  forall u e1 e2, In e1 (adj_of g u) -> In e2 (adj_of g u) ->
    destination e1 = destination e2 -> e1 = e2.

Fixpoint distinctb (l : list Z) : bool :=
  match l with
  | [] => true
  | x :: t => negb (existsb (Z.eqb x) t) && distinctb t
  end.

Definition no_parallelb (g : RoutePlanner) : bool :=
  forallb (fun es => distinctb (map destination es)) (adj g).

(** Two roads between the same two cities, the longer one defined first. *)
Definition twinOps : list BuildOp :=
  [AddCity 1 "A"; AddCity 2 "B";
   AddRoad 1 2 200 LOW MOTORWAY "first";
   AddRoad 1 2 50 LOW MOTORWAY "second"]%float%string.

Definition twinPlanner : RoutePlanner :=
  match build twinOps emptyPlanner with Some g => g | None => emptyPlanner end.

(** The roads the rows [ls] show: a path [shown] through the same cities
    as [es], each of its roads the first one in definition order between
    its two cities, with the name, the traffic label and the length of
    the row. *)
Definition rows_show (g : RoutePlanner) (start end_ : Z) (es : list Edge) (ls : list Leg)
  : Prop :=
  exists shown,
    is_path g start shown end_ /\
    map destination shown = map destination es /\
    map leg_ends ls = hops (start :: map destination es) /\
    Forall (real_leg g) ls /\
    map d ls = map distanceKM shown /\
    map rName ls = map roadName shown /\
    map tCond ls = map (fun e => getTrafficString (traffic e)) shown /\
    (no_parallel g -> shown = es).

(* ================================================================== *)
(** * Lemmas and theorems *)

Lemma digits2_size m : digits2_pos m = Pos.size m.
Proof. induction m; simpl; congruence. Qed.

Lemma digits2_bounds m :
  2 ^ (Zpos (digits2_pos m) - 1) <= Zpos m < 2 ^ Zpos (digits2_pos m).
Proof.
  rewrite digits2_size. split.
  - pose proof (Pos.size_le m) as H.
    assert (H' : 2 ^ Zpos (Pos.size m) <= 2 * Zpos m).
    { change 2 with (Zpos 2) at 1. rewrite <- Pos2Z.inj_pow.
      change (2 * Zpos m) with (Zpos m~0). apply Pos2Z.pos_le_pos. exact H. }
    replace (Zpos (Pos.size m)) with (Zpos (Pos.size m) - 1 + 1) in H' by lia.
    rewrite Z.pow_add_r in H' by lia. lia.
  - pose proof (Pos.size_gt m) as H.
    change 2 with (Zpos 2). rewrite <- Pos2Z.inj_pow. apply Pos2Z.pos_lt_pos. exact H.
Qed.

Lemma bounded_inv m e :
  bounded prec emax m e = true ->
  -1074 <= e <= 971 /\ Zpos (digits2_pos m) <= 53 /\
  (-1074 < e -> Zpos (digits2_pos m) = 53).
Proof.
  unfold bounded, canonical_mantissa, fexp, SpecFloat.emin, prec, emax.
  intros H. apply andb_true_iff in H. destruct H as [H1 H2].
  apply Z.eqb_eq in H1. apply Z.leb_le in H2. lia.
Qed.

Lemma pow2_pos k : 0 < 2 ^ k \/ k < 0.
Proof. destruct (Z_lt_le_dec k 0); [right; lia | left; apply Z.pow_pos_nonneg; lia]. Qed.

Lemma SFmag_finite_bounds s m e :
  bounded prec emax m e = true ->
  0 < SFmag (S754_finite s m e) < TOP.
Proof.
  intros H. apply bounded_inv in H. destruct H as (He & Hd & _).
  pose proof (digits2_bounds m) as [_ Hm]. cbn [SFmag]. unfold TOP. split.
  - apply Z.mul_pos_pos; [lia | apply Z.pow_pos_nonneg; lia].
  - assert (Zpos m < 2 ^ 53).
    { eapply Z.lt_le_trans; [exact Hm | apply Z.pow_le_mono_r; lia]. }
    assert (2 ^ (e + 1074) <= 2 ^ 2045) by (apply Z.pow_le_mono_r; lia).
    replace 2098 with (53 + 2045) by lia. rewrite (Z.pow_add_r 2 53 2045) by lia.
    assert (0 < 2 ^ (e + 1074)) by (apply Z.pow_pos_nonneg; lia).
    nia.
Qed.

Lemma SFmag_finite_cmp m1 e1 m2 e2 :
  bounded prec emax m1 e1 = true -> bounded prec emax m2 e2 = true ->
  match Z.compare e1 e2 with
  | Lt => Lt
  | Gt => Gt
  | Eq => Pos.compare_cont Eq m1 m2
  end = (Zpos m1 * 2 ^ (e1 + 1074) ?= Zpos m2 * 2 ^ (e2 + 1074)).
Proof.
  intros H1 H2. apply bounded_inv in H1, H2.
  destruct H1 as (He1 & Hd1 & Hn1), H2 as (He2 & Hd2 & Hn2).
  pose proof (digits2_bounds m1) as [Hl1 Hu1].
  pose proof (digits2_bounds m2) as [Hl2 Hu2].
  assert (Hlt : forall ma ea mb eb,
             -1074 <= ea -> ea < eb -> Zpos (digits2_pos ma) <= 53 ->
             Zpos (digits2_pos mb) = 53 ->
             Zpos ma * 2 ^ (ea + 1074) < Zpos mb * 2 ^ (eb + 1074)).
  { intros ma ea mb eb Hea Hlt Hda Hdb.
    pose proof (digits2_bounds ma) as [_ Hua].
    pose proof (digits2_bounds mb) as [Hlb _].
    rewrite Hdb in Hlb. change (53 - 1) with 52 in Hlb.
    assert (Zpos ma < 2 ^ 53).
    { eapply Z.lt_le_trans; [exact Hua | apply Z.pow_le_mono_r; lia]. }
    replace (eb + 1074) with ((ea + 1074) + (eb - ea)) by lia.
    rewrite (Z.pow_add_r 2 (ea + 1074) (eb - ea)) by lia.
    assert (0 < 2 ^ (ea + 1074)) by (apply Z.pow_pos_nonneg; lia).
    assert (2 ^ 1 <= 2 ^ (eb - ea)) by (apply Z.pow_le_mono_r; lia).
    change (2 ^ 1) with 2 in *.
    assert (Hs : Zpos ma < Zpos mb * 2 ^ (eb - ea)).
    { assert (2 ^ 53 = 2 * 2 ^ 52) by reflexivity. nia. }
    replace (Zpos mb * (2 ^ (ea + 1074) * 2 ^ (eb - ea)))
      with ((Zpos mb * 2 ^ (eb - ea)) * 2 ^ (ea + 1074)) by ring.
    apply Z.mul_lt_mono_pos_r; assumption. }
  destruct (Z.compare_spec e1 e2) as [E | L | G].
  - subst e2. change (Pos.compare_cont Eq m1 m2) with (Pos.compare m1 m2).
    assert (0 < 2 ^ (e1 + 1074)) by (apply Z.pow_pos_nonneg; lia).
    destruct (Pos.compare_spec m1 m2) as [E' | L' | G']; symmetry.
    + subst m2. apply Z.compare_refl.
    + apply Z.compare_lt_iff. apply Z.mul_lt_mono_pos_r; [assumption | lia].
    + apply Z.compare_gt_iff. apply Z.mul_lt_mono_pos_r; [assumption | lia].
  - symmetry. apply Z.compare_lt_iff. apply Hlt; lia.
  - symmetry. apply Z.compare_gt_iff. apply Hlt; lia.
Qed.

Lemma SFcompare_val x y :
  valid_binary x = true -> valid_binary y = true ->
  SFnan x = false -> SFnan y = false ->
  SFcompare x y = Some (SFval x ?= SFval y).
Proof.
  intros Vx Vy Nx Ny.
  destruct x as [sx | sx | | sx mx ex]; try discriminate;
  destruct y as [sy | sy | | sy my ey]; try discriminate;
  simpl in Vx, Vy;
  try (pose proof (SFmag_finite_bounds sx mx ex Vx) as Bx);
  try (pose proof (SFmag_finite_bounds sy my ey Vy) as By);
  unfold SFval; cbn [SFcompare SFsign];
  try (destruct sx); try (destruct sy); cbn [SFmag] in *;
  try reflexivity;
  try (f_equal; symmetry;
       first [ apply Z.compare_lt_iff; unfold TOP in *; lia
             | apply Z.compare_gt_iff; unfold TOP in *; lia ]).
  - pose proof (SFmag_finite_cmp mx ex my ey Vx Vy) as H.
    rewrite Z.compare_opp, (Z.compare_antisym (Zpos mx * 2 ^ (ex + 1074))), <- H.
    f_equal. destruct (ex ?= ey); try reflexivity.
  - exact (f_equal Some (SFmag_finite_cmp mx ex my ey Vx Vy)).
Qed.

(** ** digits *)

Lemma Zdigits2_bounds W : 0 < W ->
  0 < Zdigits2 W /\ 2 ^ (Zdigits2 W - 1) <= W < 2 ^ Zdigits2 W.
Proof.
  destruct W as [| p | p]; try lia. intros _. cbn [Zdigits2].
  split; [lia | apply digits2_bounds].
Qed.

Lemma Zdigits2_nonneg W : 0 <= Zdigits2 W.
Proof. destruct W; cbn; lia. Qed.

Lemma Zdigits2_unique W d : 0 < d -> 2 ^ (d - 1) <= W < 2 ^ d -> Zdigits2 W = d.
Proof.
  intros Hd [Hl Hu].
  assert (0 < W) by (eapply Z.lt_le_trans; [| exact Hl]; apply Z.pow_pos_nonneg; lia).
  destruct (Zdigits2_bounds W H) as (Hp & Hl' & Hu').
  destruct (Z.lt_trichotomy (Zdigits2 W) d) as [L | [E | G]]; [| exact E |]; exfalso.
  - assert (2 ^ Zdigits2 W <= 2 ^ (d - 1)) by (apply Z.pow_le_mono_r; lia). lia.
  - assert (2 ^ d <= 2 ^ (Zdigits2 W - 1)) by (apply Z.pow_le_mono_r; lia). lia.
Qed.

Lemma Zdigits2_le W1 W2 : 0 <= W1 <= W2 -> Zdigits2 W1 <= Zdigits2 W2.
Proof.
  intros [H1 H2]. destruct (Z.eq_dec W1 0) as [-> | N].
  - apply Zdigits2_nonneg.
  - destruct (Zdigits2_bounds W1) as (P1 & L1 & U1); [lia |].
    destruct (Zdigits2_bounds W2) as (P2 & L2 & U2); [lia |].
    destruct (Z_le_gt_dec (Zdigits2 W1) (Zdigits2 W2)) as [L | G]; [exact L | exfalso].
    assert (2 ^ Zdigits2 W2 <= 2 ^ (Zdigits2 W1 - 1)) by (apply Z.pow_le_mono_r; lia).
    lia.
Qed.

Lemma Zdigits2_lt_pow W d : 0 <= d -> 0 <= W < 2 ^ d -> Zdigits2 W <= d.
Proof.
  intros Hd [H0 H]. destruct (Z.eq_dec W 0) as [-> | N]; [cbn; lia |].
  destruct (Zdigits2_bounds W) as (P & L & U); [lia |].
  destruct (Z_le_gt_dec (Zdigits2 W) d) as [Le | G]; [exact Le | exfalso].
  assert (2 ^ d <= 2 ^ (Zdigits2 W - 1)) by (apply Z.pow_le_mono_r; lia). lia.
Qed.

Lemma Zdigits2_ge_pow W d : 0 <= d -> 2 ^ d <= W -> d + 1 <= Zdigits2 W.
Proof.
  intros Hd H.
  assert (0 < W) by (eapply Z.lt_le_trans; [| exact H]; apply Z.pow_pos_nonneg; lia).
  destruct (Zdigits2_bounds W) as (P & L & U); [lia |].
  destruct (Z_le_gt_dec (d + 1) (Zdigits2 W)) as [Le | G]; [exact Le | exfalso].
  assert (2 ^ Zdigits2 W <= 2 ^ d) by (apply Z.pow_le_mono_r; lia). lia.
Qed.

(** ** rounding of integers *)

Lemma RHE_bounds W K : 0 <= K -> W / 2 ^ K <= RHE W K <= W / 2 ^ K + 1.
Proof.
  intros HK. unfold RHE.
  destruct (2 * (W mod 2 ^ K) ?= 2 ^ K); [destruct (Z.even _) | |]; lia.
Qed.

Lemma RHE_mono W1 W2 K : 0 <= K -> W1 <= W2 -> RHE W1 K <= RHE W2 K.
Proof.
  intros HK H.
  assert (HP : 0 < 2 ^ K) by (apply Z.pow_pos_nonneg; lia).
  assert (Hq : W1 / 2 ^ K <= W2 / 2 ^ K) by (apply Z.div_le_mono; lia).
  pose proof (RHE_bounds W1 K HK) as B1. pose proof (RHE_bounds W2 K HK) as B2.
  destruct (Z.eq_dec (W1 / 2 ^ K) (W2 / 2 ^ K)) as [E | N]; [| lia].
  assert (Hr : W1 mod 2 ^ K <= W2 mod 2 ^ K).
  { pose proof (Z.div_mod W1 (2 ^ K)). pose proof (Z.div_mod W2 (2 ^ K)). nia. }
  unfold RHE. rewrite E.
  destruct (Z.compare_spec (2 * (W1 mod 2 ^ K)) (2 ^ K));
    destruct (Z.compare_spec (2 * (W2 mod 2 ^ K)) (2 ^ K));
    destruct (Z.even (W2 / 2 ^ K)); lia.
Qed.

Lemma rlevel_ge W : 2 <= rlevel W.
Proof. unfold rlevel. lia. Qed.

Lemma rlevel_mono W1 W2 : 0 <= W1 <= W2 -> rlevel W1 <= rlevel W2.
Proof. intros H. unfold rlevel. pose proof (Zdigits2_le W1 W2 H). lia. Qed.

Lemma rho_mono W1 W2 : 0 <= W1 <= W2 -> rho W1 <= rho W2.
Proof.
  intros H. unfold rho. apply Z.min_le_compat_l.
  pose proof (rlevel_mono W1 W2 H) as HK.
  pose proof (rlevel_ge W1) as G1. pose proof (rlevel_ge W2) as G2.
  destruct (Z.eq_dec (rlevel W1) (rlevel W2)) as [E | N].
  - rewrite E. apply Z.mul_le_mono_nonneg_r.
    + apply Z.pow_nonneg; lia.
    + apply RHE_mono; lia.
  - assert (HK' : rlevel W1 < rlevel W2) by lia. clear N HK.
    assert (K2 : rlevel W2 = Zdigits2 W2 - 53) by (unfold rlevel in *; lia).
    assert (D : Zdigits2 W1 < Zdigits2 W2) by (unfold rlevel in *; lia).
    assert (P2 : 0 < W2).
    { destruct (Z.eq_dec W2 0) as [-> | ]; [cbn in D; pose proof (Zdigits2_nonneg W1); lia | lia]. }
    destruct (Zdigits2_bounds W2 P2) as (_ & L2 & _).
    (* lower bound on the right *)
    assert (Lo : 2 ^ (Zdigits2 W2 - 3) <= RHE W2 (rlevel W2) * 2 ^ (rlevel W2 - 2)).
    { pose proof (RHE_bounds W2 (rlevel W2) ltac:(lia)) as [B _].
      assert (2 ^ 52 <= W2 / 2 ^ rlevel W2).
      { apply Z.div_le_lower_bound; [apply Z.pow_pos_nonneg; lia |].
        rewrite <- Z.pow_add_r by lia. rewrite K2.
        replace (Zdigits2 W2 - 53 + 52) with (Zdigits2 W2 - 1) by lia. exact L2. }
      replace (Zdigits2 W2 - 3) with (52 + (rlevel W2 - 2)) by lia.
      rewrite (Z.pow_add_r 2 52) by lia.
      apply Z.mul_le_mono_nonneg_r; [apply Z.pow_nonneg; lia | lia]. }
    (* upper bound on the left *)
    assert (Up : RHE W1 (rlevel W1) * 2 ^ (rlevel W1 - 2) <= 2 ^ (Zdigits2 W2 - 3)).
    { destruct (Z_lt_le_dec (Zdigits2 W1) (rlevel W1)) as [Small | Big].
      - (* W1 is 0 or 1 *)
        assert (K1 : rlevel W1 = 2) by (unfold rlevel in *; lia).
        assert (W1 < 2).
        { destruct (Z_lt_le_dec W1 2) as [l | g]; [exact l | exfalso].
          pose proof (Zdigits2_ge_pow W1 1 ltac:(lia) ltac:(change (2 ^ 1) with 2; lia)). lia. }
        rewrite K1. assert (C : W1 = 0 \/ W1 = 1) by lia.
        destruct C as [-> | ->]; cbn; apply Z.pow_nonneg; lia.
      - assert (U1 : W1 < 2 ^ Zdigits2 W1).
        { destruct (Z.eq_dec W1 0) as [-> | ]; [apply Z.pow_pos_nonneg; [lia | apply Zdigits2_nonneg] |].
          apply Zdigits2_bounds; lia. }
        pose proof (RHE_bounds W1 (rlevel W1) ltac:(lia)) as [_ B].
        assert (W1 / 2 ^ rlevel W1 < 2 ^ (Zdigits2 W1 - rlevel W1)).
        { apply Z.div_lt_upper_bound; [apply Z.pow_pos_nonneg; lia |].
          rewrite <- Z.pow_add_r by lia.
          replace (rlevel W1 + (Zdigits2 W1 - rlevel W1)) with (Zdigits2 W1) by lia. exact U1. }
        assert (RHE W1 (rlevel W1) <= 2 ^ (Zdigits2 W1 - rlevel W1)) by lia.
        eapply Z.le_trans.
        + apply Z.mul_le_mono_nonneg_r; [apply Z.pow_nonneg; lia | eassumption].
        + rewrite <- Z.pow_add_r by lia. apply Z.pow_le_mono_r; lia. }
    lia.
Qed.

Lemma rho_le_TOP W : rho W <= TOP.
Proof. unfold rho. apply Z.le_min_l. Qed.

Lemma rho_nonneg W : 0 <= W -> 0 <= rho W.
Proof.
  intros H. unfold rho. apply Z.min_glb; [unfold TOP; apply Z.pow_nonneg; lia |].
  pose proof (rlevel_ge W).
  apply Z.mul_nonneg_nonneg; [| apply Z.pow_nonneg; lia].
  pose proof (RHE_bounds W (rlevel W) ltac:(lia)) as [B _].
  pose proof (Z.div_pos W (2 ^ rlevel W) H ltac:(apply Z.pow_pos_nonneg; lia)). lia.
Qed.

Lemma Wfrac_scale A B c : 0 < B -> 0 < c -> Wfrac (A * c) (B * c) = Wfrac A B.
Proof.
  intros HB Hc. unfold Wfrac.
  replace (- (A * c)) with ((- A) * c) by ring.
  rewrite !Z.div_mul_cancel_r by lia. reflexivity.
Qed.

Lemma Wfrac_mono_num A1 A2 B : 0 < B -> A1 <= A2 -> Wfrac A1 B <= Wfrac A2 B.
Proof.
  intros HB H. unfold Wfrac.
  pose proof (Z.div_le_mono A1 A2 B HB H).
  pose proof (Z.div_le_mono (- A2) (- A1) B HB ltac:(lia)). lia.
Qed.

Lemma Wfrac_mono A1 B1 A2 B2 :
  0 < B1 -> 0 < B2 -> A1 * B2 <= A2 * B1 -> Wfrac A1 B1 <= Wfrac A2 B2.
Proof.
  intros H1 H2 H.
  rewrite <- (Wfrac_scale A1 B1 B2), <- (Wfrac_scale A2 B2 B1) by assumption.
  rewrite (Z.mul_comm B2 B1). apply Wfrac_mono_num; [nia | exact H].
Qed.

Lemma Wfrac_ratio A1 B1 A2 B2 :
  0 < B1 -> 0 < B2 -> A1 * B2 = A2 * B1 -> Wfrac A1 B1 = Wfrac A2 B2.
Proof.
  intros H1 H2 H. apply Z.le_antisymm; apply Wfrac_mono; lia.
Qed.

Lemma Wfrac_nonneg A B : 0 < B -> 0 <= A -> 0 <= Wfrac A B.
Proof.
  intros HB HA. unfold Wfrac.
  pose proof (Z.div_pos A B HA HB).
  assert ((- A) / B <= 0).
  { apply Z.div_le_upper_bound; lia. }
  lia.
Qed.

Lemma Wfrac_int N B : 0 < B -> Wfrac (N * B) B = 2 * N.
Proof.
  intros HB. unfold Wfrac. replace (- (N * B)) with ((- N) * B) by ring.
  rewrite !Z.div_mul by lia. lia.
Qed.

(** floor + ceiling, spelled with a remainder *)
Lemma Wfrac_divmod A B : 0 < B ->
  Wfrac A B = 2 * (A / B) + (if A mod B =? 0 then 0 else 1).
Proof.
  intros HB. unfold Wfrac.
  pose proof (Z.div_mod A B ltac:(lia)) as E.
  pose proof (Z.mod_pos_bound A B HB) as R.
  destruct (Z.eqb_spec (A mod B) 0) as [Z0 | NZ].
  - assert (A = (A / B) * B) by lia.
    replace (- A) with ((- (A / B)) * B) by lia.
    rewrite Z.div_mul by lia. lia.
  - assert ((- A) / B = - (A / B) - 1).
    { symmetry. apply (Z.div_unique_pos (- A) B (- (A / B) - 1) (B - A mod B)); lia. }
    lia.
Qed.

(** The integer [Wfrac (P * 2^k) Q] carries the quotient [P / Q] above bit
    [k + 1] and the position of the remainder below it. *)
Lemma Wfrac_level P Q k : 0 <= P -> 0 < Q -> 1 <= k ->
  let W := Wfrac (P * 2 ^ k) Q in
  W / 2 ^ (k + 1) = P / Q /\
  (2 * (W mod 2 ^ (k + 1)) ?= 2 ^ (k + 1)) =
    (if P mod Q =? 0 then Lt else (2 * (P mod Q) ?= Q)).
Proof.
  intros HP HQ Hk W.
  set (T := 2 ^ k) in *. assert (HT : 0 < T) by (apply Z.pow_pos_nonneg; lia).
  assert (HT2 : 2 ^ (k + 1) = 2 * T) by (unfold T; rewrite Z.pow_add_r by lia; lia).
  assert (HTe : T = 2 * 2 ^ (k - 1)).
  { unfold T. replace k with (1 + (k - 1)) at 1 by lia. rewrite Z.pow_add_r by lia. lia. }
  set (H := 2 ^ (k - 1)) in *. assert (HH : 0 < H) by (apply Z.pow_pos_nonneg; lia).
  set (q := P / Q). set (r := P mod Q).
  pose proof (Z.div_mod P Q ltac:(lia)) as EP. fold q r in EP.
  pose proof (Z.mod_pos_bound P Q HQ) as Rr. fold r in Rr.
  set (s := (r * T) / Q). set (t0 := (r * T) mod Q).
  pose proof (Z.div_mod (r * T) Q ltac:(lia)) as Es. fold s t0 in Es.
  pose proof (Z.mod_pos_bound (r * T) Q HQ) as Rt. fold t0 in Rt.
  assert (Hs0 : 0 <= s) by (apply Z.div_pos; nia).
  assert (HsT : s < T) by (apply Z.div_lt_upper_bound; nia).
  assert (HN : (P * T) / Q = q * T + s).
  { symmetry. apply (Z.div_unique_pos (P * T) Q (q * T + s) t0); [lia | nia]. }
  assert (Hm : (P * T) mod Q = t0).
  { symmetry. apply (Z.mod_unique_pos (P * T) Q (q * T + s) t0); [lia | nia]. }
  assert (HW : W = q * (2 * T) + (2 * s + (if t0 =? 0 then 0 else 1))).
  { unfold W. rewrite Wfrac_divmod by assumption. rewrite HN, Hm. ring. }
  set (t := if t0 =? 0 then 0 else 1) in *.
  assert (Ht : 0 <= t <= 1) by (unfold t; destruct (t0 =? 0); lia).
  assert (Hdiv : W / (2 * T) = q).
  { symmetry. apply (Z.div_unique_pos W (2 * T) q (2 * s + t)); lia. }
  assert (Hmod : W mod (2 * T) = 2 * s + t).
  { symmetry. apply (Z.mod_unique_pos W (2 * T) q (2 * s + t)); lia. }
  rewrite HT2, Hdiv, Hmod. split; [reflexivity |].
  destruct (Z.eqb_spec r 0) as [R0 | RN].
  - (* exact *)
    assert (s = 0) by (unfold s; rewrite R0; reflexivity).
    assert (t0 = 0) by (unfold t0; rewrite R0; reflexivity).
    assert (t = 0) by (unfold t; subst t0; destruct (Z.eqb_spec ((r * T) mod Q) 0); lia).
    apply Z.compare_lt_iff. lia.
  - assert (Ht0 : t0 = 0 -> t = 0) by (intros e; unfold t; rewrite e; reflexivity).
    assert (Ht1 : t0 <> 0 -> t = 1) by (intros e; unfold t; destruct (Z.eqb_spec t0 0); lia).
    destruct (Z.compare_spec (2 * r) Q) as [E | L | G].
    + (* half way *)
      assert (Eq1 : 2 * r * (H - s) = t0).
      { rewrite <- E in Es. rewrite HTe in Es.
        replace (2 * r * (H - s)) with (r * (2 * H) - 2 * r * s) by ring. lia. }
      assert (EsH : s = H).
      { destruct (Z.lt_trichotomy s H) as [l | [e | g]]; [exfalso | exact e | exfalso].
        - assert (2 * r * 1 <= 2 * r * (H - s)) by (apply Z.mul_le_mono_nonneg_l; lia). lia.
        - assert (2 * r * (H - s) <= 2 * r * (-1)) by (apply Z.mul_le_mono_nonneg_l; lia). lia. }
      assert (Et0 : t0 = 0) by (rewrite EsH, Z.sub_diag, Z.mul_0_r in Eq1; lia).
      apply Z.compare_eq_iff. rewrite (Ht0 Et0). lia.
    + apply Z.compare_lt_iff.
      assert (s < H).
      { destruct (Z_lt_le_dec s H) as [l | g]; [exact l | exfalso].
        assert (Q * H <= Q * s) by (apply Z.mul_le_mono_nonneg_l; lia).
        assert (2 * r * H < Q * H) by (apply Z.mul_lt_mono_pos_r; lia).
        rewrite HTe in Es. replace (r * (2 * H)) with (2 * r * H) in Es by ring. lia. }
      lia.
    + apply Z.compare_gt_iff.
      assert (H <= s).
      { destruct (Z_le_gt_dec H s) as [l | g]; [exact l | exfalso].
        assert (Q * (s + 1) <= Q * H) by (apply Z.mul_le_mono_nonneg_l; lia).
        assert (Q * H < 2 * r * H) by (apply Z.mul_lt_mono_pos_r; lia).
        rewrite HTe in Es. replace (r * (2 * H)) with (2 * r * H) in Es by ring. lia. }
      destruct (Z.eq_dec s H) as [e | ne]; [| lia].
      assert (Nt0 : t0 <> 0).
      { intros z. rewrite z, e, HTe in Es.
        assert (Q * H < 2 * r * H) by (apply Z.mul_lt_mono_pos_r; lia).
        replace (r * (2 * H)) with (2 * r * H) in Es by ring. lia. }
      rewrite (Ht1 Nt0). lia.
Qed.

Lemma shr_rep_of_loc a b : shr_rep (shr_record_of_loc (a / b) (locfrac a b)) a b.
Proof.
  unfold shr_rep. destruct (locfrac a b) as [| []]; cbn; auto.
Qed.

Lemma locfrac_double a b : 0 <= a -> 0 < b ->
  locfrac a (2 * b) =
    match Z.odd (a / b), (a mod b =? 0) with
    | false, true => loc_Exact
    | false, false => loc_Inexact Lt
    | true, true => loc_Inexact Eq
    | true, false => loc_Inexact Gt
    end.
Proof.
  intros Ha Hb. unfold locfrac.
  pose proof (Z.div_mod a b ltac:(lia)) as E.
  pose proof (Z.mod_pos_bound a b Hb) as R.
  pose proof (Z.div_mod (a / b) 2 ltac:(lia)) as E2.
  pose proof (Z.mod_pos_bound (a / b) 2 ltac:(lia)) as R2.
  assert (Hm : a mod (2 * b) = (a / b mod 2) * b + a mod b).
  { symmetry. apply (Z.mod_unique_pos a (2 * b) (a / b / 2)); [nia | nia]. }
  rewrite Hm. rewrite Zodd_mod.
  destruct (Z.eqb_spec (a / b mod 2) 1) as [O | Ev].
  - rewrite O. destruct (Z.eqb_spec (a mod b) 0) as [Z0 | NZ].
    + rewrite Z0. destruct (Z.eqb_spec (1 * b + 0) 0); [lia |].
      f_equal. apply Z.compare_eq_iff. lia.
    + destruct (Z.eqb_spec (1 * b + a mod b) 0); [lia |].
      f_equal. apply Z.compare_gt_iff. lia.
  - assert (a / b mod 2 = 0) by lia. rewrite H.
    destruct (Z.eqb_spec (a mod b) 0) as [Z0 | NZ].
    + rewrite Z0. reflexivity.
    + destruct (Z.eqb_spec (0 * b + a mod b) 0); [lia |].
      f_equal. apply Z.compare_lt_iff. lia.
Qed.

Lemma shr_1_rep mrs a b : 0 <= a -> 0 < b ->
  shr_rep mrs a b -> shr_rep (shr_1 mrs) a (2 * b).
Proof.
  intros Ha Hb [Hm Hl]. unfold shr_rep.
  rewrite (locfrac_double a b Ha Hb).
  assert (Hq : a / (2 * b) = a / b / 2).
  { rewrite (Z.mul_comm 2 b). symmetry. apply Z.div_div; lia. }
  rewrite Hq. rewrite <- Hm.
  assert (Hs : (a mod b =? 0) = negb (shr_r mrs || shr_s mrs)).
  { unfold locfrac in Hl. destruct mrs as [m [] []]; cbn in *;
      destruct (a mod b =? 0); try reflexivity; try discriminate. }
  rewrite Hs. assert (Hpos : 0 <= shr_m mrs) by (rewrite Hm; apply Z.div_pos; lia).
  destruct mrs as [m r s]. cbn [shr_m shr_r shr_s] in *.
  destruct m as [| [p | p |] | p]; try lia; cbn [shr_1 shr_m loc_of_shr_record];
    (split; [try reflexivity | ]).
  all: try (destruct (r || s); reflexivity).
  - rewrite (Pos2Z.inj_xI p). apply (Z.div_unique_pos _ 2 (Zpos p) 1); lia.
  - rewrite (Pos2Z.inj_xO p). apply (Z.div_unique_pos _ 2 (Zpos p) 0); lia.
Qed.

Lemma iter_shr_1_rep p : forall mrs a b, 0 <= a -> 0 < b ->
  shr_rep mrs a b -> shr_rep (iter_pos shr_1 p mrs) a (b * 2 ^ Zpos p).
Proof.
  induction p as [p IH | p IH |]; intros mrs a b Ha Hb H; cbn [iter_pos].
  - replace (b * 2 ^ Zpos p~1) with ((2 * b) * 2 ^ Zpos p * 2 ^ Zpos p).
    + apply IH; [lia | | apply IH; [lia | lia | apply shr_1_rep; assumption]].
      assert (0 < 2 ^ Zpos p) by (apply Z.pow_pos_nonneg; lia). nia.
    + rewrite (Pos2Z.inj_xI p). rewrite Z.pow_add_r, Z.pow_mul_r by lia.
      change (2 ^ 2) with 4. change (2 ^ 1) with 2.
      replace ((4) ^ Zpos p) with (2 ^ Zpos p * 2 ^ Zpos p).
      * ring.
      * rewrite <- Z.pow_mul_l. reflexivity.
  - replace (b * 2 ^ Zpos p~0) with (b * 2 ^ Zpos p * 2 ^ Zpos p).
    + apply IH; [lia | | apply IH; assumption].
      assert (0 < 2 ^ Zpos p) by (apply Z.pow_pos_nonneg; lia). nia.
    + rewrite (Pos2Z.inj_xO p). rewrite Z.pow_mul_r by lia.
      change (2 ^ 2) with 4.
      replace ((4) ^ Zpos p) with (2 ^ Zpos p * 2 ^ Zpos p).
      * ring.
      * rewrite <- Z.pow_mul_l. reflexivity.
  - change (2 ^ 1) with 2. rewrite Z.mul_comm. apply shr_1_rep; assumption.
Qed.

Lemma shr_rep_shift mrs a b e n : 0 <= a -> 0 < b -> 0 <= n ->
  shr_rep mrs a b ->
  shr_rep (fst (shr mrs e n)) a (b * 2 ^ n) /\ snd (shr mrs e n) = e + n.
Proof.
  intros Ha Hb Hn H. destruct n as [| p | p]; try lia; cbn [shr fst snd].
  - rewrite Z.mul_1_r, Z.add_0_r. auto.
  - split; [apply iter_shr_1_rep; assumption | reflexivity].
Qed.

Lemma binary_round_aux_unfold s m e l :
  binary_round_aux prec emax s m e l =
  let p1 := shr_fexp prec emax m e l in
  let p2 := shr_fexp prec emax
              (round_nearest_even (shr_m (fst p1)) (loc_of_shr_record (fst p1)))
              (snd p1) loc_Exact in
  match shr_m (fst p2) with
  | Z0 => S754_zero s
  | Zpos m' => if snd p2 <=? emax - prec then S754_finite s m' (snd p2) else S754_infinity s
  | Zneg _ => S754_nan
  end.
Proof.
  unfold binary_round_aux. destruct (shr_fexp prec emax m e l) as [mrs' e'].
  cbn [fst snd].
  destruct (shr_fexp prec emax _ e' loc_Exact) as [mrs'' e'']. reflexivity.
Qed.

Lemma fexp_eq x : fexp prec emax x = Z.max (x - 53) (-1074).
Proof. reflexivity. Qed.

Lemma round_nearest_even_RHE W K q a Q :
  W / 2 ^ K = q ->
  (2 * (W mod 2 ^ K) ?= 2 ^ K) = (if a mod Q =? 0 then Lt else (2 * (a mod Q) ?= Q)) ->
  round_nearest_even q (locfrac a Q) = RHE W K.
Proof.
  intros Hq Hc. unfold RHE, locfrac. rewrite Hq, Hc.
  destruct (a mod Q =? 0); [reflexivity |].
  destruct (2 * (a mod Q) ?= Q); reflexivity.
Qed.

Lemma binary_round_aux_spec s a b e :
  0 <= a -> 0 < b -> e <= fexp prec emax (Zdigits2 (a / b) + e) ->
  let r := binary_round_aux prec emax s (a / b) e (locfrac a b) in
  SFnan r = false /\ SFsign r = s /\ SFmag r = rho (Wscaled a b e).
Proof.
  intros Ha Hb Hpre.
  set (m := a / b) in *. assert (Hm : 0 <= m) by (apply Z.div_pos; lia).
  set (E := fexp prec emax (Zdigits2 m + e)) in *.
  assert (HE : E = Z.max (Zdigits2 m + e - 53) (-1074)) by reflexivity.
  set (n := E - e). assert (Hn : 0 <= n) by lia.
  set (k := E + 1075). assert (Hk : 1 <= k) by lia.
  set (Q := b * 2 ^ n).
  assert (HPn : 0 < 2 ^ n) by (apply Z.pow_pos_nonneg; lia).
  assert (HQ : 0 < Q) by (unfold Q; nia).
  set (q := a / Q).
  assert (Hqm : q = m / 2 ^ n) by (unfold q, Q, m; symmetry; apply Z.div_div; lia).
  (* size of the shifted mantissa *)
  assert (Hq0 : 0 <= q) by (apply Z.div_pos; lia).
  assert (Hq53 : q < 2 ^ 53).
  { rewrite Hqm. apply Z.div_lt_upper_bound; [assumption |].
    rewrite <- Z.pow_add_r by lia.
    destruct (Z.eq_dec m 0) as [-> | Nm]; [apply Z.pow_pos_nonneg; lia |].
    destruct (Zdigits2_bounds m ltac:(lia)) as (_ & _ & U).
    eapply Z.lt_le_trans; [exact U | apply Z.pow_le_mono_r; lia]. }
  assert (Hq52 : -1074 < E -> 2 ^ 52 <= q).
  { intros HEn. rewrite Hqm. apply Z.div_le_lower_bound; [assumption |].
    rewrite <- Z.pow_add_r by lia.
    assert (Hd : Zdigits2 m = n + 53) by lia.
    assert (Nm : 0 < m).
    { destruct (Z.eq_dec m 0) as [z | ]; [rewrite z in Hd; cbn in Hd; lia | lia]. }
    destruct (Zdigits2_bounds m Nm) as (_ & L & _).
    replace (n + 52) with (Zdigits2 m - 1) by lia. exact L. }
  (* the integer that stands for the real number *)
  set (W := Wscaled a b e).
  assert (HW : W = Wfrac (a * 2 ^ k) Q).
  { unfold W, Wscaled. destruct (Z.leb_spec 0 (e + 1075)) as [P | N].
    - apply Wfrac_ratio; [exact Hb | exact HQ |]. unfold Q, k.
      replace (E + 1075) with ((e + 1075) + n) by lia.
      rewrite (Z.pow_add_r 2 (e + 1075) n) by lia. ring.
    - apply Wfrac_ratio; [| exact HQ |].
      + assert (0 < 2 ^ (- (e + 1075))) by (apply Z.pow_pos_nonneg; lia). nia.
      + unfold Q. replace n with (- (e + 1075) + k) by lia.
        rewrite (Z.pow_add_r 2 (- (e + 1075)) k) by lia. ring. }
  destruct (Wfrac_level a Q k Ha HQ Hk) as [Hdiv Hcmp]. rewrite <- HW in Hdiv, Hcmp.
  fold q in Hdiv.
  assert (HPk : 0 < 2 ^ (k + 1)) by (apply Z.pow_pos_nonneg; lia).
  assert (HWb : q * 2 ^ (k + 1) <= W < (q + 1) * 2 ^ (k + 1)).
  { pose proof (Z.div_mod W (2 ^ (k + 1)) ltac:(lia)).
    pose proof (Z.mod_pos_bound W (2 ^ (k + 1)) HPk). rewrite Hdiv in *. nia. }
  assert (Hlev : rlevel W = k + 1).
  { unfold rlevel.
    assert (Up : Zdigits2 W <= k + 1 + 53).
    { apply Zdigits2_lt_pow; [lia |]. split; [nia |].
      rewrite Z.pow_add_r by lia. nia. }
    destruct (Z.eq_dec E (-1074)) as [e0 | ne0]; [unfold k in *; lia |].
    assert (2 ^ 52 <= q) by (apply Hq52; lia).
    assert (k + 1 + 52 + 1 <= Zdigits2 W).
    { apply Zdigits2_ge_pow; [lia |]. rewrite Z.pow_add_r by lia. nia. }
    lia. }
  set (m2 := round_nearest_even q (locfrac a Q)).
  assert (Hm2 : m2 = RHE W (k + 1)) by (apply round_nearest_even_RHE; assumption).
  assert (Hm2b : q <= m2 <= q + 1).
  { rewrite Hm2. rewrite <- Hdiv. apply RHE_bounds. lia. }
  assert (Hrho : rho W = Z.min TOP (m2 * 2 ^ (E + 1074))).
  { unfold rho. rewrite Hlev, <- Hm2. replace (k + 1 - 2) with (E + 1074) by (unfold k; lia).
    reflexivity. }
  (* the first shift *)
  intros r. subst r. rewrite binary_round_aux_unfold.
  assert (S1 : shr_rep (fst (shr_fexp prec emax m e (locfrac a b))) a Q /\
               snd (shr_fexp prec emax m e (locfrac a b)) = E).
  { unfold shr_fexp. fold E. fold n.
    destruct (shr_rep_shift (shr_record_of_loc m (locfrac a b)) a b e n Ha Hb Hn
                (shr_rep_of_loc a b)) as [R1 R2].
    split; [exact R1 | rewrite R2; unfold n; lia]. }
  destruct S1 as [[S1m S1l] S1e].
  cbv zeta. rewrite S1m, S1l, S1e. fold q. fold m2.
  fold W in Hrho. rewrite Hrho.
  assert (HPE : 0 < 2 ^ (E + 1074)) by (apply Z.pow_pos_nonneg; lia).
  (* the second shift *)
  unfold shr_fexp. rewrite fexp_eq.
  destruct (Z.eq_dec m2 (2 ^ 53)) as [Carry | NoCarry].
  - rewrite Carry. change (Zdigits2 (2 ^ 53)) with 54.
    replace (Z.max (54 + E - 53) (-1074) - E) with 1 by lia.
    change (2 ^ 53) with 9007199254740992.
    cbn [shr_record_of_loc shr iter_pos shr_1 fst snd shr_m].
    change (emax - prec) with 971.
    assert (Hv : 4503599627370496 * 2 ^ (E + 1 + 1074) = 9007199254740992 * 2 ^ (E + 1074)).
    { replace (E + 1 + 1074) with (1 + (E + 1074)) by lia.
      rewrite (Z.pow_add_r 2 1 (E + 1074)) by lia. change (2 ^ 1) with 2. ring. }
    destruct (Z.leb_spec (E + 1) 971) as [Fin | Ovf]; cbn [SFnan SFsign SFmag];
      (split; [reflexivity | split; [reflexivity |]]).
    + rewrite Z.min_r; [exact Hv |]. unfold TOP.
      change 9007199254740992 with (2 ^ 53).
      rewrite <- Z.pow_add_r by lia. apply Z.pow_le_mono_r; lia.
    + rewrite Z.min_l; [reflexivity |].
      unfold TOP. change 9007199254740992 with (2 ^ 53).
      rewrite <- Z.pow_add_r by lia. apply Z.pow_le_mono_r; lia.
  - assert (Hm2lt : m2 < 2 ^ 53) by lia.
    assert (Hd2 : Zdigits2 m2 <= 53) by (apply Zdigits2_lt_pow; lia).
    assert (Hn2 : Z.max (Zdigits2 m2 + E - 53) (-1074) - E <= 0) by lia.
    assert (Hshr : shr (shr_record_of_loc m2 loc_Exact) E
                     (Z.max (Zdigits2 m2 + E - 53) (-1074) - E)
                   = (shr_record_of_loc m2 loc_Exact, E)).
    { destruct (Z.max (Zdigits2 m2 + E - 53) (-1074) - E); try reflexivity. lia. }
    rewrite Hshr. cbn [fst snd shr_record_of_loc shr_m].
    change (emax - prec) with 971.
    destruct m2 as [| p | p]; try lia; cbn [SFnan SFsign SFmag].
    + split; [reflexivity | split; [reflexivity |]].
      rewrite Z.mul_0_l. rewrite Z.min_r; [reflexivity | unfold TOP; apply Z.pow_nonneg; lia].
    + destruct (Z.leb_spec E 971) as [Fin | Ovf]; cbn [SFnan SFsign SFmag];
        (split; [reflexivity | split; [reflexivity |]]).
      * rewrite Z.min_r; [reflexivity |]. unfold TOP.
        replace 2098 with (53 + 2045) by lia. rewrite (Z.pow_add_r 2 53 2045) by lia.
        assert (2 ^ (E + 1074) <= 2 ^ 2045) by (apply Z.pow_le_mono_r; lia).
        nia.
      * rewrite Z.min_l; [reflexivity |]. unfold TOP.
        assert (2 ^ 52 <= Zpos p) by (pose proof (Hq52 ltac:(lia)); lia).
        replace 2098 with (52 + 2046) by lia. rewrite (Z.pow_add_r 2 52 2046) by lia.
        assert (2 ^ 2046 <= 2 ^ (E + 1074)) by (apply Z.pow_le_mono_r; lia).
        assert (0 < 2 ^ 2046) by (apply Z.pow_pos_nonneg; lia).
        nia.
Qed.

Lemma Wscaled_ratio a b e A B c :
  0 < b -> 0 < B -> 0 <= c -> 0 <= c + (e + 1075) ->
  A * b * 2 ^ c = a * 2 ^ (c + (e + 1075)) * B ->
  Wscaled a b e = Wfrac A B.
Proof.
  intros Hb HB Hc Hce H. unfold Wscaled.
  assert (Pc : 0 < 2 ^ c) by (apply Z.pow_pos_nonneg; lia).
  destruct (Z.leb_spec 0 (e + 1075)) as [P | N].
  - apply Wfrac_ratio; [assumption | assumption |].
    rewrite (Z.pow_add_r 2 c (e + 1075)) in H by lia.
    apply (Z.mul_cancel_r _ _ (2 ^ c)); [lia |]. lia.
  - assert (Pj : 0 < 2 ^ (- (e + 1075))) by (apply Z.pow_pos_nonneg; lia).
    apply Wfrac_ratio; [nia | assumption |].
    replace c with ((c + (e + 1075)) + (- (e + 1075))) in H at 1 by lia.
    rewrite (Z.pow_add_r 2 (c + (e + 1075)) (- (e + 1075))) in H by lia.
    assert (Pk : 0 < 2 ^ (c + (e + 1075))) by (apply Z.pow_pos_nonneg; lia).
    apply (Z.mul_cancel_r _ _ (2 ^ (c + (e + 1075)))); [lia |]. lia.
Qed.

Lemma rho_0 : rho 0 = 0.
Proof. reflexivity. Qed.

Lemma Zdigits2_mul_pow m j : 0 < m -> 0 <= j ->
  Zdigits2 (m * 2 ^ j) = Zdigits2 m + j.
Proof.
  intros Hm Hj. destruct (Zdigits2_bounds m Hm) as (P & L & U).
  assert (0 < 2 ^ j) by (apply Z.pow_pos_nonneg; lia).
  apply Zdigits2_unique; [lia |]. split.
  - replace (Zdigits2 m + j - 1) with ((Zdigits2 m - 1) + j) by lia.
    rewrite Z.pow_add_r by lia. nia.
  - rewrite Z.pow_add_r by lia. nia.
Qed.

(** a representable value is a fixed point of the rounding *)
Lemma rho_canonical m e : bounded prec emax m e = true ->
  rho (4 * (Zpos m * 2 ^ (e + 1074))) = Zpos m * 2 ^ (e + 1074).
Proof.
  intros Hb. pose proof (SFmag_finite_bounds false m e Hb) as Bm. cbn [SFmag] in Bm.
  apply bounded_inv in Hb. destruct Hb as (He & Hd & Hn).
  assert (HW : 4 * (Zpos m * 2 ^ (e + 1074)) = Zpos m * 2 ^ (e + 1076)).
  { replace (e + 1076) with (2 + (e + 1074)) by lia.
    rewrite (Z.pow_add_r 2 2) by lia. change (2 ^ 2) with 4. ring. }
  rewrite HW.
  assert (HD : Zdigits2 (Zpos m * 2 ^ (e + 1076)) = Zpos (digits2_pos m) + (e + 1076)).
  { rewrite Zdigits2_mul_pow by lia. reflexivity. }
  assert (HK : rlevel (Zpos m * 2 ^ (e + 1076)) = e + 1076).
  { unfold rlevel. rewrite HD. lia. }
  assert (HP : 0 < 2 ^ (e + 1076)) by (apply Z.pow_pos_nonneg; lia).
  unfold rho. rewrite HK. unfold RHE.
  rewrite Z.div_mul, Z.mod_mul by lia.
  assert (C : (2 * 0 ?= 2 ^ (e + 1076)) = Lt) by (apply Z.compare_lt_iff; lia).
  rewrite C. replace (e + 1076 - 2) with (e + 1074) by lia.
  apply Z.min_r. lia.
Qed.

Lemma rho_fixed x : valid_binary x = true -> SFfin x = true ->
  rho (4 * SFmag x) = SFmag x.
Proof.
  intros V F. destruct x as [s | s | | s m e]; try discriminate; cbn [SFmag].
  - reflexivity.
  - apply rho_canonical. exact V.
Qed.

(** Beyond the largest float the rounding saturates. *)
Lemma rho_TOP W : 4 * TOP <= W -> rho W = TOP.
Proof.
  intros H. apply Z.le_antisymm; [apply rho_le_TOP |].
  assert (E : rho (4 * TOP) = TOP) by (vm_compute; reflexivity).
  rewrite <- E at 1. apply rho_mono. unfold TOP in *. split; [| exact H].
  apply Z.mul_nonneg_nonneg; [lia | apply Z.pow_nonneg; lia].
Qed.

(** ** [shl_align] and [binary_round] *)

Lemma pos_iter_xO m d : Zpos (Pos.iter xO m d) = Zpos m * 2 ^ Zpos d.
Proof.
  change (Pos.iter xO m d) with (shift_pos d m).
  rewrite shift_pos_correct. change (Z.pow_pos 2 d) with (2 ^ Zpos d). ring.
Qed.

Lemma shl_align_spec m e e' :
  snd (shl_align m e e') = Z.min e e' /\
  Zpos (fst (shl_align m e e')) = Zpos m * 2 ^ (e - Z.min e e').
Proof.
  unfold shl_align. destruct (e' - e) as [| p | p] eqn:D; cbn [fst snd].
  - split; [lia |]. replace (e - Z.min e e') with 0 by lia. rewrite Z.mul_1_r. reflexivity.
  - split; [lia |]. replace (e - Z.min e e') with 0 by lia. rewrite Z.mul_1_r. reflexivity.
  - split; [lia |]. replace (e - Z.min e e') with (Zpos p) by lia. apply pos_iter_xO.
Qed.

Lemma binary_round_spec s p e :
  let r := binary_round prec emax s p e in
  SFnan r = false /\ SFsign r = s /\ SFmag r = rho (Wscaled (Zpos p) 1 e).
Proof.
  unfold binary_round.
  set (F := fexp prec emax (Zpos (digits2_pos p) + e)).
  pose proof (shl_align_spec p e F) as [He Hm].
  destruct (shl_align p e F) as [mz ez]. cbn [fst snd] in *.
  rewrite <- He in Hm.
  assert (Hj : 0 <= e - ez) by lia.
  assert (Hpre : ez <= fexp prec emax (Zdigits2 (Zpos mz / 1) + ez)).
  { rewrite Z.div_1_r, Hm. rewrite Zdigits2_mul_pow by lia. cbn [Zdigits2].
    replace (Zpos (digits2_pos p) + (e - ez) + ez) with (Zpos (digits2_pos p) + e) by lia.
    fold F. lia. }
  pose proof (binary_round_aux_spec s (Zpos mz) 1 ez ltac:(lia) ltac:(lia) Hpre) as H.
  cbv zeta in H. rewrite Z.div_1_r in H.
  assert (Hl : locfrac (Zpos mz) 1 = loc_Exact).
  { unfold locfrac. rewrite Z.mod_1_r. reflexivity. }
  rewrite Hl in H. cbv zeta. destruct H as (H1 & H2 & H3).
  split; [exact H1 | split; [exact H2 |]]. rewrite H3. f_equal.
  (* the same real number before and after the alignment *)
  set (c := Z.max 0 (- (ez + 1075))).
  rewrite (Wscaled_ratio (Zpos p) 1 e (Zpos p * 2 ^ (c + (e + 1075))) (2 ^ c) c);
    [ | lia | apply Z.pow_pos_nonneg; lia | lia | lia | ring ].
  apply (Wscaled_ratio (Zpos mz) 1 ez _ _ c);
    [ lia | apply Z.pow_pos_nonneg; lia | lia | lia | ].
  rewrite Hm. replace (c + (e + 1075)) with ((e - ez) + (c + (ez + 1075))) by lia.
  rewrite (Z.pow_add_r 2 (e - ez)) by lia. ring.
Qed.

Lemma SFnn_shape_of x : valid_binary x = true -> SFnn x -> SFnn_shape x.
Proof.
  intros V [N S]. destruct x as [s | s | | s m e]; try discriminate.
  - constructor.
  - destruct s; [| constructor]. specialize (S eq_refl). cbn in S. discriminate.
  - destruct s; [| constructor; exact V].
    pose proof (SFmag_finite_bounds true m e V) as B. specialize (S eq_refl). lia.
Qed.

Lemma SFnn_zero s : SFnn (S754_zero s).
Proof. split; reflexivity. Qed.

Lemma SFnn_pos x : SFnan x = false -> SFsign x = false -> SFnn x.
Proof. intros N S. split; [exact N | rewrite S; discriminate]. Qed.

Lemma Wscaled_int p e : -1075 <= e ->
  Wscaled (Zpos p) 1 e = 2 * (Zpos p * 2 ^ (e + 1075)).
Proof.
  intros He. unfold Wscaled. destruct (Z.leb_spec 0 (e + 1075)); [| lia].
  rewrite <- (Z.mul_1_r (Zpos p * 2 ^ (e + 1075))) at 1. apply Wfrac_int. lia.
Qed.

Lemma SFadd_finite_spec mx ex my ey :
  bounded prec emax mx ex = true -> bounded prec emax my ey = true ->
  let r := SFadd prec emax (S754_finite false mx ex) (S754_finite false my ey) in
  SFnan r = false /\ SFsign r = false /\
  SFmag r = rho (4 * (Zpos mx * 2 ^ (ex + 1074) + Zpos my * 2 ^ (ey + 1074))).
Proof.
  intros Bx By. apply bounded_inv in Bx, By.
  destruct Bx as (Hex & _), By as (Hey & _).
  cbn [SFadd cond_Zopp].
  set (ez := Z.min ex ey).
  pose proof (shl_align_spec mx ex ez) as [_ Hx].
  pose proof (shl_align_spec my ey ez) as [_ Hy].
  replace (Z.min ex ez) with ez in Hx by lia.
  replace (Z.min ey ez) with ez in Hy by lia.
  set (mx' := fst (shl_align mx ex ez)) in *.
  set (my' := fst (shl_align my ey ez)) in *.
  change (Zpos mx' + Zpos my') with (Zpos (mx' + my')).
  cbn [binary_normalize].
  pose proof (binary_round_spec false (mx' + my') ez) as H. cbv zeta in H.
  destruct H as (H1 & H2 & H3). cbv zeta.
  split; [exact H1 | split; [exact H2 |]]. rewrite H3. f_equal.
  rewrite Wscaled_int by lia. rewrite Pos2Z.inj_add, Hx, Hy.
  assert (Ex : 2 ^ (ex + 1074) = 2 ^ (ex - ez) * 2 ^ (ez + 1074)).
  { rewrite <- Z.pow_add_r by lia. f_equal. lia. }
  assert (Ey : 2 ^ (ey + 1074) = 2 ^ (ey - ez) * 2 ^ (ez + 1074)).
  { rewrite <- Z.pow_add_r by lia. f_equal. lia. }
  assert (E1 : 2 ^ (ez + 1075) = 2 * 2 ^ (ez + 1074)).
  { replace (ez + 1075) with (1 + (ez + 1074)) by lia.
    rewrite (Z.pow_add_r 2 1) by lia. reflexivity. }
  rewrite Ex, Ey, E1. ring.
Qed.

Lemma SFadd_nn x y :
  valid_binary x = true -> valid_binary y = true -> SFnn x -> SFnn y ->
  SFnn (SFadd prec emax x y) /\
  SFmag (SFadd prec emax x y) = rho (4 * (SFmag x + SFmag y)).
Proof.
  intros Vx Vy Nx Ny.
  assert (T0 : 0 < TOP) by (unfold TOP; apply Z.pow_pos_nonneg; lia).
  destruct (SFnn_shape_of x Vx Nx) as [sx | | mx ex Bx];
  destruct (SFnn_shape_of y Vy Ny) as [sy | | my ey By];
  try (pose proof (SFmag_finite_bounds false mx ex Bx) as Mx; cbn [SFmag] in Mx);
  try (pose proof (SFmag_finite_bounds false my ey By) as My; cbn [SFmag] in My).
  - (* zero + zero *)
    destruct sx, sy; (split; [apply SFnn_zero | reflexivity]).
  - (* zero + infinity *)
    split; [apply SFnn_pos; reflexivity |].
    cbn [SFadd SFmag]. symmetry. apply rho_TOP. lia.
  - (* zero + finite *)
    split; [apply SFnn_pos; reflexivity |].
    cbn [SFadd SFmag]. rewrite Z.add_0_l. symmetry. apply rho_canonical. exact By.
  - (* infinity + zero *)
    split; [apply SFnn_pos; reflexivity |].
    cbn [SFadd SFmag]. symmetry. apply rho_TOP. lia.
  - (* infinity + infinity *)
    split; [apply SFnn_pos; reflexivity |].
    cbn [SFadd SFmag]. symmetry. apply rho_TOP. lia.
  - (* infinity + finite *)
    split; [apply SFnn_pos; reflexivity |].
    cbn [SFadd SFmag]. symmetry. apply rho_TOP. lia.
  - (* finite + zero *)
    split; [apply SFnn_pos; reflexivity |].
    cbn [SFadd SFmag]. rewrite Z.add_0_r. symmetry. apply rho_canonical. exact Bx.
  - (* finite + infinity *)
    split; [apply SFnn_pos; reflexivity |].
    cbn [SFadd SFmag]. symmetry. apply rho_TOP. lia.
  - (* finite + finite *)
    pose proof (SFadd_finite_spec mx ex my ey Bx By) as H. cbv zeta in H.
    destruct H as (H1 & H2 & H3). split; [apply SFnn_pos; assumption | exact H3].
Qed.

(** ** Multiplication *)

Lemma SFmul_finite_spec sx mx ex sy my ey :
  bounded prec emax mx ex = true -> bounded prec emax my ey = true ->
  let r := SFmul prec emax (S754_finite sx mx ex) (S754_finite sy my ey) in
  SFnan r = false /\ SFsign r = xorb sx sy /\
  SFmag r = rho (Wfrac (Zpos mx * 2 ^ (ex + 1074) * (Zpos my * 2 ^ (ey + 1074)))
                       (2 ^ 1073)).
Proof.
  intros Bx By. apply bounded_inv in Bx, By.
  destruct Bx as (Hex & Hdx & Hnx), By as (Hey & Hdy & Hny).
  cbn [SFmul].
  assert (Hpre : ex + ey <= fexp prec emax (Zdigits2 (Zpos (mx * my) / 1) + (ex + ey))).
  { rewrite Z.div_1_r, fexp_eq.
    assert (Dx : Zpos (digits2_pos mx) <= Zdigits2 (Zpos (mx * my))).
    { change (Zpos (digits2_pos mx)) with (Zdigits2 (Zpos mx)).
      apply Zdigits2_le. rewrite Pos2Z.inj_mul. nia. }
    assert (Dy : Zpos (digits2_pos my) <= Zdigits2 (Zpos (mx * my))).
    { change (Zpos (digits2_pos my)) with (Zdigits2 (Zpos my)).
      apply Zdigits2_le. rewrite Pos2Z.inj_mul. nia. }
    destruct (Z.eq_dec ex (-1074)) as [e1 | n1]; [| lia].
    destruct (Z.eq_dec ey (-1074)) as [e2 | n2]; lia. }
  pose proof (binary_round_aux_spec (xorb sx sy) (Zpos (mx * my)) 1 (ex + ey)
                ltac:(lia) ltac:(lia) Hpre) as H.
  cbv zeta in H. rewrite Z.div_1_r in H.
  assert (Hl : locfrac (Zpos (mx * my)) 1 = loc_Exact).
  { unfold locfrac. rewrite Z.mod_1_r. reflexivity. }
  rewrite Hl in H. destruct H as (H1 & H2 & H3). cbv zeta.
  split; [exact H1 | split; [exact H2 |]]. rewrite H3. f_equal.
  apply (Wscaled_ratio _ 1 _ _ _ 1073);
    [lia | apply Z.pow_pos_nonneg; lia | lia | lia |].
  rewrite Pos2Z.inj_mul.
  replace (1073 + (ex + ey + 1075)) with ((ex + 1074) + (ey + 1074)) by lia.
  rewrite (Z.pow_add_r 2 (ex + 1074)) by lia. ring.
Qed.

Lemma SFmul_nn x my ey :
  valid_binary x = true -> bounded prec emax my ey = true -> SFnn x ->
  let y := S754_finite false my ey in
  SFnn (SFmul prec emax x y) /\
  SFmag (SFmul prec emax x y) =
    if SFmag x =? TOP then TOP else rho (Wfrac (SFmag x * SFmag y) (2 ^ 1073)).
Proof.
  intros Vx By Nx y. subst y.
  destruct (SFnn_shape_of x Vx Nx) as [sx | | mx ex Bx].
  - split; [apply SFnn_zero |]. cbn [SFmul SFmag]. reflexivity.
  - split; [apply SFnn_pos; reflexivity |]. cbn [SFmul SFmag xorb].
    rewrite Z.eqb_refl. reflexivity.
  - pose proof (SFmag_finite_bounds false mx ex Bx) as Mx.
    destruct (Z.eqb_spec (SFmag (S754_finite false mx ex)) TOP) as [E | _]; [lia |].
    pose proof (SFmul_finite_spec false mx ex false my ey Bx By) as H. cbv zeta in H.
    destruct H as (H1 & H2 & H3). split; [apply SFnn_pos; assumption | exact H3].
Qed.

(** ** Division *)

Lemma new_location_locfrac a b : 0 < b ->
  new_location b (a mod b) = locfrac a b.
Proof.
  intros Hb. pose proof (Z.mod_pos_bound a b Hb) as R.
  unfold new_location, new_location_even, new_location_odd, locfrac.
  destruct (Z.even b) eqn:Ev; [reflexivity |].
  destruct (a mod b =? 0); [reflexivity |]. f_equal.
  assert (Od : Z.odd b = true) by (rewrite <- Z.negb_even, Ev; reflexivity).
  apply Z.odd_spec in Od. destruct Od as [j Hj].
  destruct (Z.compare_spec (2 * (a mod b) + 1) b);
    destruct (Z.compare_spec (2 * (a mod b)) b); try reflexivity; lia.
Qed.

Lemma SFdiv_finite_spec mx ex my ey :
  bounded prec emax mx ex = true -> bounded prec emax my ey = true ->
  let r := SFdiv prec emax (S754_finite false mx ex) (S754_finite false my ey) in
  SFnan r = false /\ SFsign r = false /\
  SFmag r = rho (Wfrac (Zpos mx * 2 ^ (ex + 1074) * 2 ^ 1075) (Zpos my * 2 ^ (ey + 1074))).
Proof.
  intros Bx By. apply bounded_inv in Bx, By.
  destruct Bx as (Hex & Hdx & Hnx), By as (Hey & Hdy & Hny).
  cbn [SFdiv xorb]. unfold SFdiv_core_binary.
  cbn [Zdigits2].
  set (d1 := Zpos (digits2_pos mx)) in *. set (d2 := Zpos (digits2_pos my)) in *.
  set (e' := Z.min (fexp prec emax (d1 + ex - (d2 + ey))) (ex - ey)).
  set (s := ex - ey - e').
  assert (Hs : 0 <= s) by (unfold s, e'; lia).
  set (m' := match s with Zpos _ => Z.shiftl (Zpos mx) s | 0 => Zpos mx | Zneg _ => 0 end).
  assert (Hm' : m' = Zpos mx * 2 ^ s).
  { unfold m'. destruct s as [| p | p] eqn:Es; try lia.
    apply Z.shiftl_mul_pow2. lia. }
  assert (HPs : 0 < 2 ^ s) by (apply Z.pow_pos_nonneg; lia).
  assert (Hm'0 : 0 < m') by (rewrite Hm'; nia).
  assert (Hde : Z.div_eucl m' (Zpos my) = (m' / Zpos my, m' mod Zpos my)).
  { unfold Z.div, Z.modulo. destruct (Z.div_eucl m' (Zpos my)). reflexivity. }
  rewrite Hde. rewrite new_location_locfrac by lia.
  (* the shifts of the rounding go right *)
  assert (Hpre : e' <= fexp prec emax (Zdigits2 (m' / Zpos my) + e')).
  { rewrite fexp_eq. destruct (Z_le_gt_dec e' (-1074)) as [Le | Gt]; [lia |].
    assert (HD : 53 <= d1 + s - d2).
    { unfold s. unfold e' in Gt |- *. rewrite fexp_eq in *. lia. }
    destruct (digits2_bounds mx) as [Lx _]. destruct (digits2_bounds my) as [_ Uy].
    fold d1 in Lx. fold d2 in Uy.
    assert (Hq : 2 ^ (d1 - 1 + s - d2) <= m' / Zpos my).
    { apply Z.div_le_lower_bound; [lia |].
      assert (Zpos my * 2 ^ (d1 - 1 + s - d2) <= 2 ^ d2 * 2 ^ (d1 - 1 + s - d2)).
      { apply Z.mul_le_mono_nonneg_r; [apply Z.pow_nonneg; lia | lia]. }
      rewrite <- Z.pow_add_r in H by (unfold d2; lia).
      replace (d2 + (d1 - 1 + s - d2)) with ((d1 - 1) + s) in H by lia.
      rewrite Z.pow_add_r in H by (unfold d1; lia).
      rewrite Hm'. nia. }
    pose proof (Zdigits2_ge_pow (m' / Zpos my) (d1 - 1 + s - d2) ltac:(lia) Hq).
    unfold s in *. unfold e' in Gt |- *. rewrite fexp_eq in *. lia. }
  pose proof (binary_round_aux_spec false m' (Zpos my) e'
                ltac:(lia) ltac:(lia) Hpre) as H.
  cbv zeta in H. destruct H as (H1 & H2 & H3). cbv zeta.
  split; [exact H1 | split; [exact H2 |]]. rewrite H3. f_equal.
  set (c := Z.max 0 (- (e' + 1075))).
  apply (Wscaled_ratio _ _ _ _ _ (c + (ey + 1074)));
    [lia | | lia | lia |].
  - assert (0 < 2 ^ (ey + 1074)) by (apply Z.pow_pos_nonneg; lia). nia.
  - rewrite Hm'.
    assert (E1 : 2 ^ (c + (ey + 1074) + (e' + 1075)) * 2 ^ s
                 = 2 ^ c * 2 ^ (ex + 1074) * 2 ^ 1075).
    { rewrite <- !Z.pow_add_r by lia. f_equal. unfold s. lia. }
    assert (E2 : 2 ^ (c + (ey + 1074)) = 2 ^ c * 2 ^ (ey + 1074)).
    { rewrite <- Z.pow_add_r by lia. reflexivity. }
    rewrite E2.
    transitivity (Zpos mx * (2 ^ (c + (ey + 1074) + (e' + 1075)) * 2 ^ s)
                  * (Zpos my * 2 ^ (ey + 1074))); [rewrite E1 |]; ring.
Qed.

Lemma SFdiv_nn x my ey :
  valid_binary x = true -> bounded prec emax my ey = true -> SFnn x ->
  let y := S754_finite false my ey in
  SFnn (SFdiv prec emax x y) /\
  SFmag (SFdiv prec emax x y) =
    if SFmag x =? TOP then TOP else rho (Wfrac (SFmag x * 2 ^ 1075) (SFmag y)).
Proof.
  intros Vx By Nx y. subst y.
  destruct (SFnn_shape_of x Vx Nx) as [sx | | mx ex Bx].
  - split; [apply SFnn_zero |]. cbn [SFdiv SFmag]. reflexivity.
  - split; [apply SFnn_pos; reflexivity |]. cbn [SFdiv SFmag xorb].
    rewrite Z.eqb_refl. reflexivity.
  - pose proof (SFmag_finite_bounds false mx ex Bx) as Mx.
    destruct (Z.eqb_spec (SFmag (S754_finite false mx ex)) TOP) as [E | _]; [lia |].
    pose proof (SFdiv_finite_spec mx ex my ey Bx By) as H. cbv zeta in H.
    destruct H as (H1 & H2 & H3). split; [apply SFnn_pos; assumption | exact H3].
Qed.

(** ** Integers *)

Lemma binary_normalize_pos_spec z : 0 < z ->
  let r := binary_normalize prec emax z 0 false in
  SFnan r = false /\ SFsign r = false /\ SFmag r = rho (4 * (z * 2 ^ 1074)).
Proof.
  intros Hz. destruct z as [| p | p]; try lia. cbn [binary_normalize].
  pose proof (binary_round_spec false p 0) as H. cbv zeta in H.
  destruct H as (H1 & H2 & H3). cbv zeta.
  split; [exact H1 | split; [exact H2 |]]. rewrite H3. f_equal.
  rewrite Wscaled_int by lia. change (0 + 1075) with (1 + 1074).
  rewrite (Z.pow_add_r 2 1 1074) by lia. change (2 ^ 1) with 2. ring.
Qed.

Lemma TOP_pos : 0 < TOP.
Proof. unfold TOP. apply Z.pow_pos_nonneg; lia. Qed.

Lemma SFmag_bounds x : valid_binary x = true -> 0 <= SFmag x <= TOP.
Proof.
  intros V. pose proof TOP_pos. destruct x as [s | s | | s m e]; cbn [SFmag]; try lia.
  pose proof (SFmag_finite_bounds s m e V) as B. cbn [SFmag] in B. lia.
Qed.

Lemma FV_bounds x : 0 <= FV x <= TOP.
Proof. apply SFmag_bounds, Prim2SF_valid. Qed.

Lemma SFval_nn x : SFnn x -> SFval x = SFmag x.
Proof.
  intros [_ S]. unfold SFval. destruct (SFsign x); [| reflexivity].
  rewrite (S eq_refl). reflexivity.
Qed.

Lemma rank_bounds x : - TOP <= rank x <= TOP.
Proof.
  unfold rank, SFval. pose proof (SFmag_bounds (Prim2SF x) (Prim2SF_valid x)).
  destruct (SFsign (Prim2SF x)); lia.
Qed.

Lemma SFcompare_nan_l y : SFcompare S754_nan y = None.
Proof. reflexivity. Qed.

Lemma SFcompare_nan_r x : SFcompare x S754_nan = None.
Proof. destruct x; reflexivity. Qed.

(** [<] on floats is [<] on ranks; it fails on a NaN. *)
Lemma ltb_rank x y : (x <? y)%float = true ->
  SFnan (Prim2SF x) = false /\ SFnan (Prim2SF y) = false /\ rank x < rank y.
Proof.
  rewrite ltb_spec. unfold SFltb, rank. intros H.
  destruct (SFnan (Prim2SF x)) eqn:Nx.
  { destruct (Prim2SF x); try discriminate. }
  destruct (SFnan (Prim2SF y)) eqn:Ny.
  { destruct (Prim2SF y); try discriminate. rewrite SFcompare_nan_r in H. discriminate. }
  rewrite (SFcompare_val _ _ (Prim2SF_valid x) (Prim2SF_valid y) Nx Ny) in H.
  destruct (Z.compare_spec (SFval (Prim2SF x)) (SFval (Prim2SF y))); try discriminate.
  auto.
Qed.

Lemma compare_nn x y : Fnn x -> Fnn y ->
  SFcompare (Prim2SF x) (Prim2SF y) = Some (FV x ?= FV y).
Proof.
  intros Nx Ny. unfold FV. rewrite <- (SFval_nn _ Nx), <- (SFval_nn _ Ny).
  apply SFcompare_val; try apply Prim2SF_valid; [apply Nx | apply Ny].
Qed.

Lemma ltb_nn x y : Fnn x -> Fnn y -> (x <? y)%float = (FV x <? FV y).
Proof.
  intros Nx Ny. rewrite ltb_spec. unfold SFltb. rewrite (compare_nn x y Nx Ny).
  unfold Z.ltb. destruct (FV x ?= FV y); reflexivity.
Qed.

Lemma leb_nn x y : Fnn x -> Fnn y -> (x <=? y)%float = (FV x <=? FV y).
Proof.
  intros Nx Ny. rewrite leb_spec. unfold SFleb. rewrite (compare_nn x y Nx Ny).
  unfold Z.leb. destruct (FV x ?= FV y); reflexivity.
Qed.

Lemma eqb_nn x y : Fnn x -> Fnn y -> (x =? y)%float = (FV x =? FV y).
Proof.
  intros Nx Ny. rewrite eqb_spec. unfold SFeqb. rewrite (compare_nn x y Nx Ny).
  rewrite Z.eqb_compare. destruct (FV x ?= FV y); reflexivity.
Qed.

Lemma Fnn_of_leb x : (0 <=? x)%float = true -> Fnn x.
Proof.
  rewrite leb_spec. change (Prim2SF 0) with (S754_zero false).
  unfold SFleb, Fnn. destruct (Prim2SF x) as [s | s | | s m e]; cbn; intros H;
    try discriminate; try (destruct s; try discriminate); split; auto; discriminate.
Qed.

Lemma Fpos_nn x : Fpos x -> Fnn x.
Proof. intros (m & e & H). unfold Fnn. rewrite H. split; [reflexivity | discriminate]. Qed.

Lemma Fpos_FV x : Fpos x -> 0 < FV x < TOP.
Proof.
  intros (m & e & H). unfold FV. pose proof (Prim2SF_valid x) as V. rewrite H in *.
  apply SFmag_finite_bounds. exact V.
Qed.

(** ** The operations on non-negative floats *)

Lemma add_nn x y : Fnn x -> Fnn y ->
  Fnn (x + y) /\ FV (x + y) = rho (4 * (FV x + FV y)).
Proof.
  intros Nx Ny. unfold Fnn, FV. rewrite add_spec.
  apply SFadd_nn; try apply Prim2SF_valid; assumption.
Qed.

Lemma mul_nn x c : Fnn x -> Fpos c ->
  Fnn (x * c) /\
  FV (x * c) = if FV x =? TOP then TOP else rho (Wfrac (FV x * FV c) (2 ^ 1073)).
Proof.
  intros Nx (m & e & Hc). unfold Fnn, FV. rewrite mul_spec.
  pose proof (Prim2SF_valid c) as Vc. rewrite Hc in *.
  apply (SFmul_nn (Prim2SF x) m e (Prim2SF_valid x) Vc Nx).
Qed.

Lemma div_nn x c : Fnn x -> Fpos c ->
  Fnn (x / c) /\
  FV (x / c) = if FV x =? TOP then TOP else rho (Wfrac (FV x * 2 ^ 1075) (FV c)).
Proof.
  intros Nx (m & e & Hc). unfold Fnn, FV. rewrite div_spec.
  pose proof (Prim2SF_valid c) as Vc. rewrite Hc in *.
  apply (SFdiv_nn (Prim2SF x) m e (Prim2SF_valid x) Vc Nx).
Qed.

Lemma add_mono_l a b w : Fnn a -> Fnn b -> Fnn w ->
  FV a <= FV b -> FV (a + w) <= FV (b + w).
Proof.
  intros Na Nb Nw H.
  destruct (add_nn a w Na Nw) as [_ ->]. destruct (add_nn b w Nb Nw) as [_ ->].
  pose proof (FV_bounds a). pose proof (FV_bounds w).
  apply rho_mono. lia.
Qed.

Lemma add_mono_r a w1 w2 : Fnn a -> Fnn w1 -> Fnn w2 ->
  FV w1 <= FV w2 -> FV (a + w1) <= FV (a + w2).
Proof.
  intros Na N1 N2 H.
  destruct (add_nn a w1 Na N1) as [_ ->]. destruct (add_nn a w2 Na N2) as [_ ->].
  pose proof (FV_bounds a). pose proof (FV_bounds w1).
  apply rho_mono. lia.
Qed.

Lemma SFmag_TOP_or_fin x : valid_binary x = true -> SFnan x = false ->
  SFmag x = TOP \/ SFfin x = true.
Proof. destruct x; cbn; auto; discriminate. Qed.

Lemma add_infl a w : Fnn a -> Fnn w -> FV a <= FV (a + w).
Proof.
  intros Na Nw. destruct (add_nn a w Na Nw) as [_ ->].
  pose proof (FV_bounds a). pose proof (FV_bounds w).
  destruct (SFmag_TOP_or_fin (Prim2SF a) (Prim2SF_valid a) (proj1 Na)) as [T | F].
  - fold (FV a) in T. rewrite rho_TOP; lia.
  - rewrite <- (rho_fixed (Prim2SF a) (Prim2SF_valid a) F) at 1.
    apply rho_mono. fold (FV a). lia.
Qed.

Lemma mul_mono a b c : Fnn a -> Fnn b -> Fpos c ->
  FV a <= FV b -> FV (a * c) <= FV (b * c).
Proof.
  intros Na Nb Pc H.
  destruct (mul_nn a c Na Pc) as [_ ->]. destruct (mul_nn b c Nb Pc) as [_ ->].
  pose proof (FV_bounds a). pose proof (FV_bounds b). pose proof (Fpos_FV c Pc).
  destruct (Z.eqb_spec (FV b) TOP) as [Tb | Fb].
  - destruct (FV a =? TOP); [lia | apply rho_le_TOP].
  - destruct (Z.eqb_spec (FV a) TOP) as [Ta | Fa]; [lia |].
    apply rho_mono. split.
    + apply Wfrac_nonneg; [apply Z.pow_pos_nonneg; lia | nia].
    + apply Wfrac_mono_num; [apply Z.pow_pos_nonneg; lia | nia].
Qed.

Lemma div_anti x c1 c2 : Fnn x -> Fpos c1 -> Fpos c2 ->
  FV c1 <= FV c2 -> FV (x / c2) <= FV (x / c1).
Proof.
  intros Nx P1 P2 H.
  destruct (div_nn x c1 Nx P1) as [_ ->]. destruct (div_nn x c2 Nx P2) as [_ ->].
  pose proof (FV_bounds x). pose proof (Fpos_FV c1 P1). pose proof (Fpos_FV c2 P2).
  destruct (FV x =? TOP); [lia |].
  assert (0 < 2 ^ 1075) by (apply Z.pow_pos_nonneg; lia).
  apply rho_mono. split.
  - apply Wfrac_nonneg; [lia | nia].
  - apply Wfrac_mono; [lia | lia | nia].
Qed.

Lemma SFmag_inj m1 e1 m2 e2 :
  bounded prec emax m1 e1 = true -> bounded prec emax m2 e2 = true ->
  Zpos m1 * 2 ^ (e1 + 1074) = Zpos m2 * 2 ^ (e2 + 1074) -> m1 = m2 /\ e1 = e2.
Proof.
  intros B1 B2 E. pose proof (SFmag_finite_cmp m1 e1 m2 e2 B1 B2) as C.
  rewrite E, Z.compare_refl in C.
  destruct (Z.compare_spec e1 e2) as [Ee | |]; try discriminate.
  split; [| exact Ee]. apply Pos.compare_eq. exact C.
Qed.

(** a valid float is determined by its sign and magnitude *)
Lemma SF_finite_eq r s m e :
  valid_binary r = true -> bounded prec emax m e = true ->
  SFnan r = false -> SFsign r = s -> SFmag r = Zpos m * 2 ^ (e + 1074) ->
  r = S754_finite s m e.
Proof.
  intros Vr B N S M. pose proof (SFmag_finite_bounds s m e B) as Bm. cbn [SFmag] in Bm.
  destruct r as [s' | s' | | s' m' e']; cbn [SFmag SFsign] in *; try discriminate;
    try lia.
  destruct (SFmag_inj m' e' m e Vr B M) as [-> ->]. subst s'. reflexivity.
Qed.

Lemma Prim2SF_one : Prim2SF 1 = S754_finite false 4503599627370496 (-52).
Proof. reflexivity. Qed.

(** Multiplying by [1.0] changes nothing, whatever the float. *)
Lemma mul_one x : (x * 1)%float = x.
Proof.
  apply Prim2SF_inj. rewrite mul_spec, Prim2SF_one.
  pose proof (Prim2SF_valid x) as V. pose proof (Prim2SF_valid (x * 1)) as V1.
  rewrite mul_spec, Prim2SF_one in V1. unfold SF64mul in *.
  destruct (Prim2SF x) as [s | s | | s m e]; try reflexivity.
  - destruct s; reflexivity.
  - destruct s; reflexivity.
  - assert (B1 : bounded prec emax 4503599627370496 (-52) = true) by reflexivity.
    pose proof (SFmul_finite_spec s m e false _ _ V B1) as H. cbv zeta in H.
    destruct H as (H1 & H2 & H3).
    apply (SF_finite_eq _ s m e V1 V H1).
    + rewrite H2. destruct s; reflexivity.
    + rewrite H3.
      replace (Zpos m * 2 ^ (e + 1074) * (4503599627370496 * 2 ^ (-52 + 1074)))
        with (2 * (Zpos m * 2 ^ (e + 1074)) * 2 ^ 1073).
      * rewrite Wfrac_int by (apply Z.pow_pos_nonneg; lia).
        replace (2 * (2 * (Zpos m * 2 ^ (e + 1074)))) with (4 * (Zpos m * 2 ^ (e + 1074))) by ring.
        apply rho_canonical. exact V.
      * change (4503599627370496 * 2 ^ (-52 + 1074)) with (2 * 2 ^ 1073). ring.
Qed.

Lemma classify_pos r : valid_binary r = true ->
  SFnan r = false -> SFsign r = false -> 0 < SFmag r < TOP ->
  exists m e, r = S754_finite false m e.
Proof.
  intros V N S M. destruct r as [s | s | | s m e]; cbn in *; try discriminate; try lia.
  subst s. eauto.
Qed.

Lemma int_to_double_spec z : 0 < z <= INT_MAX ->
  Fpos (int_to_double z) /\ FV (int_to_double z) = rho (4 * (z * 2 ^ 1074)).
Proof.
  intros Hz. unfold int_to_double. destruct (Z.ltb_spec z 0) as [L | _]; [lia |].
  assert (Hto : Uint63.to_Z (Uint63.of_Z z) = z).
  { rewrite Uint63.of_Z_spec. apply Z.mod_small. unfold INT_MAX in Hz.
    change wB with 9223372036854775808. lia. }
  pose proof (of_uint63_spec (Uint63.of_Z z)) as Sp. rewrite Hto in Sp.
  pose proof (binary_normalize_pos_spec z ltac:(lia)) as H. cbv zeta in H.
  rewrite <- Sp in H. destruct H as (H1 & H2 & H3).
  split; [| exact H3].
  apply classify_pos; [apply Prim2SF_valid | exact H1 | exact H2 |].
  rewrite H3. split.
  - assert (Lo : rho (4 * (1 * 2 ^ 1074)) = 2 ^ 1074) by (vm_compute; reflexivity).
    assert (0 < 2 ^ 1074) by (apply Z.pow_pos_nonneg; lia).
    assert (rho (4 * (1 * 2 ^ 1074)) <= rho (4 * (z * 2 ^ 1074))) by (apply rho_mono; nia).
    lia.
  - assert (Hi : rho (4 * (INT_MAX * 2 ^ 1074)) < TOP) by (vm_compute; reflexivity).
    assert (0 < 2 ^ 1074) by (apply Z.pow_pos_nonneg; lia).
    assert (rho (4 * (z * 2 ^ 1074)) <= rho (4 * (INT_MAX * 2 ^ 1074))) by (apply rho_mono; nia).
    lia.
Qed.

Lemma int_to_double_mono z1 z2 : 0 < z1 <= z2 -> z2 <= INT_MAX ->
  FV (int_to_double z1) <= FV (int_to_double z2).
Proof.
  intros H1 H2.
  destruct (int_to_double_spec z1 ltac:(lia)) as [_ ->].
  destruct (int_to_double_spec z2 ltac:(lia)) as [_ ->].
  assert (0 < 2 ^ 1074) by (apply Z.pow_pos_nonneg; lia).
  apply rho_mono. nia.
Qed.

(** ** Arrays *)

Lemma length_set_nth {A} (a : list A) n x : List.length (set_nth a n x) = List.length a.
Proof. revert n; induction a as [| h t IH]; intros [| n]; cbn; auto. Qed.

Lemma length_set {A} (a : list A) i x : List.length (set a i x) = List.length a.
Proof. unfold set. destruct (i <? 0); [reflexivity | apply length_set_nth]. Qed.

Lemma nth_set_nth_same {A} (d : A) a n x :
  (n < List.length a)%nat -> nth n (set_nth a n x) d = x.
Proof.
  revert n; induction a as [| h t IH]; intros [| n] H; cbn in *; try lia; auto.
  apply IH. lia.
Qed.

Lemma nth_set_nth_other {A} (d : A) a n m x :
  n <> m -> nth m (set_nth a n x) d = nth m a d.
Proof.
  revert n m; induction a as [| h t IH]; intros [| n] [| m] H; cbn; auto; try lia.
Qed.

Lemma get_set_same {A} (d : A) a i x :
  0 <= i -> (Z.to_nat i < List.length a)%nat -> get d (set a i x) i = x.
Proof.
  intros H0 H. unfold get, set. destruct (Z.ltb_spec i 0); [lia |].
  apply nth_set_nth_same. exact H.
Qed.

Lemma get_set_other {A} (d : A) a i j x :
  i <> j -> get d (set a i x) j = get d a j.
Proof.
  intros N. unfold get, set.
  destruct (Z.ltb_spec j 0); [reflexivity |].
  destruct (Z.ltb_spec i 0); [reflexivity |].
  apply nth_set_nth_other. lia.
Qed.

Lemma get_outside {A} (d : A) a i :
  ~ (0 <= i /\ (Z.to_nat i < List.length a)%nat) -> get d a i = d.
Proof.
  intros H. unfold get. destruct (Z.ltb_spec i 0); [reflexivity |].
  apply nth_overflow. lia.
Qed.

Lemma get_repeat {A} (d x : A) n i : 0 <= i < Z.of_nat n -> get d (repeat x n) i = x.
Proof.
  intros H. unfold get. destruct (Z.ltb_spec i 0); [lia |].
  apply nth_repeat_lt. lia.
Qed.

Lemma in_range_nat i : in_range i -> 0 <= i /\ (Z.to_nat i < Z.to_nat MAX_CITIES)%nat.
Proof. unfold in_range, MAX_CITIES. lia. Qed.

(** ** Planners built by the mutators *)

Lemma adj_of_empty u : adj_of emptyPlanner u = [].
Proof.
  unfold adj_of, emptyPlanner, get. cbn [adj].
  destruct (u <? 0); [reflexivity |].
  destruct (Nat.lt_ge_cases (Z.to_nat u) (Z.to_nat MAX_CITIES)).
  - apply nth_repeat_lt. assumption.
  - apply nth_overflow. rewrite repeat_length. assumption.
Qed.

Lemma wf_empty : wf emptyPlanner.
Proof.
  unfold wf. cbn [adj cityNames cityCount emptyPlanner].
  rewrite !repeat_length. repeat split; try (unfold MAX_CITIES; lia);
    rewrite adj_of_empty in H; destruct H.
Qed.

Lemma adj_of_range g u : List.length (adj g) = Z.to_nat MAX_CITIES ->
  adj_of g u <> [] -> in_range u.
Proof.
  intros L H. unfold adj_of in H.
  destruct (Z_lt_le_dec u 0) as [Neg | Pos];
    [exfalso; apply H, get_outside; lia |].
  destruct (Z_lt_le_dec u MAX_CITIES) as [Lt | Ge]; [split; assumption |].
  exfalso; apply H, get_outside. unfold MAX_CITIES in *. lia.
Qed.

Lemma wf_addCity id name g g' : wf g -> addCity id name g = Some g' -> wf g'.
Proof.
  intros (La & Ln & Hc & He). unfold addCity.
  destruct (Z.ltb_spec id MAX_CITIES) as [Lt | Ge].
  - destruct (Z.ltb_spec id 0) as [Neg | Pos]; [discriminate |].
    intros E. injection E as <-. unfold wf, adj_of. cbn [adj cityNames cityCount].
    rewrite length_set. split; [exact La | split; [exact Ln | split; [lia | exact He]]].
  - intros E. injection E as <-. split; [exact La | split; [exact Ln | split; [lia | exact He]]].
Qed.

Lemma adj_of_addRoad u v dist traf ty name g g' w :
  wf g -> addRoad u v dist traf ty name g = Some g' ->
  in_range u /\ in_range v /\
  adj_of g' w =
    (adj_of g w ++ (if w =? u then [mkEdge v dist traf ty name] else []))
      ++ (if w =? v then [mkEdge u dist traf ty name] else []).
Proof.
  intros (La & Ln & Hc & He). unfold addRoad.
  destruct (Z.leb_spec 0 u); [| discriminate].
  destruct (Z.ltb_spec u MAX_CITIES); [| discriminate].
  destruct (Z.leb_spec 0 v); [| discriminate].
  destruct (Z.ltb_spec v MAX_CITIES); [| discriminate].
  cbn [andb]. intros E. injection E as <-.
  split; [split; assumption | split; [split; assumption |]].
  unfold adj_of. cbn [adj].
  assert (Lu : (Z.to_nat u < List.length (adj g))%nat) by (unfold MAX_CITIES in *; lia).
  assert (Lv : (Z.to_nat v < List.length (adj g))%nat) by (unfold MAX_CITIES in *; lia).
  destruct (Z.eqb_spec w v) as [-> | Nv].
  - rewrite get_set_same by (rewrite ?length_set; lia).
    destruct (Z.eqb_spec v u) as [-> | Nu].
    + rewrite get_set_same by lia. reflexivity.
    + rewrite get_set_other by lia. rewrite app_nil_r. reflexivity.
  - rewrite get_set_other by lia. rewrite app_nil_r.
    destruct (Z.eqb_spec w u) as [-> | Nu].
    + rewrite get_set_same by lia. reflexivity.
    + rewrite get_set_other by lia. rewrite app_nil_r. reflexivity.
Qed.

Lemma wf_addRoad u v dist traf ty name g g' :
  wf g -> addRoad u v dist traf ty name g = Some g' -> wf g'.
Proof.
  intros W E. pose proof W as (La & Ln & Hc & He).
  assert (Hadj : forall w, _) by (intros w; exact (adj_of_addRoad u v dist traf ty name g g' w W E)).
  unfold addRoad in E.
  destruct ((0 <=? u) && (u <? MAX_CITIES) && (0 <=? v) && (v <? MAX_CITIES)); [| discriminate].
  injection E as E.
  assert (L1 : List.length (adj g') = Z.to_nat MAX_CITIES).
  { rewrite <- E. cbn [adj]. rewrite !length_set. exact La. }
  assert (L2 : List.length (cityNames g') = Z.to_nat MAX_CITIES).
  { rewrite <- E. cbn [cityNames]. exact Ln. }
  assert (L3 : 0 <= cityCount g' < MAX_CITIES).
  { rewrite <- E. cbn [cityCount]. exact Hc. }
  split; [exact L1 | split; [exact L2 | split; [exact L3 |]]].
  intros w e H. destruct (Hadj w) as (Ru & Rv & Ha). rewrite Ha in H.
  apply in_app_or in H. destruct H as [H | H].
  - apply in_app_or in H. destruct H as [H | H]; [apply (He w e H) |].
    destruct (Z.eqb_spec w u) as [-> | ]; [| destruct H].
    destruct H as [<- | []]. split; assumption.
  - destruct (Z.eqb_spec w v) as [-> | ]; [| destruct H].
    destruct H as [<- | []]. split; assumption.
Qed.

Lemma wf_build ops : forall g g', wf g -> build ops g = Some g' -> wf g'.
Proof.
  induction ops as [| o rest IH]; intros g g' W E; cbn in E.
  - injection E as <-. exact W.
  - destruct (apply_op o g) as [g1 |] eqn:A; [| discriminate].
    apply (IH g1 g'); [| exact E].
    destruct o; cbn in A; [eapply wf_addCity | eapply wf_addRoad]; eassumption.
Qed.

(** ** The priority queue *)

Lemma pq_pop_none q : pq_pop q = None <-> q = [].
Proof.
  destruct q as [| x t]; [cbn; tauto |]. split; [| discriminate].
  cbn [pq_pop]. destruct (pq_pop t) as [[m r] |]; [destruct (PqNode_gt x m) |];
    discriminate.
Qed.

Lemma pq_pop_some q : forall top rest, pq_pop q = Some (top, rest) ->
  (forall x, In x q <-> x = top \/ In x rest) /\
  List.length q = S (List.length rest).
Proof.
  induction q as [| x t IH]; intros top rest H; cbn [pq_pop] in H; [discriminate |].
  destruct (pq_pop t) as [[m r] |] eqn:E.
  - destruct (IH m r eq_refl) as [Hin Hlen].
    destruct (PqNode_gt x m); injection H as <- <-; cbn; split.
    + intros y. rewrite Hin. intuition congruence.
    + lia.
    + intros y. intuition congruence.
    + reflexivity.
  - apply pq_pop_none in E. subst t. injection H as <- <-. cbn. split.
    + intros y. intuition congruence.
    + reflexivity.
Qed.

(** [top] is an entry no other entry is smaller than. *)
Lemma pq_pop_min q : (forall x, In x q -> Fnn (timeCost x)) ->
  forall top rest, pq_pop q = Some (top, rest) ->
  forall x, In x q -> FV (timeCost top) <= FV (timeCost x).
Proof.
  induction q as [| x t IH]; intros Hn top rest H y Hy; cbn [pq_pop] in H; [discriminate |].
  destruct (pq_pop t) as [[m r] |] eqn:E.
  - assert (Hm : forall z, In z t -> FV (timeCost m) <= FV (timeCost z)).
    { apply (IH (fun z Hz => Hn z (or_intror Hz)) m r eq_refl). }
    assert (Im : In m t) by (apply (pq_pop_some t m r E); left; reflexivity).
    unfold PqNode_gt in H.
    rewrite (ltb_nn _ _ (Hn m (or_intror Im)) (Hn x (or_introl eq_refl))) in H.
    destruct (Z.ltb_spec (FV (timeCost m)) (FV (timeCost x))) as [Lt | Ge];
      injection H as <- <-; destruct Hy as [<- | Hy]; try lia.
    + apply Hm, Hy.
    + specialize (Hm y Hy). eapply Z.le_trans; eassumption.
  - apply pq_pop_none in E. subst t. injection H as <- <-.
    destruct Hy as [<- | []]. lia.
Qed.

(** ** Termination of the loop *)

Lemma sumrank_nonneg l : 0 <= sumrank l.
Proof.
  induction l as [| x t IH]; cbn [sumrank]; [lia |]. pose proof (rank_bounds x). lia.
Qed.

Lemma sumrank_set_nth l : forall n x d, (n < List.length l)%nat ->
  sumrank (set_nth l n x) = sumrank l - rank (nth n l d) + rank x.
Proof.
  induction l as [| h t IH]; intros [| n] x d H;
    cbn [List.length set_nth sumrank nth] in *; try lia.
  rewrite (IH n x d) by lia. lia.
Qed.

Lemma sumrank_set l i x d : 0 <= i -> (Z.to_nat i < List.length l)%nat ->
  sumrank (set l i x) = sumrank l - rank (get d l i) + rank x.
Proof.
  intros H0 H. unfold set, get. destruct (Z.ltb_spec i 0); [lia |].
  apply sumrank_set_nth. exact H.
Qed.

Lemma wfs_relax speed u st e : wfs st -> wfs (relax speed u st e).
Proof.
  intros (L1 & L2 & L3 & L4). unfold relax.
  destruct (_ <? _)%float; [| repeat split; assumption].
  unfold wfs. cbn [minTime parent fuelConsumed pathDist].
  rewrite !length_set. repeat split; assumption.
Qed.

Lemma potential_relax g speed u st e : wf g -> wfs st -> In e (adj_of g u) ->
  potential (relax speed u st e) <= potential st.
Proof.
  intros W (L1 & _) He. unfold relax.
  destruct (_ <? _)%float eqn:C; [| lia].
  apply ltb_rank in C. destruct C as (_ & _ & C).
  destruct W as (_ & _ & _ & Hd). destruct (Hd u e He) as [_ Rv].
  apply in_range_nat in Rv. destruct Rv as [R0 R1].
  unfold potential. cbn [minTime pq]. unfold pq_push. rewrite length_app. cbn [List.length].
  rewrite (sumrank_set _ _ _ INF) by (rewrite ?L1; assumption). lia.
Qed.

Lemma fold_relax_wfs speed u es : forall st, wfs st ->
  wfs (fold_left (relax speed u) es st).
Proof.
  induction es as [| e t IH]; intros st W; cbn; [exact W |].
  apply IH. apply wfs_relax. exact W.
Qed.

Lemma fold_relax_potential g speed u es : forall st, wf g -> wfs st ->
  (forall e, In e es -> In e (adj_of g u)) ->
  potential (fold_left (relax speed u) es st) <= potential st.
Proof.
  induction es as [| e t IH]; intros st W Ws Hin; cbn; [lia |].
  eapply Z.le_trans.
  - apply IH; [exact W | apply wfs_relax; exact Ws | intros; apply Hin; right; assumption].
  - apply (potential_relax g); [exact W | exact Ws | apply Hin; left; reflexivity].
Qed.

Lemma step_potential g speed st st' : wf g -> wfs st ->
  step g speed st = Some st' -> wfs st' /\ potential st' < potential st.
Proof.
  intros W Ws. unfold step.
  destruct (pq_pop (pq st)) as [[top rest] |] eqn:P; [| discriminate].
  destruct (pq_pop_some _ _ _ P) as [_ Hlen].
  set (st1 := mkState rest (minTime st) (parent st) (fuelConsumed st) (pathDist st)).
  assert (W1 : wfs st1) by exact Ws.
  assert (P1 : potential st1 < potential st).
  { unfold potential, st1. cbn [minTime pq]. lia. }
  destruct (_ <? _)%float; intros E; injection E as <-.
  - split; assumption.
  - split; [apply fold_relax_wfs; exact W1 |].
    pose proof (fold_relax_potential g speed (id top) (adj_of g (id top)) st1 W W1
                  (fun e H => H)). lia.
Qed.

Lemma potential_nonneg st : 0 <= potential st.
Proof. unfold potential. pose proof (sumrank_nonneg (minTime st)). lia. Qed.

(** The loop ends: enough turns always exist. *)
Lemma dijkstra_total g speed : wf g -> forall n st, wfs st ->
  potential st < Z.of_nat n -> exists st', dijkstra n g speed st = Some st'.
Proof.
  intros W. induction n as [| n IH]; intros st Ws Hp.
  - pose proof (potential_nonneg st). lia.
  - cbn [dijkstra]. destruct (step g speed st) as [st1 |] eqn:S; [| eauto].
    destruct (step_potential g speed st st1 W Ws S) as [W1 P1].
    apply IH; [exact W1 | lia].
Qed.

Lemma dijkstra_fuel_mono g speed : forall n m st st',
  dijkstra n g speed st = Some st' -> (n <= m)%nat -> dijkstra m g speed st = Some st'.
Proof.
  induction n as [| n IH]; intros m st st' H L; cbn in H; [discriminate |].
  destruct m as [| m]; [lia |]. cbn [dijkstra].
  destruct (step g speed st) as [st1 |]; [| exact H].
  apply IH; [exact H | lia].
Qed.

(** What holds before the loop and is kept by every turn holds after it,
    with an empty queue. *)
Lemma dijkstra_invariant g speed (P : SearchState -> Prop) :
  (forall st st', P st -> step g speed st = Some st' -> P st') ->
  forall n st st', P st -> dijkstra n g speed st = Some st' ->
  P st' /\ pq st' = [].
Proof.
  intros Hstep. induction n as [| n IH]; intros st st' HP H; cbn in H; [discriminate |].
  destruct (step g speed st) as [st1 |] eqn:S.
  - apply (IH st1 st'); [eapply Hstep; eassumption | exact H].
  - injection H as <-. split; [exact HP |].
    unfold step in S. destruct (pq_pop (pq st)) as [[top rest] |] eqn:E.
    + destruct (_ <? _)%float; discriminate.
    + apply pq_pop_none. exact E.
Qed.

Lemma backtrack_fuel_mono par : forall n m v p,
  backtrack n par v = Some p -> (n <= m)%nat -> backtrack m par v = Some p.
Proof.
  induction n as [| n IH]; intros m v p H L; cbn in H; [discriminate |].
  destruct m as [| m]; [lia |]. cbn [backtrack].
  destruct (v =? -1); [exact H |].
  destruct (backtrack n par (get (-1) par v)) as [p' |] eqn:E; [| discriminate].
  rewrite (IH m _ p' E) by lia. exact H.
Qed.

Lemma wfs_init s : wfs (initState s).
Proof.
  unfold wfs, initState. cbn [minTime parent fuelConsumed pathDist].
  rewrite length_set, !repeat_length. repeat split.
Qed.

(** ** Paths *)

Lemma is_path_app g u es1 w es2 v :
  is_path g u es1 w -> is_path g w es2 v -> is_path g u (es1 ++ es2) v.
Proof.
  revert u. induction es1 as [| e t IH]; intros u H1 H2; cbn in *.
  - subst w. exact H2.
  - destruct H1 as [Hin Ht]. split; [exact Hin | apply IH; assumption].
Qed.

Lemma is_path_snoc g u es w e :
  is_path g u es w -> In e (adj_of g w) -> is_path g u (es ++ [e]) (destination e).
Proof.
  intros H1 H2. apply (is_path_app g u es w); [exact H1 |]. cbn. auto.
Qed.

Lemma reachable_step g s u e :
  reachable g s u -> In e (adj_of g u) -> reachable g s (destination e).
Proof. intros [es H] He. exists (es ++ [e]). eapply is_path_snoc; eassumption. Qed.

(** ** Registered cities pass the range check *)

Lemma cityCount_apply_op o g g' : apply_op o g = Some g' -> cityCount g <= cityCount g'.
Proof.
  destruct o as [c name | u v dist traf ty name]; cbn [apply_op].
  - unfold addCity. destruct (c <? MAX_CITIES); [destruct (c <? 0) |];
      intros E; try discriminate; injection E as <-; cbn [cityCount]; lia.
  - unfold addRoad. destruct (_ && _); intros E; [| discriminate].
    injection E as <-. cbn [cityCount]. lia.
Qed.

Lemma cityCount_build ops : forall g g', build ops g = Some g' -> cityCount g <= cityCount g'.
Proof.
  induction ops as [| o rest IH]; intros g g' E; cbn [build] in E.
  - injection E as <-. lia.
  - destruct (apply_op o g) as [g1 |] eqn:A; [| discriminate].
    pose proof (cityCount_apply_op o g g1 A). pose proof (IH g1 g' E). lia.
Qed.

Lemma registered_valid ops : forall g g' c,
  build ops g = Some g' -> registered ops c -> validCity g' c.
Proof.
  induction ops as [| o rest IH]; intros g g' c E [R [name Hin]]; [destruct Hin |].
  cbn [build] in E. destruct (apply_op o g) as [g1 |] eqn:A; [| discriminate].
  destruct Hin as [-> | Hin].
  - cbn [apply_op] in A. unfold addCity in A.
    destruct (Z.ltb_spec c MAX_CITIES); [| lia].
    destruct (Z.ltb_spec c 0); [lia |]. injection A as <-.
    pose proof (cityCount_build rest _ _ E) as M. cbn [cityCount] in M.
    unfold validCity. lia.
  - apply (IH g1 g' c E). split; [exact R | exists name; exact Hin].
Qed.

(** ** The head of [findRoute] *)

Lemma findRoute_check fuel g s e speed :
  findRoute fuel g s e speed = Some InvalidCity <->
  ~ (validCity g s /\ validCity g e).
Proof.
  unfold findRoute, validCity.
  destruct (Z.ltb_spec s 1); [cbn; split; [lia | reflexivity] |].
  destruct (Z.gtb_spec s (cityCount g)); [cbn; split; [lia | reflexivity] |].
  destruct (Z.ltb_spec e 1); [cbn; split; [lia | reflexivity] |].
  destruct (Z.gtb_spec e (cityCount g)); [cbn; split; [lia | reflexivity] |].
  cbn [orb]. split; [| lia].
  destruct (dijkstra fuel g speed (initState s)) as [st |]; [| discriminate].
  destruct (_ =? _)%float; [discriminate |].
  destruct (printDetailedReceipt _ _ _ _ _ _ _ _ _); discriminate.
Qed.

Lemma findRoute_valid fuel g s e speed : validCity g s -> validCity g e ->
  findRoute fuel g s e speed =
    match dijkstra fuel g speed (initState s) with
    | None => None
    | Some st =>
        if (get INF (minTime st) e =? INF)%float then Some Unreachable
        else
          match printDetailedReceipt fuel g s e (parent st)
                  (get INF (minTime st) e)
                  (get 0%float (pathDist st) e)
                  (get 0%float (fuelConsumed st) e) speed with
          | Some r => Some (Route r)
          | None => None
          end
    end.
Proof.
  unfold findRoute, validCity. intros Hs He.
  destruct (Z.ltb_spec s 1); [lia |].
  destruct (Z.gtb_spec s (cityCount g)); [lia |].
  destruct (Z.ltb_spec e 1); [lia |].
  destruct (Z.gtb_spec e (cityCount g)); [lia |]. reflexivity.
Qed.

Lemma get_repeat_default {A} (d : A) n i : get d (repeat d n) i = d.
Proof.
  unfold get. destruct (i <? 0); [reflexivity |].
  destruct (Nat.lt_ge_cases (Z.to_nat i) n).
  - apply nth_repeat_lt. assumption.
  - apply nth_overflow. rewrite repeat_length. assumption.
Qed.

Lemma touched_reachable_init g s : touched_reachable g s (initState s).
Proof.
  split.
  - intros x [<- | []]. exists []. reflexivity.
  - intros v. destruct (Z.eq_dec s v) as [-> | N]; [left; exists []; reflexivity |].
    right. unfold initState. cbn [minTime].
    rewrite get_set_other by assumption. apply get_repeat_default.
Qed.

Lemma touched_reachable_relax g s speed u st e :
  reachable g s u -> In e (adj_of g u) ->
  touched_reachable g s st -> touched_reachable g s (relax speed u st e).
Proof.
  intros Ru He [Hq Hm]. unfold relax. destruct (_ <? _)%float; [| split; assumption].
  pose proof (reachable_step g s u e Ru He) as Rv. split; cbn [pq minTime].
  - intros x Hx. unfold pq_push in Hx. apply in_app_or in Hx.
    destruct Hx as [Hx | [<- | []]]; [apply Hq, Hx | exact Rv].
  - intros v. destruct (Z.eq_dec (destination e) v) as [<- | N]; [left; exact Rv |].
    rewrite get_set_other by assumption. apply Hm.
Qed.

Lemma touched_reachable_fold g s speed u es : forall st,
  reachable g s u -> (forall e, In e es -> In e (adj_of g u)) ->
  touched_reachable g s st -> touched_reachable g s (fold_left (relax speed u) es st).
Proof.
  induction es as [| e t IH]; intros st Ru Hin H; cbn [fold_left]; [exact H |].
  apply IH; [exact Ru | intros; apply Hin; right; assumption |].
  apply touched_reachable_relax; [exact Ru | apply Hin; left; reflexivity | exact H].
Qed.

Lemma touched_reachable_step g s speed st st' :
  touched_reachable g s st -> step g speed st = Some st' -> touched_reachable g s st'.
Proof.
  intros [Hq Hm]. unfold step.
  destruct (pq_pop (pq st)) as [[top rest] |] eqn:P; [| discriminate].
  destruct (pq_pop_some _ _ _ P) as [Hin _].
  assert (H1 : touched_reachable g s
                 (mkState rest (minTime st) (parent st) (fuelConsumed st) (pathDist st))).
  { split; cbn [pq minTime]; [| exact Hm]. intros x Hx. apply Hq, Hin. right. exact Hx. }
  destruct (_ <? _)%float; intros E; injection E as <-; [exact H1 |].
  apply touched_reachable_fold; [| auto | exact H1].
  apply Hq, Hin. left. reflexivity.
Qed.

Lemma INF_eqb : (INF =? INF)%float = true.
Proof. reflexivity. Qed.

(** C5. For every planner built by [addCity]/[addRoad], every pair of
    registered cities with no path between them and every speed, the loop
    of [findRoute] ends and [findRoute] reports "no road connection"
    ([Unreachable]); whatever the number of turns allowed, it never hands a
    route (so no time, infinite or not) to the caller for such a pair. *)
Theorem C5_no_path_is_unreachable ops g start end_ speed :
  build ops emptyPlanner = Some g ->
  registered ops start -> registered ops end_ ->
  ~ reachable g start end_ ->
  (exists fuel, findRoute fuel g start end_ speed = Some Unreachable) /\
  (forall fuel o, findRoute fuel g start end_ speed = Some o -> o = Unreachable).
Proof.
  intros B Rs Re NR.
  pose proof (wf_build ops _ _ wf_empty B) as W.
  pose proof (registered_valid ops _ _ _ B Rs) as Vs.
  pose proof (registered_valid ops _ _ _ B Re) as Ve.
  assert (Hend : forall n st, dijkstra n g speed (initState start) = Some st ->
                   get INF (minTime st) end_ = INF).
  { intros n st D.
    destruct (dijkstra_invariant g speed (touched_reachable g start)
                (fun a b => touched_reachable_step g start speed a b)
                n _ _ (touched_reachable_init g start) D) as [[_ Hm] _].
    destruct (Hm end_) as [R | E]; [contradiction | exact E]. }
  split.
  - set (n := S (Z.to_nat (potential (initState start)))).
    destruct (dijkstra_total g speed W n (initState start) (wfs_init start)) as [st D].
    { unfold n. pose proof (potential_nonneg (initState start)). lia. }
    exists n. rewrite findRoute_valid by assumption. rewrite D, (Hend n st D), INF_eqb.
    reflexivity.
  - intros fuel o H. rewrite findRoute_valid in H by assumption.
    destruct (dijkstra fuel g speed (initState start)) as [st |] eqn:D; [| discriminate].
    rewrite (Hend fuel st D), INF_eqb in H. injection H as <-. reflexivity.
Qed.

(** ** Constants *)

Lemma Fpos_60 : Fpos 60.
Proof. eexists _, _. reflexivity. Qed.

Lemma Fpos_multiplier l : Fpos (getTrafficMultiplier l).
Proof.
  unfold getTrafficMultiplier.
  destruct l as [| [[| |] | [| |] |] |]; eexists _, _; reflexivity.
Qed.

Lemma Fnn_0 : Fnn 0.
Proof. apply Fnn_of_leb. reflexivity. Qed.

Lemma Fnn_INF : Fnn INF.
Proof. apply Fnn_of_leb. reflexivity. Qed.

Lemma FV_0 : FV 0 = 0.
Proof. reflexivity. Qed.

(** ** Segment times *)

Lemma segTime_nn speed e : 0 < speed <= INT_MAX -> Fnn (distanceKM e) ->
  Fnn (segTime speed e).
Proof.
  intros Hs Hd. unfold segTime, realTime.
  destruct (int_to_double_spec speed Hs) as [Ps _].
  apply mul_nn; [| apply Fpos_multiplier].
  apply mul_nn; [| apply Fpos_60].
  apply div_nn; assumption.
Qed.

(** A higher speed never makes a road slower. *)
Lemma segTime_speed_mono s1 s2 e : 0 < s1 <= s2 -> s2 <= INT_MAX ->
  Fnn (distanceKM e) -> FV (segTime s2 e) <= FV (segTime s1 e).
Proof.
  intros H1 H2 Hd. unfold segTime, realTime.
  destruct (int_to_double_spec s1 ltac:(lia)) as [P1 _].
  destruct (int_to_double_spec s2 ltac:(lia)) as [P2 _].
  pose proof (int_to_double_mono s1 s2 H1 H2) as M.
  apply mul_mono; [| | apply Fpos_multiplier |].
  - apply mul_nn; [apply div_nn; assumption | apply Fpos_60].
  - apply mul_nn; [apply div_nn; assumption | apply Fpos_60].
  - apply mul_mono; [apply div_nn; assumption | apply div_nn; assumption | apply Fpos_60 |].
    apply div_anti; assumption.
Qed.

Lemma pathTimeFrom_app speed acc es1 es2 :
  pathTimeFrom speed acc (es1 ++ es2) = pathTimeFrom speed (pathTimeFrom speed acc es1) es2.
Proof. apply fold_left_app. Qed.

Lemma pathTime_snoc speed es e :
  pathTime speed (es ++ [e]) = (pathTime speed es + segTime speed e)%float.
Proof. unfold pathTime. rewrite pathTimeFrom_app. reflexivity. Qed.

Lemma pathDistance_snoc es e :
  pathDistance (es ++ [e]) = (pathDistance es + distanceKM e)%float.
Proof. unfold pathDistance. rewrite fold_left_app. reflexivity. Qed.

Lemma pathFuel_snoc speed es e :
  pathFuel speed (es ++ [e]) = (pathFuel speed es + segFuel speed e)%float.
Proof. unfold pathFuel. rewrite fold_left_app. reflexivity. Qed.

Lemma pathTimeFrom_nn g speed : 0 < speed <= INT_MAX -> nonneg_roads g ->
  forall es u v acc, is_path g u es v -> Fnn acc -> Fnn (pathTimeFrom speed acc es).
Proof.
  intros Hs Hr. induction es as [| e t IH]; intros u v acc P N; cbn; [exact N |].
  destruct P as [Hin Pt]. apply (IH _ v _ Pt).
  apply add_nn; [exact N |]. apply segTime_nn; [exact Hs |].
  apply Fnn_of_leb, (Hr u e Hin).
Qed.

(** A higher speed never makes a path slower. *)
Lemma pathTimeFrom_speed_mono g s1 s2 : 0 < s1 <= s2 -> s2 <= INT_MAX ->
  nonneg_roads g ->
  forall es u v a1 a2, is_path g u es v -> Fnn a1 -> Fnn a2 -> FV a2 <= FV a1 ->
  FV (pathTimeFrom s2 a2 es) <= FV (pathTimeFrom s1 a1 es).
Proof.
  intros H1 H2 Hr. induction es as [| e t IH]; intros u v a1 a2 P N1 N2 Ha; cbn;
    [exact Ha |].
  destruct P as [Hin Pt].
  assert (Nd : Fnn (distanceKM e)) by (apply Fnn_of_leb, (Hr u e Hin)).
  assert (T1 : Fnn (segTime s1 e)) by (apply segTime_nn; [lia | exact Nd]).
  assert (T2 : Fnn (segTime s2 e)) by (apply segTime_nn; [lia | exact Nd]).
  apply (IH _ v _ _ Pt); try (apply add_nn; assumption).
  eapply Z.le_trans.
  - apply (add_mono_l a2 a1); assumption.
  - apply add_mono_r; try assumption. apply segTime_speed_mono; assumption.
Qed.

Lemma printLegs_ends g cities : map leg_ends (printLegs g cities) = hops cities.
Proof.
  induction cities as [| u [| v rest] IH]; try reflexivity.
  cbn [printLegs hops map]. f_equal; [| exact IH].
  unfold printLeg. destruct (findRoad (adj_of g u) v) as [[a b] c]. reflexivity.
Qed.

Section Search.
Variables (g : RoutePlanner) (speed start : Z).

Hypothesis Wg : wf g.
Hypothesis Hroads : nonneg_roads g.
Hypothesis Hspeed : 0 < speed <= INT_MAX.
Hypothesis Hstart : in_range start.

Lemma seg_nn u e : In e (adj_of g u) -> Fnn (segTime speed e).
Proof.
  intros H. apply segTime_nn; [exact Hspeed |]. apply Fnn_of_leb, (Hroads u e H).
Qed.

Lemma Inv_weaken S (T T' : Z -> Edge -> Prop) st :
  (forall u e, T' u e -> T u e) -> Inv g speed start S T st -> Inv g speed start S T' st.
Proof.
  intros H I. destruct I. constructor; eauto.
Qed.

Lemma mt_init v : mt (initState start) v = if start =? v then 0%float else INF.
Proof.
  unfold mt, initState. cbn [minTime]. destruct (Z.eqb_spec start v) as [<- | N].
  - apply get_set_same; [apply Hstart |]. rewrite repeat_length.
    apply in_range_nat, Hstart.
  - rewrite get_set_other by assumption. apply get_repeat_default.
Qed.

Lemma par_init v : par (initState start) v = -1.
Proof. unfold par, initState. cbn [parent]. apply get_repeat_default. Qed.

Lemma Inv_init : Inv g speed start [] (fun _ _ => False) (initState start).
Proof.
  assert (T0 : forall v, touched start (initState start) v <-> v = start).
  { intros v. unfold touched. rewrite par_init. intuition congruence. }
  constructor.
  - apply wfs_init.
  - intros v. rewrite mt_init. destruct (start =? v).
    + split; [apply Fnn_0 | rewrite FV_0; apply FV_bounds].
    + split; [apply Fnn_INF | lia].
  - rewrite mt_init, Z.eqb_refl, par_init. unfold pd, fc, initState.
    cbn [pathDist fuelConsumed]. rewrite !get_repeat_default. auto.
  - intros x [<- | []]. cbn [id timeCost]. rewrite mt_init, Z.eqb_refl.
    split; [exact Hstart | split; [apply Fnn_0 | split; [lia | left; reflexivity]]].
  - intros u [].
  - intros u x [].
  - intros u e [].
  - intros u e [].
  - intros u Ru. destruct (Z.eq_dec u start) as [-> | N].
    + right; left. exists (mkPqNode start 0). cbn [id timeCost].
      rewrite mt_init, Z.eqb_refl. split; [left; reflexivity | auto].
    + right; right. rewrite T0. exact N.
  - intros v Hv. rewrite T0 in Hv. rewrite mt_init.
    destruct (Z.eqb_spec start v); [congruence | reflexivity].
  - intros v Rv Hv. rewrite T0 in Hv. subst v.
    exists [], [], 2%nat. cbn [is_path map rev app].
    rewrite mt_init, Z.eqb_refl. unfold pd, fc, initState.
    cbn [pathDist fuelConsumed parent]. rewrite !get_repeat_default.
    repeat split; try reflexivity.
    + cbn [backtrack]. destruct (Z.eqb_spec start (-1)) as [E | _];
        [destruct Hstart; lia |].
      rewrite get_repeat_default. reflexivity.
    + intros c [].
    + constructor; [intros [] | constructor].
Qed.

(** *** One relaxation *)

Lemma relax_skip u st e :
  (mt st u + segTime speed e <? mt st (destination e))%float = false ->
  relax speed u st e = st.
Proof.
  intros C. unfold relax. fold (mt st u). fold (mt st (destination e)).
  fold (segTime speed e). rewrite C. reflexivity.
Qed.

Lemma relax_tense u st e :
  wfs st -> in_range (destination e) ->
  (mt st u + segTime speed e <? mt st (destination e))%float = true ->
  let v := destination e in
  let st' := relax speed u st e in
  (forall x, mt st' x = if v =? x then (mt st u + segTime speed e)%float else mt st x) /\
  (forall x, par st' x = if v =? x then u else par st x) /\
  (forall x, pd st' x = if v =? x then (pd st u + distanceKM e)%float else pd st x) /\
  (forall x, fc st' x = if v =? x then (fc st u + segFuel speed e)%float else fc st x) /\
  pq st' = pq st ++ [mkPqNode v (mt st u + segTime speed e)].
Proof.
  intros (L1 & L2 & L3 & L4) Rv C v st'. subst st'. unfold relax.
  fold (mt st u). fold (mt st (destination e)). fold (segTime speed e). rewrite C.
  apply in_range_nat in Rv. destruct Rv as [R0 R1]. fold v in R0, R1 |- *.
  unfold mt, par, pd, fc. cbn [minTime parent pathDist fuelConsumed pq].
  assert (G : forall A (d : A) a y x, List.length a = Z.to_nat MAX_CITIES ->
                get d (set a v y) x = if v =? x then y else get d a x).
  { intros A d a y x L. destruct (Z.eqb_spec v x) as [<- | N].
    - apply get_set_same; [exact R0 | rewrite L; exact R1].
    - apply get_set_other. exact N. }
  repeat split; intros; try (apply G; assumption).
  unfold pq_push. rewrite (G _ INF _ _ v L1), Z.eqb_refl. reflexivity.
Qed.

Lemma backtrack_set_avoid par0 v u : forall n x p,
  backtrack n par0 x = Some p -> ~ In v p ->
  backtrack n (set par0 v u) x = Some p.
Proof.
  induction n as [| n IH]; intros x p H Hv; cbn [backtrack] in *; [discriminate |].
  destruct (x =? -1); [exact H |].
  destruct (backtrack n par0 (get (-1) par0 x)) as [p' |] eqn:E; [| discriminate].
  injection H as <-.
  assert (N : v <> x) by (intros ->; apply Hv; left; reflexivity).
  rewrite get_set_other by exact N.
  rewrite (IH _ p' E); [reflexivity |]. intros Hin. apply Hv. right. exact Hin.
Qed.

Lemma Inv_relax S T st u e :
  Inv g speed start S T st -> In u S ->
  (forall s, In s S -> FV (mt st s) <= FV (mt st u)) ->
  In e (adj_of g u) ->
  Inv g speed start S (fun u' e' => T u' e' \/ (u' = u /\ e' = e)) (relax speed u st e) /\
  (forall s, In s S -> mt (relax speed u st e) s = mt st s).
Proof.
  intros I HuS Hmax He.
  set (v := destination e). set (w := segTime speed e).
  assert (Rv : in_range v) by (apply (proj2 (proj2 (proj2 Wg)) u e He)).
  assert (Nw : Fnn w) by (apply (seg_nn u e He)).
  assert (Nu : Fnn (mt st u)) by (apply (inv_nn _ _ _ _ _ _ I)).
  destruct (add_nn (mt st u) w Nu Nw) as [Nnew _].
  assert (Nv : Fnn (mt st v)) by (apply (inv_nn _ _ _ _ _ _ I)).
  destruct (mt st u + w <? mt st v)%float eqn:C.
  2:{ (* the road brings nothing *)
    rewrite (relax_skip u st e C). split; [| reflexivity].
    rewrite (ltb_nn _ _ Nnew Nv) in C. apply Z.ltb_ge in C.
    destruct I. constructor; auto.
    - intros u' e' [Ht | [-> ->]]; [eauto | exact HuS].
    - intros u' e' [Ht | [-> ->]] Hin; [eauto | exact C]. }
  (* the road improves its far end *)
  destruct (relax_tense u st e (inv_wfs _ _ _ _ _ _ I) Rv C) as (Emt & Epar & Epd & Efc & Epq).
  fold v w in Emt, Epar, Epd, Efc, Epq.
  set (st' := relax speed u st e) in *.
  rewrite (ltb_nn _ _ Nnew Nv) in C. apply Z.ltb_lt in C.
  pose proof (add_infl (mt st u) w Nu Nw) as F1.
  assert (F2 : ~ In v S).
  { intros Hin. specialize (Hmax v Hin). lia. }
  assert (F3 : v <> start).
  { intros E. rewrite E in C. rewrite (proj1 (inv_start _ _ _ _ _ _ I)), FV_0 in C.
    pose proof (FV_bounds (mt st u + w)). lia. }
  assert (F4 : u <> v) by (intros E; apply F2; rewrite <- E; exact HuS).
  destruct (inv_S _ _ _ _ _ _ I u HuS) as [Ru Tu].
  assert (Hmax' : forall s, In s S -> mt st' s = mt st s).
  { intros s Hs. rewrite Emt. destruct (Z.eqb_spec v s) as [E | _]; [| reflexivity].
    exfalso. apply F2. rewrite E. exact Hs. }
  assert (Tch : forall x, touched start st' x <-> touched start st x \/ x = v).
  { intros x. unfold touched. rewrite Epar. destruct (Z.eqb_spec v x) as [<- | N].
    - split; [auto |]. intros _. right. destruct Ru. lia.
    - intuition congruence. }
  split; [| exact Hmax'].
  constructor.
  - apply wfs_relax, (inv_wfs _ _ _ _ _ _ I).
  - intros x. rewrite Emt. destruct (v =? x).
    + split; [exact Nnew |]. pose proof (proj2 (inv_nn _ _ _ _ _ _ I v)). lia.
    + apply (inv_nn _ _ _ _ _ _ I).
  - rewrite Emt, Epar, Epd, Efc. destruct (Z.eqb_spec v start) as [E | _]; [contradiction |].
    apply (inv_start _ _ _ _ _ _ I).
  - intros x Hx. rewrite Epq in Hx. apply in_app_or in Hx.
    rewrite Emt, Tch. destruct Hx as [Hx | [<- | []]].
    + destruct (inv_pq _ _ _ _ _ _ I x Hx) as (A1 & A2 & A3 & A4).
      split; [exact A1 | split; [exact A2 | split; [| left; exact A4]]].
      destruct (Z.eqb_spec v (id x)) as [E | _]; [| exact A3].
      rewrite <- E in A3. lia.
    + cbn [id timeCost]. rewrite Z.eqb_refl.
      split; [exact Rv | split; [exact Nnew | split; [lia | right; reflexivity]]].
  - intros s Hs. rewrite Tch. destruct (inv_S _ _ _ _ _ _ I s Hs). auto.
  - intros s x Hs Hx. rewrite (Hmax' s Hs). rewrite Epq in Hx. apply in_app_or in Hx.
    destruct Hx as [Hx | [<- | []]].
    + apply (inv_S_pq _ _ _ _ _ _ I s x Hs Hx).
    + cbn [timeCost]. specialize (Hmax s Hs). lia.
  - intros u' e' [Ht | [-> ->]]; [apply (inv_T_S _ _ _ _ _ _ I u' e' Ht) | exact HuS].
  - intros u' e' Ht Hin.
    assert (Hu' : In u' S).
    { destruct Ht as [Ht | [-> _]]; [apply (inv_T_S _ _ _ _ _ _ I u' e' Ht) | exact HuS]. }
    rewrite (Hmax' u' Hu'). rewrite Emt.
    destruct (Z.eqb_spec v (destination e')) as [E | N].
    + destruct Ht as [Ht | [-> ->]]; [| apply Z.le_refl].
      pose proof (inv_T _ _ _ _ _ _ I u' e' Ht Hin) as Old. rewrite <- E in Old. lia.
    + destruct Ht as [Ht | [-> ->]]; [| contradiction].
      apply (inv_T _ _ _ _ _ _ I u' e' Ht Hin).
  - intros x Rx. destruct (Z.eq_dec x v) as [-> | N].
    + right; left. exists (mkPqNode v (mt st u + w)). cbn [id timeCost].
      rewrite Epq, Emt, Z.eqb_refl. split; [apply in_or_app; right; left; reflexivity | auto].
    + destruct (inv_pending _ _ _ _ _ _ I x Rx) as [Hs | [(y & Hy & Ey & Ev) | Hn]].
      * left; exact Hs.
      * right; left. exists y. rewrite Epq, Emt.
        destruct (Z.eqb_spec v x) as [E | _]; [congruence |].
        split; [apply in_or_app; left; exact Hy | auto].
      * right; right. rewrite Tch. intuition.
  - intros x Hx. rewrite Tch in Hx. rewrite Emt.
    destruct (Z.eqb_spec v x) as [E | _]; [exfalso; apply Hx; right; congruence |].
    apply (inv_untouched _ _ _ _ _ _ I). intros H. apply Hx. left. exact H.
  - intros x Rx Hx. rewrite Tch in Hx.
    destruct (Z.eq_dec x v) as [-> | N].
    + (* the new path to [v]: the path to [u], then the road *)
      destruct (inv_wit _ _ _ _ _ _ I u Ru Tu)
        as (es & cs & n & P & Et & Ed & Ef & Bk & Rev & Sub & Nd).
      assert (Av : ~ In v (u :: cs)).
      { intros [E | Hin]; [contradiction | apply F2, Sub, Hin]. }
      exists (es ++ [e]), (u :: cs), (Datatypes.S n).
      rewrite Emt, Epd, Efc, Z.eqb_refl.
      rewrite pathTime_snoc, pathDistance_snoc, pathFuel_snoc, Et, Ed, Ef.
      repeat split; try reflexivity.
      * apply (is_path_snoc g start es u e P He).
      * cbn [backtrack]. destruct (Z.eqb_spec v (-1)) as [E | _]; [destruct Rv; lia |].
        fold (par st' v). rewrite Epar, Z.eqb_refl.
        assert (Ep : parent st' = set (parent st) v u).
        { unfold st', relax. fold (mt st u) (mt st (destination e)) (segTime speed e).
          fold v w. destruct (mt st u + w <? mt st v)%float eqn:C'.
          - reflexivity.
          - rewrite (ltb_nn _ _ Nnew Nv) in C'. apply Z.ltb_ge in C'. lia. }
        rewrite Ep. rewrite (backtrack_set_avoid _ v u n u (u :: cs) Bk Av). reflexivity.
      * change (rev (v :: u :: cs)) with (rev (u :: cs) ++ [v]).
        rewrite Rev, map_app. reflexivity.
      * intros c [<- | Hc]; [exact HuS | apply Sub, Hc].
      * constructor; [exact Av | exact Nd].
    + destruct Hx as [Hx | Hx]; [| contradiction].
      destruct (inv_wit _ _ _ _ _ _ I x Rx Hx)
        as (es & cs & n & P & Et & Ed & Ef & Bk & Rev & Sub & Nd).
      assert (Av : ~ In v (x :: cs)).
      { intros [E | Hin]; [congruence | apply F2, Sub, Hin]. }
      exists es, cs, n. rewrite Emt, Epd, Efc.
      destruct (Z.eqb_spec v x) as [E | _]; [congruence |].
      repeat split; try assumption.
      assert (Ep : parent st' = set (parent st) v u).
      { unfold st', relax. fold (mt st u) (mt st (destination e)) (segTime speed e).
        fold v w. destruct (mt st u + w <? mt st v)%float eqn:C'.
        - reflexivity.
        - rewrite (ltb_nn _ _ Nnew Nv) in C'. apply Z.ltb_ge in C'. lia. }
      rewrite Ep. apply backtrack_set_avoid; assumption.
Qed.

(** *** All the roads of a settled city *)

Lemma Inv_fold S u es : forall T st,
  Inv g speed start S T st -> In u S ->
  (forall s, In s S -> FV (mt st s) <= FV (mt st u)) ->
  (forall e, In e es -> In e (adj_of g u)) ->
  Inv g speed start S (fun u' e' => T u' e' \/ (u' = u /\ In e' es))
      (fold_left (relax speed u) es st).
Proof.
  induction es as [| e t IH]; intros T st I HuS Hmax Hin; cbn [fold_left].
  - apply (Inv_weaken S T); [| exact I]. intros u' e' [H | [_ []]]. exact H.
  - destruct (Inv_relax S T st u e I HuS Hmax (Hin e (or_introl eq_refl))) as [I1 Keep].
    assert (Hmax1 : forall s, In s S ->
              FV (mt (relax speed u st e) s) <= FV (mt (relax speed u st e) u)).
    { intros s Hs. rewrite (Keep s Hs), (Keep u HuS). apply Hmax, Hs. }
    specialize (IH _ _ I1 HuS Hmax1 (fun e' H => Hin e' (or_intror H))).
    apply (fun Hw => Inv_weaken S _ _ _ Hw IH).
    intros u' e' H. cbn beta. destruct H as [H | [-> [<- | H]]]; auto.
Qed.

Lemma witness_mono S S' st v : (forall s, In s S -> In s S') ->
  witness g speed start S st v -> witness g speed start S' st v.
Proof.
  intros Sub (es & cs & n & H1 & H2 & H3 & H4 & H5 & H6 & H7 & H8).
  exists es, cs, n. repeat split; auto.
Qed.

(** *** One turn of the loop *)

Lemma Inv_step_settled S st st' top rest :
  Inv g speed start S (settled_roads g S) st ->
  pq_pop (pq st) = Some (top, rest) ->
  step g speed st = Some st' ->
  in_range (id top) /\
  Inv g speed start
      (if (mt st (id top) <? timeCost top)%float then S else id top :: S)
      (settled_roads g (if (mt st (id top) <? timeCost top)%float then S else id top :: S))
      st'.
Proof.
  intros I P. unfold step. rewrite P.
  destruct (pq_pop_some _ _ _ P) as [Hin _].
  assert (Hkeys : forall x, In x (pq st) -> Fnn (timeCost x)).
  { intros x Hx. apply (inv_pq _ _ _ _ _ _ I x Hx). }
  pose proof (pq_pop_min _ Hkeys _ _ P) as Hmin.
  assert (Itop : In top (pq st)) by (apply Hin; left; reflexivity).
  destruct (inv_pq _ _ _ _ _ _ I top Itop) as (Rt & Nt & Lt & Tt).
  set (st1 := mkState rest (minTime st) (parent st) (fuelConsumed st) (pathDist st)).
  assert (Nu : Fnn (mt st (id top))) by (apply (inv_nn _ _ _ _ _ _ I)).
  fold (mt st (id top)).
  rewrite (ltb_nn _ _ Nu Nt).
  destruct (Z.ltb_spec (FV (mt st (id top))) (FV (timeCost top))) as [Stale | Fresh];
    intros E; injection E as <-; (split; [exact Rt |]).
  - (* a stale entry *)
    destruct I. constructor; auto.
    + intros x Hx. apply inv_pq0, Hin. right. exact Hx.
    + intros u x Hu Hx. apply inv_S_pq0; [exact Hu | apply Hin; right; exact Hx].
    + intros u Ru. destruct (inv_pending0 u Ru) as [Hs | [(y & Hy & Ey & Ev) | Hn]];
        [left; exact Hs | | right; right; exact Hn].
      right; left. exists y. apply Hin in Hy. destruct Hy as [-> | Hy].
      * exfalso. change (mt st1 u) with (mt st u) in Ev. rewrite <- Ey in Ev. lia.
      * auto.
  - (* the city is settled *)
    set (u := id top) in *. set (S' := u :: S).
    assert (I1 : Inv g speed start S' (settled_roads g S) st1).
    { destruct I. constructor; auto.
      - intros x Hx. apply inv_pq0, Hin. right. exact Hx.
      - intros s [<- | Hs]; [split; assumption | apply inv_S0, Hs].
      - intros s x [<- | Hs] Hx.
        + change (mt st1 u) with (mt st u).
          specialize (Hmin x (proj2 (Hin x) (or_intror Hx))). lia.
        + apply inv_S_pq0; [exact Hs | apply Hin; right; exact Hx].
      - intros u' e' [Hu' _]. right. exact Hu'.
      - intros x Rx. destruct (inv_pending0 x Rx) as [Hs | [(y & Hy & Ey & Ev) | Hn]];
          [left; right; exact Hs | | right; right; exact Hn].
        apply Hin in Hy. destruct Hy as [-> | Hy].
        + left; left. exact Ey.
        + right; left. exists y. auto.
      - intros v Rv Tv. apply (witness_mono S); [intros s Hs; right; exact Hs |].
        apply inv_wit0; assumption. }
    assert (Hmax : forall s, In s S' -> FV (mt st1 s) <= FV (mt st1 u)).
    { intros s [<- | Hs]; [lia |]. change (mt st1 s) with (mt st s).
      change (mt st1 u) with (mt st u).
      pose proof (inv_S_pq _ _ _ _ _ _ I s top Hs Itop). lia. }
    pose proof (Inv_fold S' u (adj_of g u) _ st1 I1 (or_introl eq_refl) Hmax
                  (fun e H => H)) as I2.
    apply (fun Hw => Inv_weaken S' _ _ _ Hw I2).
    intros u' e' H. cbn beta. destruct H as [[<- | Hs] He]; [right | left; split]; auto.
Qed.

Lemma Inv_step st st' :
  (exists S, Inv g speed start S (settled_roads g S) st) ->
  step g speed st = Some st' ->
  exists S', Inv g speed start S' (settled_roads g S') st'.
Proof.
  intros [S I] E.
  destruct (pq_pop (pq st)) as [[top rest] |] eqn:P.
  - eexists. apply (Inv_step_settled S st st' top rest I P E).
  - unfold step in E. rewrite P in E. discriminate.
Qed.

(** *** When the queue is empty *)

Lemma Inv_tight S st : Inv g speed start S (settled_roads g S) st -> pq st = [] ->
  forall u e, In e (adj_of g u) ->
  FV (mt st (destination e)) <= FV (mt st u + segTime speed e).
Proof.
  intros I Hq u e He.
  assert (Ru : in_range u) by (apply (proj2 (proj2 (proj2 Wg)) u e He)).
  destruct (inv_pending _ _ _ _ _ _ I u Ru) as [Hs | [(y & Hy & _) | Hn]].
  - apply (inv_T _ _ _ _ _ _ I u e); [split; assumption | exact He].
  - rewrite Hq in Hy. destruct Hy.
  - rewrite (inv_untouched _ _ _ _ _ _ I u Hn).
    pose proof (add_infl INF (segTime speed e) Fnn_INF (seg_nn u e He)).
    pose proof (proj2 (inv_nn _ _ _ _ _ _ I (destination e))). lia.
Qed.

Lemma Inv_lower S st : Inv g speed start S (settled_roads g S) st -> pq st = [] ->
  forall es u v acc, is_path g u es v -> Fnn acc -> FV (mt st u) <= FV acc ->
  FV (mt st v) <= FV (pathTimeFrom speed acc es).
Proof.
  intros I Hq. induction es as [| e t IH]; intros u v acc P N L.
  - cbn in P. subst v. exact L.
  - destruct P as [He Pt].
    change (pathTimeFrom speed acc (e :: t))
      with (pathTimeFrom speed (acc + segTime speed e) t).
    assert (Nw : Fnn (segTime speed e)) by (apply (seg_nn u e He)).
    apply (IH _ v _ Pt); [apply add_nn; assumption |].
    pose proof (Inv_tight S st I Hq u e He).
    pose proof (add_mono_l (mt st u) acc (segTime speed e)
                  (proj1 (inv_nn _ _ _ _ _ _ I u)) N Nw L). lia.
Qed.

(** The time of a city is a lower bound of the time of every path to it. *)
Lemma Inv_optimal S st : Inv g speed start S (settled_roads g S) st -> pq st = [] ->
  forall es v, is_path g start es v -> FV (mt st v) <= FV (pathTime speed es).
Proof.
  intros I Hq es v P. apply (Inv_lower S st I Hq es start v 0%float P Fnn_0).
  rewrite (proj1 (inv_start _ _ _ _ _ _ I)). lia.
Qed.

Lemma Inv_reached S st v : Inv g speed start S (settled_roads g S) st ->
  in_range v -> FV (mt st v) < FV INF -> witness g speed start S st v.
Proof.
  intros I Rv L. apply (inv_wit _ _ _ _ _ _ I v Rv).
  destruct (Z.eq_dec v start) as [E | N]; [left; exact E |].
  destruct (Z.eq_dec (par st v) (-1)) as [E | N']; [| right; exact N'].
  exfalso. assert (Hn : ~ touched start st v) by (unfold touched; tauto).
  rewrite (inv_untouched _ _ _ _ _ _ I v Hn) in L. lia.
Qed.

(** *** The search as a whole *)

Lemma dijkstra_correct n st :
  dijkstra n g speed (initState start) = Some st ->
  (forall v, Fnn (mt st v) /\ FV (mt st v) <= FV INF) /\
  (forall es v, is_path g start es v -> FV (mt st v) <= FV (pathTime speed es)) /\
  (forall v, in_range v -> FV (mt st v) < FV INF ->
     exists es cs m,
       is_path g start es v /\ pathTime speed es = mt st v /\
       pathDistance es = pd st v /\ pathFuel speed es = fc st v /\
       backtrack m (parent st) v = Some (v :: cs) /\
       rev (v :: cs) = start :: map destination es).
Proof.
  intros D.
  assert (I0 : exists S, Inv g speed start S (settled_roads g S) (initState start)).
  { exists []. apply (Inv_weaken [] (fun _ _ => False)); [| apply Inv_init].
    intros u e [[] _]. }
  destruct (dijkstra_invariant g speed _ Inv_step n _ _ I0 D) as [[S I] Hq].
  split; [intros v; apply (inv_nn _ _ _ _ _ _ I) |].
  split; [apply (Inv_optimal S st I Hq) |].
  intros v Rv L. destruct (Inv_reached S st v I Rv L) as (es & cs & m & H).
  exists es, cs, m. tauto.
Qed.
End Search.

(** ** [findRoute] as a whole *)

Lemma findRoute_fuel_mono g s e speed n m o :
  findRoute n g s e speed = Some o -> (n <= m)%nat -> findRoute m g s e speed = Some o.
Proof.
  unfold findRoute. intros H L.
  destruct (_ || _); [exact H |].
  destruct (dijkstra n g speed (initState s)) as [st |] eqn:D; [| discriminate].
  rewrite (dijkstra_fuel_mono g speed n m _ st D L).
  destruct (_ =? _)%float; [exact H |].
  unfold printDetailedReceipt in *.
  destruct (backtrack n (parent st) e) as [p |] eqn:B; [| discriminate].
  rewrite (backtrack_fuel_mono _ n m e p B L). exact H.
Qed.

Lemma findRoute_deterministic g s e speed n m o1 o2 :
  findRoute n g s e speed = Some o1 -> findRoute m g s e speed = Some o2 -> o1 = o2.
Proof.
  intros H1 H2.
  pose proof (findRoute_fuel_mono g s e speed n (Nat.max n m) o1 H1 (Nat.le_max_l _ _)) as A.
  pose proof (findRoute_fuel_mono g s e speed m (Nat.max n m) o2 H2 (Nat.le_max_r _ _)) as B.
  congruence.
Qed.

Lemma validCity_in_range g c : wf g -> validCity g c -> in_range c.
Proof. intros (_ & _ & Hc & _) V. unfold validCity, in_range in *. lia. Qed.

Lemma FV_INF_lt_TOP : FV INF < TOP.
Proof. apply Fpos_FV. eexists _, _. reflexivity. Qed.

(** The two ways a query between valid cities ends, over non-negative
    roads: every path takes [INF] minutes or more and the answer is "no
    connection", or the answer is a route along a path of least time. *)
Lemma findRoute_outcome g start end_ speed :
  wf g -> nonneg_roads g -> validCity g start -> validCity g end_ ->
  0 < speed <= INT_MAX ->
  exists fuel,
    ((forall p, is_path g start p end_ -> FV INF <= FV (pathTime speed p)) /\
     findRoute fuel g start end_ speed = Some Unreachable)
    \/
    (exists r es,
       findRoute fuel g start end_ speed = Some (Route r) /\
       is_path g start es end_ /\ route_of g speed start es r /\
       FV (totalTime r) < FV INF /\ Fnn (totalTime r) /\
       forall p, is_path g start p end_ -> FV (totalTime r) <= FV (pathTime speed p)).
Proof.
  intros W Hr Vs Ve Hs.
  pose proof (validCity_in_range g start W Vs) as Rs.
  pose proof (validCity_in_range g end_ W Ve) as Re.
  set (n := S (Z.to_nat (potential (initState start)))).
  destruct (dijkstra_total g speed W n (initState start) (wfs_init start)) as [st D].
  { unfold n. pose proof (potential_nonneg (initState start)). lia. }
  destruct (dijkstra_correct g speed start W Hr Hs Rs n st D) as (Hn & Hopt & Hwit).
  destruct (Hn end_) as [Ne Le].
  destruct (Z_lt_le_dec (FV (mt st end_)) (FV INF)) as [Lt | Ge].
  - (* a route *)
    destruct (Hwit end_ Re Lt) as (es & cs & m & P & Et & Ed & Ef & Bk & Rev).
    set (fuel := Nat.max n m). exists fuel. right.
    pose proof (dijkstra_fuel_mono g speed n fuel _ st D (Nat.le_max_l _ _)) as D'.
    pose proof (backtrack_fuel_mono _ m fuel _ _ Bk (Nat.le_max_r _ _)) as Bk'.
    eexists _, es. rewrite findRoute_valid by assumption. rewrite D'.
    fold (mt st end_). rewrite (eqb_nn _ _ Ne Fnn_INF).
    destruct (Z.eqb_spec (FV (mt st end_)) (FV INF)) as [E | _]; [lia |].
    unfold printDetailedReceipt. rewrite Bk'.
    split; [reflexivity |]. split; [exact P |].
    unfold route_of. cbn [totalTime totalDist totalFuel legs].
    fold (mt st end_) (pd st end_) (fc st end_). rewrite Rev.
    split; [repeat split; congruence |]. split; [exact Lt |].
    split; [exact Ne |].
    intros p Pp. apply Hopt, Pp.
  - (* no connection *)
    exists n. left. split.
    + intros p P. specialize (Hopt p end_ P). lia.
    + rewrite findRoute_valid by assumption. rewrite D.
      fold (mt st end_). rewrite (eqb_nn _ _ Ne Fnn_INF).
      replace (FV (mt st end_)) with (FV INF) by lia.
      rewrite Z.eqb_refl. reflexivity.
Qed.

Lemma nonneg_roadsb_sound g : nonneg_roadsb g = true -> nonneg_roads g.
Proof.
  unfold nonneg_roadsb, nonneg_roads, adj_of, get. intros H u e He.
  rewrite forallb_forall in H.
  destruct (u <? 0); [destruct He |].
  destruct (Nat.lt_ge_cases (Z.to_nat u) (List.length (adj g))) as [L | G].
  - specialize (H _ (nth_In (adj g) [] L)). rewrite forallb_forall in H. apply H, He.
  - rewrite nth_overflow in He by assumption. destruct He.
Qed.

Lemma leb_of_FV x y : Fnn x -> Fnn y -> FV x <= FV y -> (x <=? y)%float = true.
Proof. intros Nx Ny H. rewrite (leb_nn x y Nx Ny). apply Z.leb_le, H. Qed.

Lemma pathTime_nn g speed es u v : 0 < speed <= INT_MAX -> nonneg_roads g ->
  is_path g u es v -> Fnn (pathTime speed es).
Proof.
  intros Hs Hr P. apply (pathTimeFrom_nn g speed Hs Hr es u v 0%float P Fnn_0).
Qed.

Lemma build_mapData : build mapData emptyPlanner = Some thePlanner.
Proof. vm_compute. reflexivity. Qed.

Lemma nonneg_roads_thePlanner : nonneg_roads thePlanner.
Proof. apply nonneg_roadsb_sound. vm_compute. reflexivity. Qed.

Lemma apart_unreachable : ~ reachable apartPlanner 1 2.
Proof.
  intros [[| e t] P].
  - discriminate P.
  - destruct P as [Hin _]. vm_compute in Hin. exact Hin.
Qed.

Lemma C5_no_path_is_unreachable_witness :
  (exists fuel, findRoute fuel apartPlanner 1 2 60 = Some Unreachable) /\
  (forall fuel o, findRoute fuel apartPlanner 1 2 60 = Some o -> o = Unreachable).
Proof.
  apply (C5_no_path_is_unreachable apartOps apartPlanner 1 2 60).
  - vm_compute. reflexivity.
  - split; [unfold MAX_CITIES; lia | exists "A"%string; vm_compute; auto].
  - split; [unfold MAX_CITIES; lia | exists "B"%string; vm_compute; auto].
  - exact apart_unreachable.
Defined.

(** A route handed to the caller is the one [findRoute_outcome] describes. *)
Lemma findRoute_route g start end_ speed fuel r :
  wf g -> nonneg_roads g -> validCity g start -> validCity g end_ ->
  0 < speed <= INT_MAX ->
  findRoute fuel g start end_ speed = Some (Route r) ->
  exists es,
    is_path g start es end_ /\ route_of g speed start es r /\
    FV (totalTime r) < FV INF /\ Fnn (totalTime r) /\
    forall p, is_path g start p end_ -> FV (totalTime r) <= FV (pathTime speed p).
Proof.
  intros W Hr Vs Ve Hs F.
  destruct (findRoute_outcome g start end_ speed W Hr Vs Ve Hs)
    as [fuel' [[_ U] | (r' & es & F' & H)]].
  - pose proof (findRoute_deterministic _ _ _ _ _ _ _ _ F U). discriminate.
  - pose proof (findRoute_deterministic _ _ _ _ _ _ _ _ F F') as E.
    injection E as <-. exists es. exact H.
Qed.

(** C8. For every planner built by [addCity]/[addRoad] with non-negative
    road lengths, registered [start] and [end_], and speeds
    [0 < s1 < s2]: every path takes at speed [s2] a total time not greater
    than at speed [s1], the total time of the route [findRoute] reports
    at [s2] is not greater than the one it reports at [s1], and a query
    that returns a route at [s1] returns one at [s2]. *)
Theorem C8_speed_monotone ops g start end_ s1 s2 :
  build ops emptyPlanner = Some g ->
  nonneg_roads g ->
  registered ops start -> registered ops end_ ->
  0 < s1 -> s1 < s2 -> s2 <= INT_MAX ->
  (forall u v es, is_path g u es v ->
     (pathTime s2 es <=? pathTime s1 es)%float = true) /\
  (forall f1 f2 r1 r2,
     findRoute f1 g start end_ s1 = Some (Route r1) ->
     findRoute f2 g start end_ s2 = Some (Route r2) ->
     (totalTime r2 <=? totalTime r1)%float = true) /\
  (forall f1 r1,
     findRoute f1 g start end_ s1 = Some (Route r1) ->
     exists f2 r2, findRoute f2 g start end_ s2 = Some (Route r2)).
Proof.
  intros B Hr Rs Re H1 H12 H2.
  pose proof (wf_build ops _ _ wf_empty B) as W.
  pose proof (registered_valid ops _ _ _ B Rs) as Vs.
  pose proof (registered_valid ops _ _ _ B Re) as Ve.
  assert (Mono : forall u v es, is_path g u es v ->
                   FV (pathTime s2 es) <= FV (pathTime s1 es)).
  { intros u v es P.
    apply (pathTimeFrom_speed_mono g s1 s2 ltac:(lia) H2 Hr es u v 0%float 0%float P
             Fnn_0 Fnn_0 (Z.le_refl _)). }
  split; [| split].
  - intros u v es P. apply leb_of_FV; [| | apply (Mono u v es P)].
    + apply (pathTime_nn g s2 es u v); [lia | exact Hr | exact P].
    + apply (pathTime_nn g s1 es u v); [lia | exact Hr | exact P].
  - intros f1 f2 r1 r2 F1 F2.
    destruct (findRoute_route g start end_ s1 f1 r1 W Hr Vs Ve ltac:(lia) F1)
      as (es1 & P1 & (Et1 & _) & _ & N1 & _).
    destruct (findRoute_route g start end_ s2 f2 r2 W Hr Vs Ve ltac:(lia) F2)
      as (es2 & _ & _ & _ & N2 & Opt2).
    apply leb_of_FV; [exact N2 | exact N1 |].
    specialize (Opt2 es1 P1). specialize (Mono _ _ _ P1). rewrite Et1. lia.
  - intros f1 r1 F1.
    destruct (findRoute_route g start end_ s1 f1 r1 W Hr Vs Ve ltac:(lia) F1)
      as (es1 & P1 & (Et1 & _) & Lt1 & _ & _).
    destruct (findRoute_outcome g start end_ s2 W Hr Vs Ve ltac:(lia))
      as [f2 [[Hall _] | (r2 & _ & F2 & _)]].
    + specialize (Hall es1 P1). specialize (Mono _ _ _ P1). rewrite Et1 in Lt1. lia.
    + exists f2, r2. exact F2.
Qed.

Lemma C8_speed_monotone_witness :
  (forall u v es, is_path thePlanner u es v ->
     (pathTime 100 es <=? pathTime 60 es)%float = true) /\
  (forall f1 f2 r1 r2,
     findRoute f1 thePlanner 1 3 60 = Some (Route r1) ->
     findRoute f2 thePlanner 1 3 100 = Some (Route r2) ->
     (totalTime r2 <=? totalTime r1)%float = true) /\
  (forall f1 r1,
     findRoute f1 thePlanner 1 3 60 = Some (Route r1) ->
     exists f2 r2, findRoute f2 thePlanner 1 3 100 = Some (Route r2)).
Proof.
  apply (C8_speed_monotone mapData thePlanner 1 3 60 100).
  - vm_compute. reflexivity.
  - apply nonneg_roadsb_sound. vm_compute. reflexivity.
  - split; [unfold MAX_CITIES; lia | exists "Karachi"%string; vm_compute; auto].
  - split; [unfold MAX_CITIES; lia | exists "Sukkur"%string; vm_compute; auto 10].
  - lia.
  - lia.
  - unfold INT_MAX. lia.
Defined.

(** ** Traffic multipliers and segment times *)

(** C4. The travel time of one road is [(distance / speed) * 60] times the
    traffic multiplier, the multiplier being 1.0 for Clear, 1.2 for
    Moderate, 1.5 for Heavy, 2.5 for Jammed and 1.0 for any other level;
    at the same distance and speed the time at Jammed is exactly 2.5 times
    the time at Clear. *)
Theorem C4_segment_time :
  getTrafficMultiplier LOW = 1.0%float /\
  getTrafficMultiplier MODERATE = 1.2%float /\
  getTrafficMultiplier HIGH = 1.5%float /\
  getTrafficMultiplier JAMMED = 2.5%float /\
  (forall level,
     getTrafficMultiplier level =
       if level =? MODERATE then 1.2%float
       else if level =? HIGH then 1.5%float
       else if level =? JAMMED then 2.5%float
       else 1.0%float) /\
  (forall d speed level,
     realTime d speed level =
       ((d / int_to_double speed) * 60.0 * getTrafficMultiplier level)%float) /\
  (forall d speed,
     realTime d speed JAMMED = (realTime d speed LOW * 2.5)%float).
Proof.
  repeat split.
  - intros level. destruct level as [| p | p]; try reflexivity.
    destruct p as [[p | p |] | [p | p |] |]; reflexivity.
  - intros d speed. unfold realTime. cbn [getTrafficMultiplier JAMMED LOW].
    rewrite mul_one. reflexivity.
Qed.

(** ** Fuel efficiency *)

Lemma ltb_val x y : SFnan (Prim2SF x) = false -> SFnan (Prim2SF y) = false ->
  (x <? y)%float = (rank x <? rank y).
Proof.
  intros Nx Ny. rewrite ltb_spec. unfold SFltb, rank.
  rewrite (SFcompare_val _ _ (Prim2SF_valid x) (Prim2SF_valid y) Nx Ny).
  unfold Z.ltb. destruct (_ ?= _); reflexivity.
Qed.

Lemma leb_val x y : SFnan (Prim2SF x) = false -> SFnan (Prim2SF y) = false ->
  (x <=? y)%float = (rank x <=? rank y).
Proof.
  intros Nx Ny. rewrite leb_spec. unfold SFleb, rank.
  rewrite (SFcompare_val _ _ (Prim2SF_valid x) (Prim2SF_valid y) Nx Ny).
  unfold Z.leb. destruct (_ ?= _); reflexivity.
Qed.

(** a float with the rank of a positive finite float is that float *)
Lemma rank_eq_pos x y : SFnan (Prim2SF x) = false -> Fpos y -> rank x = rank y -> x = y.
Proof.
  intros Nx (m & e & Hy) E. apply Prim2SF_inj. rewrite Hy.
  pose proof (Prim2SF_valid y) as Vy. rewrite Hy in Vy.
  pose proof (SFmag_finite_bounds false m e Vy) as By.
  unfold rank in E. rewrite Hy in E. unfold SFval in E. cbn [SFsign SFmag] in E, By.
  pose proof (SFmag_bounds (Prim2SF x) (Prim2SF_valid x)) as Bx.
  apply SF_finite_eq; [apply Prim2SF_valid | exact Vy | exact Nx | |].
  - destruct (SFsign (Prim2SF x)); [lia | reflexivity].
  - destruct (SFsign (Prim2SF x)); lia.
Qed.

Lemma of_uint63_shape n :
  Prim2SF (of_uint63 n) = S754_zero false \/ Fpos (of_uint63 n).
Proof.
  pose proof (of_uint63_spec n) as Sp. pose proof (Uint63.to_Z_bounded n) as Bn.
  change wB with 9223372036854775808 in Bn.
  destruct (Z.eq_dec (Uint63.to_Z n) 0) as [Z0 | NZ].
  - left. rewrite Sp. change Uint63Axioms.to_Z with Uint63.to_Z. rewrite Z0. reflexivity.
  - right. set (z := Uint63.to_Z n) in *.
    pose proof (binary_normalize_pos_spec z ltac:(lia)) as H. cbv zeta in H.
    change Uint63Axioms.to_Z with Uint63.to_Z in Sp. fold z in Sp.
    rewrite <- Sp in H. destruct H as (H1 & H2 & H3).
    apply classify_pos; [apply Prim2SF_valid | exact H1 | exact H2 |].
    rewrite H3. assert (P : 0 < 2 ^ 1074) by (apply Z.pow_pos_nonneg; lia). split.
    + assert (Lo : rho (4 * (1 * 2 ^ 1074)) = 2 ^ 1074) by (vm_compute; reflexivity).
      assert (rho (4 * (1 * 2 ^ 1074)) <= rho (4 * (z * 2 ^ 1074))) by (apply rho_mono; nia).
      lia.
    + assert (Hi : rho (4 * (9223372036854775808 * 2 ^ 1074)) < TOP)
        by (vm_compute; reflexivity).
      assert (rho (4 * (z * 2 ^ 1074)) <= rho (4 * (9223372036854775808 * 2 ^ 1074)))
        by (apply rho_mono; nia).
      lia.
Qed.

Lemma Fpos_400 : Fpos 400.
Proof. eexists _, _. reflexivity. Qed.

(** the square of the excess over 400 is a number, and not negative *)
Lemma drop_nn n : Fnn ((of_uint63 n * of_uint63 n) / 400).
Proof.
  destruct (of_uint63_shape n) as [Z0 | P].
  - assert (E : of_uint63 n = 0%float) by (apply Prim2SF_inj; rewrite Z0; reflexivity).
    rewrite E. apply Fnn_of_leb. vm_compute. reflexivity.
  - apply div_nn; [| apply Fpos_400]. apply mul_nn; [apply Fpos_nn, P | exact P].
Qed.

Lemma SFsub_nonnan mx ex y : valid_binary y = true -> SFnn y ->
  SFnan (SFsub prec emax (S754_finite false mx ex) y) = false.
Proof.
  intros Vy Ny. destruct (SFnn_shape_of y Vy Ny) as [s | | my ey By]; try reflexivity.
  cbn [SFsub cond_Zopp].
  destruct (Zpos (fst (shl_align mx ex (Z.min ex ey)))
            - Zpos (fst (shl_align my ey (Z.min ex ey)))) as [| p | p];
    cbn [binary_normalize]; [reflexivity | |]; apply binary_round_spec.
Qed.

Lemma sub_nonnan b y : Fpos b -> Fnn y -> SFnan (Prim2SF (b - y)) = false.
Proof.
  intros (m & e & Hb) Ny. rewrite sub_spec, Hb.
  apply SFsub_nonnan; [apply Prim2SF_valid | exact Ny].
Qed.

Lemma Fpos_5 : Fpos 5.
Proof. eexists _, _. reflexivity. Qed.

(** [std::max(5.0, x)] raises [x] to 5.0 when it is below, for a number [x]. *)
Lemma fmax_clamp x : SFnan (Prim2SF x) = false ->
  fmax 5 x = if (x <? 5)%float then 5%float else x.
Proof.
  intros Nx. unfold fmax.
  assert (N5 : SFnan (Prim2SF 5) = false) by reflexivity.
  rewrite (ltb_val 5 x N5 Nx), (ltb_val x 5 Nx N5).
  destruct (Z.ltb_spec (rank 5) (rank x)) as [L | G];
    destruct (Z.ltb_spec (rank x) (rank 5)) as [L' | G']; try reflexivity; try lia.
  symmetry. apply rank_eq_pos; [exact Nx | apply Fpos_5 | lia].
Qed.

(** [std::max(5.0, x)] is never below 5.0, whatever [x]. *)
Lemma fmax_floor x : (5 <=? fmax 5 x)%float = true.
Proof.
  unfold fmax. destruct (5 <? x)%float eqn:C; [| reflexivity].
  apply ltb_rank in C. destruct C as (N5 & Nx & L).
  rewrite (leb_val 5 x N5 Nx). apply Z.leb_le. lia.
Qed.

Lemma base_Fpos ty :
  Fpos (if RoadType_eqb ty LOCAL then (16.0 - 4.0)%float else 16.0%float).
Proof. destruct ty; eexists _, _; reflexivity. Qed.

(** C3. [calculateFuelEfficiency] is the function of the specification:
    base 16.0, less 4.0 on a local road; above 90 km/h less the square of
    the excess over 400, and never below 5.0 however large the speed;
    under 40 km/h less a flat 3.0 with no floor (13.0, or 9.0 on a local
    road); from 40 to 90 km/h the base itself (16.0, or 12.0). *)
Theorem C3_fuel_efficiency speed ty :
  calculateFuelEfficiency speed ty = fuelEfficiencyKmPerLitre speed ty /\
  (if 90 <? speed then (5.0 <=? calculateFuelEfficiency speed ty)%float = true
   else if speed <? 40 then
     calculateFuelEfficiency speed ty = match ty with LOCAL => 9.0 | _ => 13.0 end%float
   else
     calculateFuelEfficiency speed ty = match ty with LOCAL => 12.0 | _ => 16.0 end%float).
Proof.
  unfold calculateFuelEfficiency, fuelEfficiencyKmPerLitre.
  rewrite Z.gtb_ltb.
  destruct (Z.ltb_spec 90 speed) as [Hi | Lo].
  - split; [| apply fmax_floor].
    assert (E : int_to_double (speed - 90) = of_uint63 (Uint63.of_Z (speed - 90))).
    { unfold int_to_double. destruct (Z.ltb_spec (speed - 90) 0); [lia | reflexivity]. }
    rewrite E.
    rewrite fmax_clamp.
    + destruct ty; reflexivity.
    + apply sub_nonnan; [apply base_Fpos | apply drop_nn].
  - destruct (speed <? 40); destruct ty; split; reflexivity.
Qed.

(** ** The check of the city identifiers *)

Lemma gap_build : build gapOps emptyPlanner = Some gapPlanner.
Proof. vm_compute. reflexivity. Qed.

Lemma gap_not_registered : ~ registered gapOps 3.
Proof.
  intros [_ [name H]]. unfold gapOps in H. cbn [In] in H.
  destruct H as [H | [H | []]]; discriminate H.
Qed.

Lemma gap_query : findRoute 10 gapPlanner 3 5 60 = Some Unreachable.
Proof. vm_compute. reflexivity. Qed.

Lemma cityCount_lt_MAX ops g : build ops emptyPlanner = Some g -> cityCount g < MAX_CITIES.
Proof. intros B. apply (wf_build ops _ _ wf_empty B). Qed.

(** C6 (amended). For every planner built by [addCity]/[addRoad], a query
    whose start or end lies outside [1 .. cityCount] fails with
    "Invalid City ID", whatever the speed and the number of turns allowed;
    [cityCount] is below [MAX_CITIES] (so an identifier such as 99 is
    always outside) and no registered city is above it. *)
Theorem C6_outside_range_is_invalid ops g start end_ speed fuel :
  build ops emptyPlanner = Some g ->
  start < 1 \/ cityCount g < start \/ end_ < 1 \/ cityCount g < end_ ->
  findRoute fuel g start end_ speed = Some InvalidCity /\
  cityCount g < MAX_CITIES /\
  (forall c, registered ops c -> 1 <= c <= cityCount g).
Proof.
  intros B H. split; [| split].
  - apply findRoute_check. unfold validCity. lia.
  - apply (cityCount_lt_MAX ops g B).
  - intros c R. apply (registered_valid ops _ _ _ B R).
Qed.

Lemma C6_outside_range_is_invalid_witness :
  findRoute 10 thePlanner 99 1 60 = Some InvalidCity /\
  cityCount thePlanner < MAX_CITIES /\
  (forall c, registered mapData c -> 1 <= c <= cityCount thePlanner).
Proof.
  apply (C6_outside_range_is_invalid mapData thePlanner 99 1 60 10).
  - vm_compute. reflexivity.
  - right; left. vm_compute. reflexivity.
Defined.

(** C6, as stated, fails: with only cities 1 and 5 registered, city 3 is
    not registered, yet the query from 3 to 5 is not refused as an invalid
    city: it ends with "no road connection". *)
Lemma C6_counterexample :
  build gapOps emptyPlanner = Some gapPlanner /\
  ~ registered gapOps 3 /\
  findRoute 10 gapPlanner 3 5 60 = Some Unreachable.
Proof.
  split; [exact gap_build | split; [exact gap_not_registered | exact gap_query]].
Qed.

(** C10. The check of the city identifiers in [findRoute] is a range
    check: [findRoute] reports "Invalid City ID" exactly when the start or
    the end is outside [1 .. cityCount]; [addCity] only keeps the highest
    identifier in [cityCount]; so with cities 1 and 5 registered and 3
    not, a query from or to 3 is accepted and ends with "no road
    connection". *)
Theorem C10_range_check_not_registration :
  (forall fuel g s e speed,
     findRoute fuel g s e speed = Some InvalidCity <->
     ~ (1 <= s <= cityCount g /\ 1 <= e <= cityCount g)) /\
  (forall id name g g',
     addCity id name g = Some g' ->
     cityCount g' = if id <? MAX_CITIES then Z.max (cityCount g) id else cityCount g) /\
  build gapOps emptyPlanner = Some gapPlanner /\
  cityCount gapPlanner = 5 /\
  ~ registered gapOps 3 /\
  findRoute 10 gapPlanner 3 5 60 = Some Unreachable /\
  findRoute 10 gapPlanner 1 3 60 = Some Unreachable.
Proof.
  split; [| split; [| split; [| split; [| split; [| split]]]]].
  - intros fuel g s e speed. apply findRoute_check.
  - intros id name g g'. unfold addCity.
    destruct (id <? MAX_CITIES); [destruct (id <? 0) |]; intros E;
      try discriminate; injection E as <-; reflexivity.
  - exact gap_build.
  - vm_compute. reflexivity.
  - exact gap_not_registered.
  - exact gap_query.
  - vm_compute. reflexivity.
Qed.

(** ** Speed zero *)

Lemma positive_roadsb_sound g : positive_roadsb g = true -> positive_roads g.
Proof.
  unfold positive_roadsb, positive_roads, adj_of, get. intros H u e He.
  rewrite forallb_forall in H.
  destruct (u <? 0); [destruct He |].
  destruct (Nat.lt_ge_cases (Z.to_nat u) (List.length (adj g))) as [L | G].
  - specialize (H _ (nth_In (adj g) [] L)). rewrite forallb_forall in H. apply H, He.
  - rewrite nth_overflow in He by assumption. destruct He.
Qed.

Lemma div_pos_zero d : (0 <? d)%float = true -> (d / 0)%float = infinity.
Proof.
  intros H. apply Prim2SF_inj. rewrite div_spec. rewrite ltb_spec in H.
  change (Prim2SF 0) with (S754_zero false) in *.
  change (Prim2SF infinity) with (S754_infinity false).
  destruct (Prim2SF d) as [s | s | | s m e]; cbn in H |- *;
    try discriminate; destruct s; try discriminate; reflexivity.
Qed.

Lemma infinity_times_multiplier level :
  (infinity * getTrafficMultiplier level)%float = infinity.
Proof.
  unfold getTrafficMultiplier.
  destruct level as [| p | p]; try reflexivity.
  destruct p as [p | p |]; try reflexivity; destruct p; reflexivity.
Qed.

Lemma realTime_speed0 d level : (0 <? d)%float = true -> realTime d 0 level = infinity.
Proof.
  intros H. unfold realTime.
  replace (int_to_double 0) with 0%float by (vm_compute; reflexivity).
  rewrite (div_pos_zero d H).
  replace (infinity * 60)%float with infinity by (vm_compute; reflexivity).
  apply infinity_times_multiplier.
Qed.

Lemma add_infinity_not_lt x y : (x + infinity <? y)%float = false.
Proof.
  rewrite ltb_spec, add_spec.
  change (Prim2SF infinity) with (S754_infinity false).
  destruct (Prim2SF x) as [s | s | | s m e]; try destruct s;
    destruct (Prim2SF y) as [s' | s' | | s' m' e']; try destruct s'; reflexivity.
Qed.

Lemma relax_speed0 u st e : (0 <? distanceKM e)%float = true -> relax 0 u st e = st.
Proof.
  intros H. unfold relax. rewrite (realTime_speed0 _ _ H), add_infinity_not_lt.
  reflexivity.
Qed.

Lemma fold_relax_speed0 u es : forall st,
  (forall e, In e es -> (0 <? distanceKM e)%float = true) ->
  fold_left (relax 0 u) es st = st.
Proof.
  induction es as [| e t IH]; intros st H; cbn [fold_left]; [reflexivity |].
  rewrite (relax_speed0 u st e) by (apply H; left; reflexivity).
  apply IH. intros x Hx. apply H. right. exact Hx.
Qed.

Lemma dijkstra_speed0 g s fuel : positive_roads g -> in_range s -> (2 <= fuel)%nat ->
  dijkstra fuel g 0 (initState s) =
    Some (mkState [] (minTime (initState s)) (parent (initState s))
                  (fuelConsumed (initState s)) (pathDist (initState s))).
Proof.
  intros Hr Hs Hf.
  destruct fuel as [| [| n]]; [lia | lia |].
  assert (E0 : (get INF (minTime (initState s)) s <? 0)%float = false).
  { unfold initState. cbn [minTime].
    destruct (in_range_nat s Hs) as [H0 H1].
    rewrite get_set_same; [reflexivity | exact H0 | rewrite repeat_length; exact H1]. }
  change (dijkstra (S (S n)) g 0 (initState s))
    with (match step g 0 (initState s) with
          | None => Some (initState s)
          | Some st' => dijkstra (S n) g 0 st'
          end).
  unfold step at 1.
  change (pq_pop (pq (initState s))) with (Some (mkPqNode s 0%float, @nil PqNode)).
  cbn [id timeCost]. rewrite E0.
  rewrite fold_relax_speed0 by (intros e He; apply (Hr s e He)).
  reflexivity.
Qed.

(** C2 (amended). [findRoute] has no check of the speed and no outcome for
    a bad speed.  At speed 0, on a planner built by [addCity]/[addRoad]
    whose roads all have a length above zero, every segment time is
    infinite, no city other than the start is ever reached, and the query
    between two different registered cities ends with "no road
    connection", as soon as two turns of the loop are allowed. *)
Theorem C2_speed_zero_is_unreachable ops g start end_ fuel :
  build ops emptyPlanner = Some g ->
  positive_roads g ->
  registered ops start -> registered ops end_ ->
  start <> end_ ->
  (2 <= fuel)%nat ->
  (forall u e, In e (adj_of g u) -> realTime (distanceKM e) 0 (traffic e) = infinity) /\
  findRoute fuel g start end_ 0 = Some Unreachable.
Proof.
  intros B Hr Rs Re Ne Hf.
  assert (Wg : wf g) by apply (wf_build ops _ _ wf_empty B).
  assert (Vs : validCity g start) by apply (registered_valid ops _ _ _ B Rs).
  assert (Ve : validCity g end_) by apply (registered_valid ops _ _ _ B Re).
  split.
  - intros u e He. apply realTime_speed0, (Hr u e He).
  - rewrite (findRoute_valid fuel g start end_ 0 Vs Ve).
    rewrite (dijkstra_speed0 g start fuel Hr (validCity_in_range g start Wg Vs) Hf).
    cbn [minTime]. unfold initState. cbn [minTime].
    rewrite get_set_other by exact Ne.
    rewrite get_repeat_default. rewrite INF_eqb. reflexivity.
Qed.

Lemma positive_roads_thePlanner : positive_roads thePlanner.
Proof. apply positive_roadsb_sound. vm_compute. reflexivity. Qed.

Lemma registered_mapData c : 1 <= c <= 15 -> registered mapData c.
Proof.
  intros H. split; [unfold MAX_CITIES; lia |].
  assert (C : c = 1 \/ c = 2 \/ c = 3 \/ c = 4 \/ c = 5 \/ c = 6 \/ c = 7 \/ c = 8 \/
              c = 9 \/ c = 10 \/ c = 11 \/ c = 12 \/ c = 13 \/ c = 14 \/ c = 15) by lia.
  unfold mapData.
  repeat (destruct C as [-> | C]; [eexists; cbn [In]; auto 20 |]).
  subst c. eexists; cbn [In]; auto 20.
Qed.

Lemma C2_speed_zero_is_unreachable_witness :
  (forall u e, In e (adj_of thePlanner u) ->
     realTime (distanceKM e) 0 (traffic e) = infinity) /\
  findRoute 2 thePlanner 1 2 0 = Some Unreachable.
Proof.
  apply (C2_speed_zero_is_unreachable mapData thePlanner 1 2 2).
  - vm_compute. reflexivity.
  - apply positive_roadsb_sound. vm_compute. reflexivity.
  - apply registered_mapData. lia.
  - apply registered_mapData. lia.
  - discriminate.
  - lia.
Defined.

(** C2, as stated, fails: on the map of the program, at speed 0, the query
    from city 1 to city 2 (joined by a road) ends with "no road
    connection", and the query from city 3 to itself returns a route. *)
Lemma C2_counterexample :
  findRoute 5 thePlanner 1 2 0 = Some Unreachable /\
  (exists e, In e (adj_of thePlanner 1) /\ destination e = 2) /\
  (exists r, findRoute 5 thePlanner 3 3 0 = Some (Route r) /\ legs r = []).
Proof.
  split; [vm_compute; reflexivity | split].
  - vm_compute. eexists. split; [left; reflexivity | reflexivity].
  - vm_compute. eexists. split; reflexivity.
Qed.

(** ** Direct roads *)

Lemma findRoad_first es v : forall e, In e es -> destination e = v ->
  exists e1, first_road_to es v e1 /\
    findRoad es v = (roadName e1, getTrafficString (traffic e1), distanceKM e1).
Proof.
  induction es as [| x t IH]; intros e He Hd; [destruct He |].
  cbn [findRoad]. destruct (Z.eqb_spec (destination x) v) as [E | N].
  - exists x. split; [| reflexivity].
    exists [], t. split; [reflexivity | split; [intros y [] | exact E]].
  - destruct He as [-> | He]; [contradiction |].
    destruct (IH e He Hd) as (e1 & (pre & post & Es & Hpre & Hd1) & Hf).
    exists e1. split; [| exact Hf].
    exists (x :: pre), post. split; [rewrite Es; reflexivity | split; [| exact Hd1]].
    intros y [<- | Hy]; [exact N | apply Hpre, Hy].
Qed.

Lemma printLeg_fields g u v :
  leg_from (printLeg g u v) = u /\ leg_to (printLeg g u v) = v /\
  (rName (printLeg g u v), tCond (printLeg g u v), d (printLeg g u v))
    = findRoad (adj_of g u) v.
Proof.
  unfold printLeg. destruct (findRoad (adj_of g u) v) as [[x y] z].
  cbn. repeat split.
Qed.

Lemma printLegs_single g u cs l : printLegs g (u :: cs) = [l] ->
  exists v, cs = [v] /\ l = printLeg g u v.
Proof.
  destruct cs as [| v [| w cs']]; cbn [printLegs]; intros H; try discriminate.
  injection H as <-. exists v. split; reflexivity.
Qed.

Lemma pathTimeFrom_infl g speed : 0 < speed <= INT_MAX -> nonneg_roads g ->
  forall es u v acc, is_path g u es v -> Fnn acc ->
  FV acc <= FV (pathTimeFrom speed acc es).
Proof.
  intros Hs Hr. induction es as [| e t IH]; intros u v acc P N; [apply Z.le_refl |].
  destruct P as [He Pt].
  change (pathTimeFrom speed acc (e :: t))
    with (pathTimeFrom speed (acc + segTime speed e) t).
  assert (Nw : Fnn (segTime speed e)).
  { apply segTime_nn; [exact Hs | apply Fnn_of_leb, (Hr u e He)]. }
  pose proof (add_infl acc (segTime speed e) N Nw) as L1.
  pose proof (IH _ v _ Pt (proj1 (add_nn acc (segTime speed e) N Nw))) as L2. lia.
Qed.

(** C9 (amended). For every planner built by [addCity]/[addRoad] with
    non-negative road lengths, registered cities [a] and [b] joined by a
    direct road [e] whose time at the speed [0 < speed <= INT_MAX] is
    below [INF], and such that every path from [a] to [b] that is not a
    single road takes longer than [e]: [findRoute] returns a route of
    exactly one leg, from [a] to [b], with a total time not greater than
    the time of [e]; the leg shows the name, the traffic label and,
    exactly, the length of the first road from [a] to [b] in definition
    order; and when [e] is the only road from [a] to [b], the leg shows
    the name and the length of [e], and the totals of the route are those
    of [e]. *)
Theorem C9_direct_road ops g a b speed e :
  build ops emptyPlanner = Some g ->
  nonneg_roads g ->
  registered ops a -> registered ops b ->
  0 < speed <= INT_MAX ->
  In e (adj_of g a) -> destination e = b ->
  (pathTime speed [e] <? INF)%float = true ->
  (forall p, is_path g a p b -> List.length p <> 1%nat ->
     (pathTime speed [e] <? pathTime speed p)%float = true) ->
  exists fuel r l,
    findRoute fuel g a b speed = Some (Route r) /\
    legs r = [l] /\
    leg_from l = a /\ leg_to l = b /\
    (totalTime r <=? pathTime speed [e])%float = true /\
    (exists e1, first_road_to (adj_of g a) b e1 /\
       d l = distanceKM e1 /\ rName l = roadName e1 /\
       tCond l = getTrafficString (traffic e1)) /\
    ((forall x, In x (adj_of g a) -> destination x = b -> x = e) ->
     d l = distanceKM e /\ rName l = roadName e /\
     totalTime r = pathTime speed [e] /\
     totalDist r = pathDistance [e] /\
     totalFuel r = pathFuel speed [e]).
Proof.
  intros B Hr Ra Rb Hs He Hd Hlt Hslow.
  assert (Wg : wf g) by apply (wf_build ops _ _ wf_empty B).
  assert (Va : validCity g a) by apply (registered_valid ops _ _ _ B Ra).
  assert (Vb : validCity g b) by apply (registered_valid ops _ _ _ B Rb).
  assert (P : is_path g a [e] b) by (cbn [is_path]; split; assumption).
  pose proof (pathTime_nn g speed [e] a b Hs Hr P) as Ne.
  destruct (findRoute_outcome g a b speed Wg Hr Va Vb Hs)
    as [fuel [[Hall _] | (r & es & F & Pes & (Et & Ed & Ef & El) & _ & Nr & Hopt)]].
  { specialize (Hall [e] P).
    rewrite (ltb_nn _ _ Ne Fnn_INF) in Hlt. apply Z.ltb_lt in Hlt. lia. }
  assert (Les : List.length es = 1%nat).
  { destruct (Nat.eq_dec (List.length es) 1) as [E | N]; [exact E | exfalso].
    specialize (Hslow es Pes N).
    rewrite (ltb_nn _ _ Ne (pathTime_nn g speed es a b Hs Hr Pes)) in Hslow.
    apply Z.ltb_lt in Hslow. specialize (Hopt [e] P). rewrite Et in Hopt. lia. }
  destruct es as [| e0 [| e0' es']]; try discriminate Les.
  destruct Pes as [He0 Pb]. cbn [is_path] in Pb.
  cbn [map printLegs] in El.
  exists fuel, r, (printLeg g a (destination e0)).
  destruct (printLeg_fields g a b) as (Hf & Ht & Hrd).
  destruct (findRoad_first (adj_of g a) b e He Hd) as (e1 & H1 & Hfr).
  rewrite Hfr in Hrd. injection Hrd as Hn Hc Hdd.
  rewrite Pb in *.
  split; [exact F | split; [exact El | split; [exact Hf | split; [exact Ht |]]]].
  split; [apply (leb_of_FV _ _ Nr Ne), (Hopt [e] P) |].
  split; [exists e1; repeat split; assumption |].
  intros Only.
  destruct H1 as (pre & post & Es & _ & Hd1).
  assert (I1 : In e1 (adj_of g a)) by (rewrite Es; apply in_or_app; right; left; reflexivity).
  rewrite (Only e1 I1 Hd1) in Hn, Hdd. rewrite (Only e0 He0 Pb) in Et, Ed, Ef.
  repeat split; assumption.
Qed.

Lemma C9_direct_road_witness :
  exists fuel r l,
    findRoute fuel thePlanner 1 2 60 = Some (Route r) /\
    legs r = [l] /\
    leg_from l = 1 /\ leg_to l = 2 /\
    (totalTime r <=? pathTime 60 [mkEdge 2 165 JAMMED MOTORWAY "M-9 Motorway"])%float = true /\
    (exists e1, first_road_to (adj_of thePlanner 1) 2 e1 /\
       d l = distanceKM e1 /\ rName l = roadName e1 /\
       tCond l = getTrafficString (traffic e1)) /\
    d l = 165%float /\ rName l = "M-9 Motorway"%string /\
    totalTime r = pathTime 60 [mkEdge 2 165 JAMMED MOTORWAY "M-9 Motorway"] /\
    totalDist r = pathDistance [mkEdge 2 165 JAMMED MOTORWAY "M-9 Motorway"] /\
    totalFuel r = pathFuel 60 [mkEdge 2 165 JAMMED MOTORWAY "M-9 Motorway"].
Proof.
  assert (Hr : nonneg_roads thePlanner) by (apply nonneg_roadsb_sound; vm_compute; reflexivity).
  assert (Hs : 0 < 60 <= INT_MAX) by (unfold INT_MAX; lia).
  assert (B : build mapData emptyPlanner = Some thePlanner) by (vm_compute; reflexivity).
  assert (R1 : registered mapData 1).
  { split; [vm_compute; split; [discriminate | reflexivity] |].
    eexists. unfold mapData. cbn [In]. auto 20. }
  assert (R2 : registered mapData 2).
  { split; [vm_compute; split; [discriminate | reflexivity] |].
    eexists. unfold mapData. cbn [In]. auto 20. }
  assert (He : In (mkEdge 2 165 JAMMED MOTORWAY "M-9 Motorway") (adj_of thePlanner 1))
    by (vm_compute; left; reflexivity).
  assert (Hlt : (pathTime 60 [mkEdge 2 165 JAMMED MOTORWAY "M-9 Motorway"] <? INF)%float = true)
    by (vm_compute; reflexivity).
  assert (Hslow : forall p, is_path thePlanner 1 p 2 -> List.length p <> 1%nat ->
            (pathTime 60 [mkEdge 2 165 JAMMED MOTORWAY "M-9 Motorway"]
             <? pathTime 60 p)%float = true).
  { intros p P L. destruct p as [| e1 [| e2 rest]].
    - cbn [is_path] in P. discriminate P.
    - destruct (L eq_refl).
    - destruct P as (H1 & H2 & P).
      assert (Far : forall acc, Fnn acc ->
                FV (pathTime 60 [mkEdge 2 165 JAMMED MOTORWAY "M-9 Motorway"]) < FV acc ->
                forall u, is_path thePlanner u rest 2 ->
                (pathTime 60 [mkEdge 2 165 JAMMED MOTORWAY "M-9 Motorway"]
                 <? pathTimeFrom 60 acc rest)%float = true).
      { intros acc Na La u Pu.
        pose proof (pathTimeFrom_infl thePlanner 60 Hs Hr rest u 2 acc Pu Na) as G.
        rewrite ltb_nn.
        - apply Z.ltb_lt. lia.
        - apply Fnn_of_leb. vm_compute. reflexivity.
        - apply (pathTimeFrom_nn thePlanner 60 Hs Hr rest u 2 acc Pu Na). }
      change (pathTime 60 (e1 :: e2 :: rest))
        with (pathTimeFrom 60 (0 + segTime 60 e1 + segTime 60 e2) rest).
      vm_compute in H1.
      destruct H1 as [<- | [<- | []]]; vm_compute in H2;
        destruct H2 as [<- | [<- | []]];
        (eapply Far; [apply Fnn_of_leb; vm_compute; reflexivity
                     | vm_compute; reflexivity
                     | exact P]). }
  destruct (C9_direct_road mapData thePlanner 1 2 60 (mkEdge 2 165 JAMMED MOTORWAY "M-9 Motorway")
              B Hr R1 R2 Hs He eq_refl Hlt Hslow)
    as (fuel & r & l & F & El & Hf & Ht & Le & Hfirst & Only).
  exists fuel, r, l.
  split; [exact F | split; [exact El | split; [exact Hf | split; [exact Ht |]]]].
  split; [exact Le | split; [exact Hfirst |]].
  apply Only. intros x Hx Hdx. vm_compute in Hx.
  destruct Hx as [<- | [<- | []]]; [reflexivity | discriminate Hdx].
Defined.

(** C9, as stated, fails: on the map of the program, Sukkur (3) and
    Multan (4) are joined by the direct road M-5 of 420 km, and at speed 60
    the route from 3 to 4 has two legs, through Bahawalpur (15), of 300 km
    and 90 km. *)
Lemma C9_counterexample :
  build mapData emptyPlanner = Some thePlanner /\
  In (mkEdge 4 420 LOW MOTORWAY "M-5 Sukkur-Multan") (adj_of thePlanner 3) /\
  exists r,
    findRoute 100 thePlanner 3 4 60 = Some (Route r) /\
    map leg_ends (legs r) = [(3, 15); (15, 4)] /\
    map d (legs r) = [300%float; 90%float].
Proof.
  split; [vm_compute; reflexivity | split].
  - vm_compute. auto 10.
  - vm_compute. eexists. repeat split.
Qed.

(** ** Both directions *)

Lemma symmetric_empty : symmetric emptyPlanner.
Proof. intros u e H. rewrite adj_of_empty in H. destruct H. Qed.

Lemma symmetric_addRoad u v dist traf ty name g g' :
  wf g -> symmetric g -> addRoad u v dist traf ty name g = Some g' -> symmetric g'.
Proof.
  intros W S A w e He.
  destruct (adj_of_addRoad u v dist traf ty name g g' w W A) as (_ & _ & Ew).
  destruct (adj_of_addRoad u v dist traf ty name g g' (destination e) W A) as (_ & _ & Ed).
  rewrite Ew in He. rewrite Ed.
  apply in_app_or in He. destruct He as [He | He];
    [apply in_app_or in He; destruct He as [He | He] |].
  - apply in_or_app. left. apply in_or_app. left. apply S, He.
  - destruct (Z.eqb_spec w u) as [-> | _]; [| destruct He].
    destruct He as [<- | []]. cbn [destination reverse_road distanceKM traffic type roadName].
    apply in_or_app. right. rewrite Z.eqb_refl. left. reflexivity.
  - destruct (Z.eqb_spec w v) as [-> | _]; [| destruct He].
    destruct He as [<- | []]. cbn [destination reverse_road distanceKM traffic type roadName].
    apply in_or_app. left. apply in_or_app. right. rewrite Z.eqb_refl. left. reflexivity.
Qed.

Lemma symmetric_addCity id name g g' :
  symmetric g -> addCity id name g = Some g' -> symmetric g'.
Proof.
  unfold addCity. intros S.
  destruct (id <? MAX_CITIES); [destruct (id <? 0) |]; intros E;
    try discriminate; injection E as <-; exact S.
Qed.

Lemma symmetric_build ops : forall g g',
  wf g -> symmetric g -> build ops g = Some g' -> symmetric g'.
Proof.
  induction ops as [| o rest IH]; intros g g' W S B; cbn [build] in B.
  - injection B as <-. exact S.
  - destruct (apply_op o g) as [g1 |] eqn:E; [| discriminate].
    apply (IH g1 g'); [| | exact B].
    + apply (wf_build [o] g g1 W). cbn [build]. rewrite E. reflexivity.
    + destruct o as [id name | u v dist traf ty name]; cbn [apply_op] in E.
      * apply (symmetric_addCity id name g g1 S E).
      * apply (symmetric_addRoad u v dist traf ty name g g1 W S E).
Qed.

Lemma segTime_reverse speed u e : segTime speed (reverse_road u e) = segTime speed e.
Proof. reflexivity. Qed.

Lemma reverse_path g speed : symmetric g -> forall es u v,
  is_path g u es v ->
  exists es', is_path g v es' u /\
    map (segTime speed) es' = rev (map (segTime speed) es).
Proof.
  intros S. induction es as [| e t IH]; intros u v P.
  - exists []. cbn in *. split; [symmetry; exact P | reflexivity].
  - destruct P as [He Pt]. destruct (IH _ _ Pt) as (t' & Pt' & Et').
    exists (t' ++ [reverse_road u e]). split.
    + apply (is_path_snoc g v t' (destination e) (reverse_road u e) Pt').
      apply S, He.
    + rewrite map_app, Et'. reflexivity.
Qed.

Lemma pathTimeFrom_sum speed es : forall acc,
  pathTimeFrom speed acc es = fold_left (fun t x => (t + x)%float) (map (segTime speed) es) acc.
Proof.
  induction es as [| e t IH]; intros acc; [reflexivity |].
  cbn [map fold_left]. rewrite <- IH. reflexivity.
Qed.

Lemma pathTime_sum speed es : pathTime speed es = sumTimes (map (segTime speed) es).
Proof. apply pathTimeFrom_sum. Qed.

Lemma printLegs_length g cs : forall u, List.length (printLegs g (u :: cs)) = List.length cs.
Proof.
  induction cs as [| v t IH]; intros u; [reflexivity |].
  change (printLegs g (u :: v :: t)) with (printLeg g u v :: printLegs g (v :: t)).
  cbn [List.length]. rewrite IH. reflexivity.
Qed.

Lemma rho_FV x : Fnn x -> rho (4 * FV x) = FV x.
Proof.
  intros [Hn _]. unfold FV in *. pose proof (Prim2SF_valid x) as V.
  destruct (Prim2SF x) as [s | s | | s m e] eqn:E.
  - apply rho_fixed; [exact V | reflexivity].
  - cbn [SFmag]. apply rho_TOP. lia.
  - discriminate Hn.
  - apply rho_fixed; [exact V | reflexivity].
Qed.

Lemma add_zero_FV x : Fnn x -> Fnn (0 + x) /\ FV (0 + x) = FV x.
Proof.
  intros N. destruct (add_nn 0 x Fnn_0 N) as [N' E]. split; [exact N' |].
  rewrite E, FV_0, Z.add_0_l. apply rho_FV, N.
Qed.

(** Up to two non-negative times can be summed in either order. *)
Lemma sumTimes_rev_short ts : (List.length ts <= 2)%nat -> (forall t, In t ts -> Fnn t) ->
  FV (sumTimes (rev ts)) = FV (sumTimes ts).
Proof.
  intros L N. destruct ts as [| x [| y [| z r]]]; [reflexivity | reflexivity | | cbn in L; lia].
  assert (Nx : Fnn x) by (apply N; left; reflexivity).
  assert (Ny : Fnn y) by (apply N; right; left; reflexivity).
  change (FV (0 + y + x) = FV (0 + x + y)).
  destruct (add_zero_FV x Nx) as [Nx' Ex]. destruct (add_zero_FV y Ny) as [Ny' Ey].
  destruct (add_nn _ _ Ny' Nx) as [_ ->]. destruct (add_nn _ _ Nx' Ny) as [_ ->].
  rewrite Ex, Ey. f_equal. lia.
Qed.

Lemma segTimes_nn g speed : 0 < speed <= INT_MAX -> nonneg_roads g ->
  forall es u v, is_path g u es v -> forall t, In t (map (segTime speed) es) -> Fnn t.
Proof.
  intros Hs Hr. induction es as [| e r IH]; intros u v P t Ht; [destruct Ht |].
  destruct P as [He Pr]. destruct Ht as [<- | Ht].
  - apply segTime_nn; [exact Hs |]. apply Fnn_of_leb, (Hr u e He).
  - apply (IH _ _ Pr t Ht).
Qed.

(** One direction of the comparison: the time reported from [a] to [b] is
    not above the reversed sum of the segment times of any path from [b]
    to [a]. *)
Lemma route_below_reverse g speed a b f r es2 :
  wf g -> nonneg_roads g -> symmetric g -> validCity g a -> validCity g b ->
  0 < speed <= INT_MAX ->
  findRoute f g a b speed = Some (Route r) ->
  is_path g b es2 a ->
  Fnn (totalTime r) /\ Fnn (sumTimes (rev (map (segTime speed) es2))) /\
  FV (totalTime r) <= FV (sumTimes (rev (map (segTime speed) es2))).
Proof.
  intros W Hr S Va Vb Hs F P2.
  destruct (findRoute_route g a b speed f r W Hr Va Vb Hs F)
    as (es & _ & _ & _ & Nr & Hopt).
  destruct (reverse_path g speed S es2 b a P2) as (es2' & P2' & E2').
  rewrite <- E2', <- pathTime_sum.
  split; [exact Nr | split; [apply (pathTime_nn g speed es2' a b Hs Hr P2') |]].
  apply Hopt, P2'.
Qed.

(** C7 (amended). For every planner built by [addCity]/[addRoad] with
    non-negative road lengths, registered cities [a] and [b] and a speed
    [0 < speed <= INT_MAX], when both queries return a route: each total
    time is the floating-point sum, from left to right, of the segment
    times along a path, and is not greater than the segment times of the
    other route summed in the reverse order; the two totals compare equal
    when both routes have at most two legs. *)
Theorem C7_symmetry_up_to_rounding ops g a b speed f1 f2 r1 r2 :
  build ops emptyPlanner = Some g ->
  nonneg_roads g ->
  registered ops a -> registered ops b ->
  0 < speed <= INT_MAX ->
  findRoute f1 g a b speed = Some (Route r1) ->
  findRoute f2 g b a speed = Some (Route r2) ->
  exists es1 es2,
    is_path g a es1 b /\ is_path g b es2 a /\
    legs r1 = printLegs g (a :: map destination es1) /\
    legs r2 = printLegs g (b :: map destination es2) /\
    totalTime r1 = sumTimes (map (segTime speed) es1) /\
    totalTime r2 = sumTimes (map (segTime speed) es2) /\
    (totalTime r2 <=? sumTimes (rev (map (segTime speed) es1)))%float = true /\
    (totalTime r1 <=? sumTimes (rev (map (segTime speed) es2)))%float = true /\
    ((List.length (legs r1) <= 2)%nat -> (List.length (legs r2) <= 2)%nat ->
     (totalTime r1 =? totalTime r2)%float = true).
Proof.
  intros B Hr Ra Rb Hs F1 F2.
  assert (Wg : wf g) by apply (wf_build ops _ _ wf_empty B).
  assert (Sg : symmetric g) by apply (symmetric_build ops _ _ wf_empty symmetric_empty B).
  assert (Va : validCity g a) by apply (registered_valid ops _ _ _ B Ra).
  assert (Vb : validCity g b) by apply (registered_valid ops _ _ _ B Rb).
  destruct (findRoute_route g a b speed f1 r1 Wg Hr Va Vb Hs F1)
    as (es1 & P1 & (Et1 & _ & _ & El1) & _ & _ & _).
  destruct (findRoute_route g b a speed f2 r2 Wg Hr Vb Va Hs F2)
    as (es2 & P2 & (Et2 & _ & _ & El2) & _ & _ & _).
  destruct (route_below_reverse g speed a b f1 r1 es2 Wg Hr Sg Va Vb Hs F1 P2)
    as (N1 & N1' & L1).
  destruct (route_below_reverse g speed b a f2 r2 es1 Wg Hr Sg Vb Va Hs F2 P1)
    as (N2 & N2' & L2).
  exists es1, es2.
  split; [exact P1 | split; [exact P2 | split; [exact El1 | split; [exact El2 |]]]].
  split; [rewrite Et1; apply pathTime_sum | split; [rewrite Et2; apply pathTime_sum |]].
  split; [apply (leb_of_FV _ _ N2 N2' L2) | split; [apply (leb_of_FV _ _ N1 N1' L1) |]].
  intros Len1 Len2.
  rewrite El1, printLegs_length, length_map in Len1.
  rewrite El2, printLegs_length, length_map in Len2.
  rewrite (eqb_nn _ _ N1 N2). apply Z.eqb_eq.
  rewrite sumTimes_rev_short in L1, L2;
    try (rewrite length_map; assumption);
    try (apply (segTimes_nn g speed Hs Hr es1 a b P1));
    try (apply (segTimes_nn g speed Hs Hr es2 b a P2)).
  rewrite <- pathTime_sum, <- Et2 in L1. rewrite <- pathTime_sum, <- Et1 in L2. lia.
Qed.

Lemma C7_symmetry_up_to_rounding_witness :
  exists es1 es2,
    is_path thePlanner 1 es1 3 /\ is_path thePlanner 3 es2 1 /\
    legs (the_route (findRoute 100 thePlanner 1 3 60))
      = printLegs thePlanner (1 :: map destination es1) /\
    legs (the_route (findRoute 100 thePlanner 3 1 60))
      = printLegs thePlanner (3 :: map destination es2) /\
    totalTime (the_route (findRoute 100 thePlanner 1 3 60))
      = sumTimes (map (segTime 60) es1) /\
    totalTime (the_route (findRoute 100 thePlanner 3 1 60))
      = sumTimes (map (segTime 60) es2) /\
    (totalTime (the_route (findRoute 100 thePlanner 3 1 60))
       <=? sumTimes (rev (map (segTime 60) es1)))%float = true /\
    (totalTime (the_route (findRoute 100 thePlanner 1 3 60))
       <=? sumTimes (rev (map (segTime 60) es2)))%float = true /\
    ((List.length (legs (the_route (findRoute 100 thePlanner 1 3 60))) <= 2)%nat ->
     (List.length (legs (the_route (findRoute 100 thePlanner 3 1 60))) <= 2)%nat ->
     (totalTime (the_route (findRoute 100 thePlanner 1 3 60))
        =? totalTime (the_route (findRoute 100 thePlanner 3 1 60)))%float = true).
Proof.
  apply (C7_symmetry_up_to_rounding mapData thePlanner 1 3 60 100 100).
  - vm_compute. reflexivity.
  - apply nonneg_roadsb_sound. vm_compute. reflexivity.
  - apply registered_mapData. lia.
  - apply registered_mapData. lia.
  - unfold INT_MAX. lia.
  - vm_compute. reflexivity.
  - vm_compute. reflexivity.
Defined.

(** C7, as stated, fails: on the map of the program, at speed 70, the
    route from Sukkur (3) to Sialkot (11) and the route back go through the
    same cities, and their total times differ: 882 minutes one way, shown
    as 14 h 42 min, and a little less the other way, shown as 14 h 41 min. *)
Lemma C7_counterexample :
  build mapData emptyPlanner = Some thePlanner /\
  exists r1 r2,
    findRoute 100 thePlanner 3 11 70 = Some (Route r1) /\
    findRoute 100 thePlanner 11 3 70 = Some (Route r2) /\
    map leg_ends (legs r1) = [(3, 15); (15, 4); (4, 5); (5, 6); (6, 11)] /\
    map leg_ends (legs r2) = [(11, 6); (6, 5); (5, 4); (4, 15); (15, 3)] /\
    (totalTime r1 =? totalTime r2)%float = false /\
    (totalTime r2 <? totalTime r1)%float = true /\
    (hrs r1, mins r1) = (14, 42) /\ (hrs r2, mins r2) = (14, 41).
Proof.
  split; [vm_compute; reflexivity |].
  exists (the_route (findRoute 100 thePlanner 3 11 70)),
         (the_route (findRoute 100 thePlanner 11 3 70)).
  vm_compute. repeat split.
Qed.

(** ** The two mutators seen from the lookups *)

Lemma findRoad_app l1 l2 v :
  findRoad (l1 ++ l2) v = if has_road_to l1 v then findRoad l1 v else findRoad l2 v.
Proof.
  induction l1 as [| x t IH]; [reflexivity |].
  cbn [app findRoad has_road_to existsb]. destruct (destination x =? v); [reflexivity |].
  exact IH.
Qed.

Lemma has_road_to_false es v :
  has_road_to es v = false <-> forall x, In x es -> destination x <> v.
Proof.
  unfold has_road_to. split.
  - intros H x Hx E. apply Z.eqb_eq in E.
    assert (T : existsb (fun e => destination e =? v) es = true)
      by (apply existsb_exists; exists x; auto).
    congruence.
  - intros H. destruct (existsb _ es) eqn:E; [| reflexivity].
    apply existsb_exists in E. destruct E as (x & Hx & E). apply Z.eqb_eq in E.
    destruct (H x Hx E).
Qed.

Lemma addRoad_defined u v dist traf ty name g :
  in_range u -> in_range v -> exists g', addRoad u v dist traf ty name g = Some g'.
Proof.
  intros [U0 U1] [V0 V1]. unfold addRoad.
  destruct (Z.leb_spec 0 u); [| lia]. destruct (Z.ltb_spec u MAX_CITIES); [| lia].
  destruct (Z.leb_spec 0 v); [| lia]. destruct (Z.ltb_spec v MAX_CITIES); [| lia].
  cbn [andb]. eauto.
Qed.

Lemma addRoad_names u v dist traf ty name g g' :
  addRoad u v dist traf ty name g = Some g' ->
  cityNames g' = cityNames g /\ cityCount g' = cityCount g.
Proof.
  unfold addRoad. destruct (_ && _); [| discriminate].
  intros E. injection E as <-. split; reflexivity.
Qed.

(** X1. [addRoad u v] on a planner built by [addCity]/[addRoad], with both
    ends inside the arrays, is defined; it leaves the names and the city
    count alone and appends one entry to the list of [u] and one to the
    list of [v] (two entries to the same list when [u = v]), after the
    entries already there.  Seen from the lookup of the itinerary: when
    [u] had no road to [v] the lookup now finds the new road, and when it
    had one the lookup still finds the old one. *)
Theorem addRoad_then_findRoad ops g u v dist traf ty name :
  build ops emptyPlanner = Some g ->
  in_range u -> in_range v ->
  exists g',
    addRoad u v dist traf ty name g = Some g' /\
    cityNames g' = cityNames g /\ cityCount g' = cityCount g /\
    (forall w, adj_of g' w =
       (adj_of g w ++ (if w =? u then [mkEdge v dist traf ty name] else []))
         ++ (if w =? v then [mkEdge u dist traf ty name] else [])) /\
    findRoad (adj_of g' u) v =
      (if has_road_to (adj_of g u) v then findRoad (adj_of g u) v
       else (name, getTrafficString traf, dist)).
Proof.
  intros B Ru Rv.
  assert (Wg : wf g) by apply (wf_build ops _ _ wf_empty B).
  destruct (addRoad_defined u v dist traf ty name g Ru Rv) as [g' A].
  exists g'. destruct (addRoad_names _ _ _ _ _ _ _ _ A) as [En Ec].
  split; [exact A | split; [exact En | split; [exact Ec | split]]].
  - intros w. apply (adj_of_addRoad u v dist traf ty name g g' w Wg A).
  - destruct (adj_of_addRoad u v dist traf ty name g g' u Wg A) as (_ & _ & ->).
    rewrite Z.eqb_refl, <- app_assoc, findRoad_app.
    destruct (has_road_to (adj_of g u) v); [reflexivity |].
    cbn [app findRoad destination roadName traffic distanceKM].
    rewrite Z.eqb_refl. reflexivity.
Qed.

Lemma addRoad_then_findRoad_witness :
  exists g',
    addRoad 1 3 500 HIGH LOCAL "New Road" thePlanner = Some g' /\
    cityNames g' = cityNames thePlanner /\ cityCount g' = cityCount thePlanner /\
    (forall w, adj_of g' w =
       (adj_of thePlanner w
          ++ (if w =? 1 then [mkEdge 3 500 HIGH LOCAL "New Road"] else []))
         ++ (if w =? 3 then [mkEdge 1 500 HIGH LOCAL "New Road"] else [])) /\
    findRoad (adj_of g' 1) 3 =
      (if has_road_to (adj_of thePlanner 1) 3 then findRoad (adj_of thePlanner 1) 3
       else ("New Road"%string, getTrafficString HIGH, 500%float)).
Proof.
  apply (addRoad_then_findRoad mapData thePlanner 1 3 500 HIGH LOCAL "New Road").
  - vm_compute. reflexivity.
  - unfold in_range, MAX_CITIES. lia.
  - unfold in_range, MAX_CITIES. lia.
Defined.

Lemma cityName_addCity id name g g' c :
  List.length (cityNames g) = Z.to_nat MAX_CITIES ->
  addCity id name g = Some g' ->
  cityName g' c = if (id <? MAX_CITIES) && (c =? id) then name else cityName g c.
Proof.
  intros Ln. unfold addCity.
  destruct (Z.ltb_spec id MAX_CITIES) as [Lt | Ge]; cbn [andb].
  - destruct (Z.ltb_spec id 0) as [Neg | Pos]; [discriminate |].
    intros E. injection E as <-. unfold cityName. cbn [cityNames].
    destruct (Z.eqb_spec c id) as [-> | N].
    + apply get_set_same; [exact Pos | rewrite Ln; unfold MAX_CITIES in *; lia].
    + apply get_set_other. congruence.
  - intros E. injection E as <-. reflexivity.
Qed.

Lemma cityName_apply_op o g g' c :
  wf g -> apply_op o g = Some g' ->
  (forall name, o <> AddCity c name) ->
  cityName g' c = cityName g c.
Proof.
  intros (_ & Ln & _) A N. destruct o as [id name | u v dist traf ty name]; cbn [apply_op] in A.
  - rewrite (cityName_addCity id name g g' c Ln A).
    destruct (Z.eqb_spec c id) as [-> | _]; [| rewrite andb_false_r; reflexivity].
    destruct (N name eq_refl).
  - unfold cityName. destruct (addRoad_names _ _ _ _ _ _ _ _ A) as [-> _]. reflexivity.
Qed.

Lemma wf_apply_op o g g' : wf g -> apply_op o g = Some g' -> wf g'.
Proof.
  intros W A. apply (wf_build [o] g g' W). cbn [build]. rewrite A. reflexivity.
Qed.

Lemma cityName_build_keep c ops : forall g g',
  wf g -> build ops g = Some g' -> not_renamed c ops -> cityName g' c = cityName g c.
Proof.
  induction ops as [| o rest IH]; intros g g' W B N; cbn [build] in B.
  - injection B as <-. reflexivity.
  - destruct (apply_op o g) as [g1 |] eqn:A; [| discriminate].
    rewrite (IH g1 g' (wf_apply_op o g g1 W A) B).
    + apply (cityName_apply_op o g g1 c W A).
      intros name ->. apply (N name). left. reflexivity.
    + intros name H. apply (N name). right. exact H.
Qed.

Lemma build_app ops1 : forall ops2 g g',
  build (ops1 ++ ops2) g = Some g' ->
  exists g1, build ops1 g = Some g1 /\ build ops2 g1 = Some g'.
Proof.
  induction ops1 as [| o rest IH]; intros ops2 g g' B; cbn [app build] in *.
  - exists g. split; [reflexivity | exact B].
  - destruct (apply_op o g) as [g1 |]; [| discriminate]. apply IH, B.
Qed.

(** X2. The name of a city is the one of the last [addCity] for its
    identifier: when the calls that build the planner are [before], then
    [addCity c name] with [c < MAX_CITIES], then calls [after] none of
    which is an [addCity] for [c], the planner holds [name] for [c], and
    the city count is at least [c]. *)
Theorem addCity_then_cityName before after c name g :
  build (before ++ AddCity c name :: after) emptyPlanner = Some g ->
  c < MAX_CITIES ->
  not_renamed c after ->
  cityName g c = name /\ c <= cityCount g.
Proof.
  intros B Lt N.
  destruct (build_app before _ _ _ B) as (g1 & B1 & B2).
  assert (W1 : wf g1) by apply (wf_build before _ _ wf_empty B1).
  cbn [build apply_op] in B2.
  destruct (addCity c name g1) as [g2 |] eqn:A; [| discriminate].
  assert (W2 : wf g2) by apply (wf_addCity c name g1 g2 W1 A).
  pose proof (cityName_addCity c name g1 g2 c (proj1 (proj2 W1)) A) as E.
  destruct (Z.ltb_spec c MAX_CITIES); [| lia]. rewrite Z.eqb_refl in E. cbn [andb] in E.
  split.
  - rewrite (cityName_build_keep c after g2 g W2 B2 N). exact E.
  - pose proof (cityCount_build after g2 g B2) as L.
    unfold addCity in A. destruct (Z.ltb_spec c MAX_CITIES); [| lia].
    destruct (c <? 0); [discriminate |]. injection A as <-. cbn [cityCount] in L. lia.
Qed.

Lemma addCity_then_cityName_witness :
  cityName thePlanner 1 = "Karachi"%string /\ 1 <= cityCount thePlanner.
Proof.
  apply (addCity_then_cityName [] (List.tl mapData) 1 "Karachi" thePlanner).
  - vm_compute. reflexivity.
  - unfold MAX_CITIES. lia.
  - intros name H. cbn [List.tl mapData In] in H.
    repeat (destruct H as [H | H]; [discriminate H |]). exact H.
Defined.

(** X3. [addCity] with an identifier of [MAX_CITIES] or more changes
    nothing: the city is dropped without a message, and a later query for
    it is answered "Invalid City ID". *)
Theorem addCity_beyond_capacity ops g id name :
  build ops emptyPlanner = Some g ->
  MAX_CITIES <= id ->
  addCity id name g = Some g /\
  forall fuel other speed,
    findRoute fuel g id other speed = Some InvalidCity /\
    findRoute fuel g other id speed = Some InvalidCity.
Proof.
  intros B Ge. split.
  - unfold addCity. destruct (Z.ltb_spec id MAX_CITIES); [lia | reflexivity].
  - pose proof (cityCount_lt_MAX ops g B) as Lt.
    intros fuel other speed. split; apply findRoute_check; unfold validCity; lia.
Qed.

Lemma addCity_beyond_capacity_witness :
  addCity 20 "Murree" thePlanner = Some thePlanner /\
  forall fuel other speed,
    findRoute fuel thePlanner 20 other speed = Some InvalidCity /\
    findRoute fuel thePlanner other 20 speed = Some InvalidCity.
Proof.
  apply (addCity_beyond_capacity mapData thePlanner 20 "Murree").
  - vm_compute. reflexivity.
  - unfold MAX_CITIES. lia.
Defined.

(** X4. A planner built by [addCity]/[addRoad] keeps its arrays at
    [MAX_CITIES] cells and its city count below [MAX_CITIES]; every entry
    of an adjacency list sits in the list of a city inside the arrays and
    leads to one, and it has its reverse entry, with the same length,
    traffic, type and name, in the list of the city it leads to. *)
Theorem build_roads_two_way ops g :
  build ops emptyPlanner = Some g ->
  List.length (adj g) = Z.to_nat MAX_CITIES /\
  List.length (cityNames g) = Z.to_nat MAX_CITIES /\
  0 <= cityCount g < MAX_CITIES /\
  forall u e, In e (adj_of g u) ->
    0 <= u < MAX_CITIES /\ 0 <= destination e < MAX_CITIES /\
    In (mkEdge u (distanceKM e) (traffic e) (type e) (roadName e))
       (adj_of g (destination e)).
Proof.
  intros B.
  destruct (wf_build ops _ _ wf_empty B) as (La & Ln & Hc & He).
  pose proof (symmetric_build ops _ _ wf_empty symmetric_empty B) as S.
  split; [exact La | split; [exact Ln | split; [exact Hc |]]].
  intros u e H. destruct (He u e H) as [Ru Rd].
  split; [exact Ru | split; [exact Rd | apply (S u e H)]].
Qed.

Lemma build_roads_two_way_witness :
  List.length (adj thePlanner) = Z.to_nat MAX_CITIES /\
  List.length (cityNames thePlanner) = Z.to_nat MAX_CITIES /\
  0 <= cityCount thePlanner < MAX_CITIES /\
  forall u e, In e (adj_of thePlanner u) ->
    0 <= u < MAX_CITIES /\ 0 <= destination e < MAX_CITIES /\
    In (mkEdge u (distanceKM e) (traffic e) (type e) (roadName e))
       (adj_of thePlanner (destination e)).
Proof.
  apply (build_roads_two_way mapData thePlanner). vm_compute. reflexivity.
Defined.

(** ** Counting the turns of the loop *)

Lemma memb_In u S : memb u S = true <-> In u S.
Proof.
  unfold memb. rewrite existsb_exists. split.
  - intros (x & Hx & E). apply Z.eqb_eq in E. subst x. exact Hx.
  - intros H. exists u. split; [exact H | apply Z.eqb_refl].
Qed.

Lemma In_cities u : In u cities <-> in_range u.
Proof.
  unfold cities, in_range. rewrite in_map_iff. split.
  - intros (n & <- & Hn). apply in_seq in Hn. unfold MAX_CITIES in *. lia.
  - intros H. exists (Z.to_nat u). split; [lia |]. apply in_seq. lia.
Qed.

Lemma NoDup_cities : NoDup cities.
Proof.
  assert (E : cities = [0; 1; 2; 3; 4; 5; 6; 7; 8; 9; 10; 11; 12; 13; 14; 15; 16; 17; 18; 19])
    by reflexivity.
  rewrite E.
  repeat (constructor;
          [cbn [In]; intros H; repeat (destruct H as [H | H]; [discriminate H |]); exact H |]).
  constructor.
Qed.

(** Adding one to the cell of [u] adds one to the sum when [u] is there. *)
Lemma list_sum_bump (f : Z -> nat) u (k : nat) cs : NoDup cs ->
  list_sum (map (fun w => (f w + (if Z.eqb w u then k else O))%nat) cs)
  = (list_sum (map f cs) + (if memb u cs then k else O))%nat.
Proof.
  induction cs as [| c t IH]; intros Nd; [reflexivity |].
  inversion Nd as [| c' t' Hc Ht]; subst. specialize (IH Ht).
  change (memb u (c :: t)) with ((u =? c) || memb u t).
  rewrite !map_cons. change (list_sum (?x :: ?l)) with (x + list_sum l)%nat.
  rewrite IH.
  rewrite (Z.eqb_sym u c).
  destruct (Z.eqb_spec c u) as [-> | N]; cbn [orb]; [| lia].
  destruct (memb u t) eqn:M; [apply memb_In in M; contradiction | lia].
Qed.

Lemma unsettled_settled g u S : memb u S = true -> unsettled g (u :: S) = unsettled g S.
Proof.
  intros M. unfold unsettled. f_equal. apply map_ext. intros w.
  cbn [memb existsb]. fold (memb w S).
  destruct (Z.eqb_spec w u) as [-> | _]; [rewrite M |]; reflexivity.
Qed.

Lemma unsettled_new g u S : in_range u -> memb u S = false ->
  (unsettled g (u :: S) + List.length (adj_of g u))%nat = unsettled g S.
Proof.
  intros Ru M. unfold unsettled.
  rewrite (map_ext (fun w => if memb w S then O else List.length (adj_of g w))
             (fun w => ((if memb w (u :: S) then O else List.length (adj_of g w))
                        + (if Z.eqb w u then List.length (adj_of g u) else O))%nat)).
  - rewrite (list_sum_bump _ u _ cities NoDup_cities).
    rewrite (proj2 (memb_In u cities) (proj2 (In_cities u) Ru)). reflexivity.
  - intros w. cbn [memb existsb]. fold (memb w S).
    destruct (Z.eqb_spec w u) as [-> | _]; cbn [orb]; [rewrite M; reflexivity | lia].
Qed.

Lemma relax_pq_length speed u st e :
  (List.length (pq (relax speed u st e)) <= S (List.length (pq st)))%nat.
Proof.
  unfold relax. destruct (_ <? _)%float; cbn [pq]; [| lia].
  unfold pq_push. rewrite length_app. cbn [List.length]. lia.
Qed.

Lemma fold_relax_pq_length speed u es : forall st,
  (List.length (pq (fold_left (relax speed u) es st))
   <= List.length (pq st) + List.length es)%nat.
Proof.
  induction es as [| e t IH]; intros st; cbn [fold_left List.length]; [lia |].
  pose proof (IH (relax speed u st e)). pose proof (relax_pq_length speed u st e). lia.
Qed.

Lemma fold_fixed {A B} (f : A -> B -> A) es : forall a,
  (forall e, In e es -> f a e = a) -> fold_left f es a = a.
Proof.
  induction es as [| e t IH]; intros a H; cbn [fold_left]; [reflexivity |].
  rewrite (H e (or_introl eq_refl)). apply IH. intros x Hx. apply H. right. exact Hx.
Qed.

Lemma n_roads_addRoad u v dist traf ty name g g' :
  wf g -> addRoad u v dist traf ty name g = Some g' -> n_roads g' = (n_roads g + 2)%nat.
Proof.
  intros W A. unfold n_roads.
  destruct (adj_of_addRoad u v dist traf ty name g g' 0 W A) as (Ru & Rv & _).
  rewrite (map_ext (fun w => List.length (adj_of g' w))
             (fun w => ((List.length (adj_of g w) + (if Z.eqb w u then 1 else 0))
                        + (if Z.eqb w v then 1 else 0))%nat)).
  - rewrite (list_sum_bump _ v 1%nat cities NoDup_cities).
    rewrite (list_sum_bump _ u 1%nat cities NoDup_cities).
    rewrite (proj2 (memb_In u cities) (proj2 (In_cities u) Ru)).
    rewrite (proj2 (memb_In v cities) (proj2 (In_cities v) Rv)). lia.
  - intros w. destruct (adj_of_addRoad u v dist traf ty name g g' w W A) as (_ & _ & ->).
    rewrite !length_app. destruct (w =? u), (w =? v); reflexivity.
Qed.

Lemma n_roads_addCity id name g g' : addCity id name g = Some g' -> n_roads g' = n_roads g.
Proof.
  unfold addCity. destruct (id <? MAX_CITIES); [destruct (id <? 0) |]; intros E;
    try discriminate; injection E as <-; reflexivity.
Qed.

Lemma n_roads_build ops : forall g g', wf g -> build ops g = Some g' ->
  n_roads g' = (n_roads g + 2 * count_roads ops)%nat.
Proof.
  induction ops as [| o rest IH]; intros g g' W B; cbn [build] in B.
  - injection B as <-. cbn. lia.
  - destruct (apply_op o g) as [g1 |] eqn:A; [| discriminate].
    rewrite (IH g1 g' (wf_apply_op o g g1 W A) B).
    destruct o as [id name | u v dist traf ty name]; cbn [apply_op] in A.
    + rewrite (n_roads_addCity id name g g1 A). reflexivity.
    + rewrite (n_roads_addRoad u v dist traf ty name g g1 W A).
      unfold count_roads. cbn [filter List.length]. lia.
Qed.

Lemma backtrack_short par : forall n v p,
  backtrack n par v = Some p -> backtrack (S (List.length p)) par v = Some p.
Proof.
  induction n as [| n IH]; intros v p H; cbn [backtrack] in H; [discriminate |].
  destruct (v =? -1) eqn:E.
  - injection H as <-. cbn [backtrack List.length]. rewrite E. reflexivity.
  - destruct (backtrack n par (get (-1) par v)) as [p' |] eqn:B; [| discriminate].
    injection H as <-. cbn [List.length].
    change (backtrack (S (S (List.length p'))) par v)
      with (if v =? -1 then Some []
            else match backtrack (S (List.length p')) par (get (-1) par v) with
                 | Some p => Some (v :: p)
                 | None => None
                 end).
    rewrite E, (IH _ _ B). reflexivity.
Qed.

Section Turns.
Variables (g : RoutePlanner) (speed start : Z).

Hypothesis Wg : wf g.
Hypothesis Hroads : nonneg_roads g.
Hypothesis Hspeed : 0 < speed <= INT_MAX.
Hypothesis Hstart : in_range start.

(** A city popped a second time with its current time has nothing left to
    improve. *)
Lemma settled_fold_fixed S st u rest :
  Inv g speed start S (settled_roads g S) st -> In u S ->
  fold_left (relax speed u) (adj_of g u)
            (mkState rest (minTime st) (parent st) (fuelConsumed st) (pathDist st))
  = mkState rest (minTime st) (parent st) (fuelConsumed st) (pathDist st).
Proof.
  intros I Hu. apply fold_fixed. intros e He. apply relax_skip.
  set (st1 := mkState rest (minTime st) (parent st) (fuelConsumed st) (pathDist st)).
  change (mt st1 u) with (mt st u). change (mt st1 (destination e)) with (mt st (destination e)).
  pose proof (inv_T _ _ _ _ _ _ I u e (conj Hu He) He) as L.
  assert (Nu : Fnn (mt st u)) by apply (inv_nn _ _ _ _ _ _ I).
  assert (Nv : Fnn (mt st (destination e))) by apply (inv_nn _ _ _ _ _ _ I).
  destruct (add_nn _ _ Nu (seg_nn g speed Hroads Hspeed u e He)) as [Ns _].
  rewrite (ltb_nn _ _ Ns Nv). apply Z.ltb_ge. exact L.
Qed.

Lemma step_count S st st' top rest :
  Inv g speed start S (settled_roads g S) st ->
  pq_pop (pq st) = Some (top, rest) ->
  step g speed st = Some st' ->
  (List.length (pq st')
   + unsettled g (if (mt st (id top) <? timeCost top)%float then S else id top :: S)
   < List.length (pq st) + unsettled g S)%nat.
Proof.
  intros I P E.
  destruct (Inv_step_settled g speed start Wg Hroads Hspeed S st st' top rest I P E)
    as [Rt _].
  destruct (pq_pop_some _ _ _ P) as [_ Hlen]. rewrite Hlen.
  unfold step in E. rewrite P in E. fold (mt st (id top)) in E.
  destruct (mt st (id top) <? timeCost top)%float.
  - injection E as <-. cbn [pq]. lia.
  - injection E as <-. destruct (memb (id top) S) eqn:M.
    + rewrite (settled_fold_fixed S st (id top) rest I (proj1 (memb_In _ _) M)).
      rewrite (unsettled_settled g _ S M). cbn [pq]. lia.
    + pose proof (unsettled_new g (id top) S Rt M).
      pose proof (fold_relax_pq_length speed (id top) (adj_of g (id top))
                    (mkState rest (minTime st) (parent st) (fuelConsumed st) (pathDist st))) as L.
      cbn [pq] in L. lia.
Qed.

Lemma dijkstra_bounded : forall n S st,
  Inv g speed start S (settled_roads g S) st ->
  (List.length (pq st) + unsettled g S < n)%nat ->
  exists S' st', dijkstra n g speed st = Some st' /\
    Inv g speed start S' (settled_roads g S') st' /\ pq st' = [].
Proof.
  induction n as [| n IH]; intros S st I L; [lia |].
  cbn [dijkstra]. destruct (step g speed st) as [st1 |] eqn:E.
  - destruct (pq_pop (pq st)) as [[top rest] |] eqn:P.
    + destruct (Inv_step_settled g speed start Wg Hroads Hspeed S st st1 top rest I P E)
        as [_ I1].
      pose proof (step_count S st st1 top rest I P E) as C.
      apply (IH _ st1 I1). lia.
    + unfold step in E. rewrite P in E. discriminate.
  - exists S, st. split; [reflexivity | split; [exact I |]].
    unfold step in E. destruct (pq_pop (pq st)) as [[top rest] |] eqn:P.
    + destruct (_ <? _)%float; discriminate.
    + apply pq_pop_none, P.
Qed.

Lemma dijkstra_within_roads :
  exists S st, dijkstra (n_roads g + 2) g speed (initState start) = Some st /\
    Inv g speed start S (settled_roads g S) st /\ pq st = [].
Proof.
  apply (dijkstra_bounded (n_roads g + 2) []).
  - apply (Inv_weaken g speed start [] (fun _ _ => False));
      [intros u e [[] _] | apply (Inv_init g speed start Hspeed Hstart)].
  - unfold initState. cbn [pq pq_push app List.length].
    change (unsettled g []) with (n_roads g). lia.
Qed.

(** The cities met when walking the predecessors back are in the arrays
    and all different: there are at most [MAX_CITIES] of them. *)
Lemma backtrack_within S st v :
  Inv g speed start S (settled_roads g S) st ->
  in_range v -> FV (mt st v) < FV INF ->
  exists es cs,
    is_path g start es v /\ pathTime speed es = mt st v /\
    pathDistance es = pd st v /\ pathFuel speed es = fc st v /\
    backtrack (Z.to_nat MAX_CITIES + 1) (parent st) v = Some (v :: cs) /\
    rev (v :: cs) = start :: map destination es /\
    NoDup (start :: map destination es) /\
    (List.length es < Z.to_nat MAX_CITIES)%nat.
Proof.
  intros I Rv L.
  destruct (Inv_reached g speed start Hspeed S st v I Rv L)
    as (es & cs & n & P & Et & Ed & Ef & Bk & Rev & Sub & Nd).
  assert (Len : (List.length (v :: cs) <= Z.to_nat MAX_CITIES)%nat).
  { change (Z.to_nat MAX_CITIES) with (List.length cities).
    apply NoDup_incl_length; [exact Nd |].
    intros c [<- | Hc]; apply In_cities; [exact Rv |].
    apply (inv_S _ _ _ _ _ _ I c (Sub c Hc)). }
  exists es, cs.
  split; [exact P | split; [exact Et | split; [exact Ed | split; [exact Ef |]]]].
  split; [| split; [exact Rev | split]].
  - apply (backtrack_fuel_mono _ (Datatypes.S (List.length (v :: cs)))).
    + apply (backtrack_short _ n), Bk.
    + lia.
  - rewrite <- Rev. apply NoDup_rev, Nd.
  - apply (f_equal (@List.length Z)) in Rev.
    rewrite length_rev in Rev. cbn [List.length] in Rev, Len.
    rewrite length_map in Rev. lia.
Qed.
End Turns.

(** ** [findRoute] within a known number of turns *)

Lemma findRoute_within g start end_ speed :
  wf g -> nonneg_roads g -> validCity g start -> validCity g end_ ->
  0 < speed <= INT_MAX ->
  findRoute (n_roads g + Z.to_nat MAX_CITIES + 2) g start end_ speed = Some Unreachable \/
  exists r es,
    findRoute (n_roads g + Z.to_nat MAX_CITIES + 2) g start end_ speed = Some (Route r) /\
    is_path g start es end_ /\ route_of g speed start es r /\
    NoDup (start :: map destination es) /\
    Fnn (totalTime r) /\ FV (totalTime r) < FV INF.
Proof.
  intros W Hr Vs Ve Hs.
  pose proof (validCity_in_range g start W Vs) as Rs.
  pose proof (validCity_in_range g end_ W Ve) as Re.
  destruct (dijkstra_within_roads g speed start W Hr Hs Rs) as (S & st & D & I & _).
  apply (dijkstra_fuel_mono g speed _ (n_roads g + Z.to_nat MAX_CITIES + 2)) in D; [| lia].
  rewrite (findRoute_valid _ g start end_ speed Vs Ve), D.
  destruct (inv_nn _ _ _ _ _ _ I end_) as [Ne Le]. fold (mt st end_).
  rewrite (eqb_nn _ _ Ne Fnn_INF).
  destruct (Z.eqb_spec (FV (mt st end_)) (FV INF)) as [E | N]; [left; reflexivity |].
  right. assert (Lt : FV (mt st end_) < FV INF) by lia.
  destruct (backtrack_within g speed start Hs S st end_ I Re Lt)
    as (es & cs & P & Et & Ed & Ef & Bk & Rev & Nd & _).
  apply (backtrack_fuel_mono _ _ (n_roads g + Z.to_nat MAX_CITIES + 2)) in Bk; [| lia].
  unfold printDetailedReceipt. rewrite Bk. eexists _, es.
  split; [reflexivity |]. split; [exact P |].
  unfold route_of. cbn [totalTime totalDist totalFuel legs].
  fold (pd st end_) (fc st end_). rewrite Rev.
  split; [repeat split; congruence |]. split; [exact Nd |]. split; [exact Ne | exact Lt].
Qed.

Lemma findRoute_route_simple g start end_ speed fuel r :
  wf g -> nonneg_roads g -> validCity g start -> validCity g end_ ->
  0 < speed <= INT_MAX ->
  findRoute fuel g start end_ speed = Some (Route r) ->
  exists es,
    is_path g start es end_ /\ route_of g speed start es r /\
    NoDup (start :: map destination es) /\
    Fnn (totalTime r) /\ FV (totalTime r) < FV INF.
Proof.
  intros W Hr Vs Ve Hs F.
  destruct (findRoute_within g start end_ speed W Hr Vs Ve Hs) as [U | (r' & es & F' & H)].
  - pose proof (findRoute_deterministic _ _ _ _ _ _ _ _ F U). discriminate.
  - pose proof (findRoute_deterministic _ _ _ _ _ _ _ _ F F') as E.
    injection E as <-. exists es. exact H.
Qed.

(** ** How long a query takes *)

(** X6. With road lengths that are not negative and a speed
    [0 < speed <= INT_MAX], the loop of [findRoute] takes at most one turn
    per entry of the adjacency lists, that is two per call to [addRoad],
    and one more for the start; the whole of [findRoute], the walk back
    along the predecessors included, gives its answer within
    [MAX_CITIES] more steps. *)
Theorem findRoute_turn_bound ops g start end_ speed :
  build ops emptyPlanner = Some g ->
  nonneg_roads g ->
  0 < speed <= INT_MAX ->
  n_roads g = (2 * count_roads ops)%nat /\
  (0 <= start < MAX_CITIES ->
   exists st, dijkstra (n_roads g + 2) g speed (initState start) = Some st /\ pq st = []) /\
  exists o, findRoute (n_roads g + Z.to_nat MAX_CITIES + 2) g start end_ speed = Some o.
Proof.
  intros B Hr Hs. assert (Wg : wf g) by apply (wf_build ops _ _ wf_empty B).
  split; [| split].
  - rewrite (n_roads_build ops _ _ wf_empty B). reflexivity.
  - intros Rs.
    destruct (dijkstra_within_roads g speed start Wg Hr Hs Rs) as (S & st & D & _ & Q).
    exists st. split; assumption.
  - destruct (Z_lt_le_dec start 1) as [A | A];
      [exists InvalidCity; apply findRoute_check; unfold validCity; lia |].
    destruct (Z_lt_le_dec (cityCount g) start) as [A' | A'];
      [exists InvalidCity; apply findRoute_check; unfold validCity; lia |].
    destruct (Z_lt_le_dec end_ 1) as [A1 | A1];
      [exists InvalidCity; apply findRoute_check; unfold validCity; lia |].
    destruct (Z_lt_le_dec (cityCount g) end_) as [A1' | A1'];
      [exists InvalidCity; apply findRoute_check; unfold validCity; lia |].
    destruct (findRoute_within g start end_ speed Wg Hr (conj A A') (conj A1 A1') Hs)
      as [U | (r & _ & F & _)]; eauto.
Qed.

Lemma findRoute_turn_bound_witness :
  n_roads thePlanner = (2 * count_roads mapData)%nat /\
  (0 <= 1 < MAX_CITIES ->
   exists st, dijkstra (n_roads thePlanner + 2) thePlanner 60 (initState 1) = Some st /\
              pq st = []) /\
  exists o, findRoute (n_roads thePlanner + Z.to_nat MAX_CITIES + 2) thePlanner 1 13 60
            = Some o.
Proof.
  apply (findRoute_turn_bound mapData thePlanner 1 13 60).
  - vm_compute. reflexivity.
  - apply nonneg_roadsb_sound. vm_compute. reflexivity.
  - unfold INT_MAX. lia.
Defined.

(** ** Edge cases of a query *)

(** X7. A query from a registered city to itself returns a route with no
    leg and with every total at zero: 0 km, 0 h 0 m, 0 litres, cost 0. *)
Theorem same_city_query ops g c speed :
  build ops emptyPlanner = Some g ->
  nonneg_roads g ->
  registered ops c ->
  0 < speed <= INT_MAX ->
  findRoute (n_roads g + 2) g c c speed =
    Some (Route (mkReceipt (cityName g c) (cityName g c) speed [] 0 0 0 0 0 0)).
Proof.
  intros B Hr Rc Hs. assert (Wg : wf g) by apply (wf_build ops _ _ wf_empty B).
  assert (Vc : validCity g c) by apply (registered_valid ops _ _ _ B Rc).
  pose proof (validCity_in_range g c Wg Vc) as Ic.
  destruct (dijkstra_within_roads g speed c Wg Hr Hs Ic) as (S & st & D & I & _).
  rewrite (findRoute_valid _ g c c speed Vc Vc), D.
  destruct (inv_start _ _ _ _ _ _ I) as (Et & Ep & Ed & Ef).
  unfold mt in Et. unfold par in Ep. unfold pd in Ed. unfold fc in Ef.
  rewrite Et, Ed, Ef.
  replace (0 =? INF)%float with false by reflexivity.
  unfold printDetailedReceipt.
  replace (n_roads g + 2)%nat with (Datatypes.S (Datatypes.S (n_roads g))) by lia.
  cbn [backtrack]. destruct (Z.eqb_spec c (-1)) as [E | _]; [destruct Vc; lia |].
  rewrite Ep. rewrite Z.eqb_refl. cbn [rev app printLegs].
  reflexivity.
Qed.

Lemma same_city_query_witness :
  findRoute (n_roads thePlanner + 2) thePlanner 3 3 60 =
    Some (Route (mkReceipt (cityName thePlanner 3) (cityName thePlanner 3) 60 [] 0 0 0 0 0 0)).
Proof.
  apply (same_city_query mapData thePlanner 3 60).
  - vm_compute. reflexivity.
  - apply nonneg_roadsb_sound. vm_compute. reflexivity.
  - apply registered_mapData. lia.
  - unfold INT_MAX. lia.
Defined.

(** ** The rows of the itinerary *)

Lemma printLegs_real g : forall es u v, is_path g u es v ->
  Forall (real_leg g) (printLegs g (u :: map destination es)).
Proof.
  induction es as [| e t IH]; intros u v P; [constructor |].
  destruct P as [He Pt].
  change (printLegs g (u :: map destination (e :: t)))
    with (printLeg g u (destination e) :: printLegs g (destination e :: map destination t)).
  constructor; [| apply (IH _ v Pt)].
  destruct (printLeg_fields g u (destination e)) as (Hf & Ht & Hrd).
  destruct (findRoad_first (adj_of g u) (destination e) e He eq_refl) as (e1 & H1 & Hfr).
  rewrite Hfr in Hrd. injection Hrd as Hn Hc Hd.
  exists e1. rewrite Hf, Ht. repeat split; assumption.
Qed.

Lemma hops_map_destination : forall es u,
  map snd (hops (u :: map destination es)) = map destination es.
Proof.
  induction es as [| e t IH]; intros u; [reflexivity |].
  change (hops (u :: map destination (e :: t)))
    with ((u, destination e) :: hops (destination e :: map destination t)).
  cbn [map snd]. rewrite IH. reflexivity.
Qed.

(** X8. The itinerary of a returned route, on a planner built by
    [addCity]/[addRoad] with non-negative road lengths and for
    [0 < speed <= INT_MAX]: it passes through no city twice, so it has
    fewer than [MAX_CITIES] rows; and every row shows a road that exists,
    the first road in definition order between its two cities, with that
    road's name, traffic label and length (the defaults "Unknown" and 0 of
    the lookup are never shown). *)
Theorem route_rows_are_roads ops g start end_ speed fuel r :
  build ops emptyPlanner = Some g ->
  nonneg_roads g ->
  registered ops start -> registered ops end_ ->
  0 < speed <= INT_MAX ->
  findRoute fuel g start end_ speed = Some (Route r) ->
  NoDup (start :: map leg_to (legs r)) /\
  (List.length (legs r) < Z.to_nat MAX_CITIES)%nat /\
  Forall (real_leg g) (legs r).
Proof.
  intros B Hr Rs Re Hs F. assert (Wg : wf g) by apply (wf_build ops _ _ wf_empty B).
  assert (Vs : validCity g start) by apply (registered_valid ops _ _ _ B Rs).
  assert (Ve : validCity g end_) by apply (registered_valid ops _ _ _ B Re).
  destruct (findRoute_route_simple g start end_ speed fuel r Wg Hr Vs Ve Hs F)
    as (es & P & (_ & _ & _ & El) & Nd & _).
  assert (Et : map leg_to (legs r) = map destination es).
  { rewrite El.
    transitivity (map snd (map leg_ends (printLegs g (start :: map destination es)))).
    - rewrite map_map. reflexivity.
    - rewrite printLegs_ends. apply hops_map_destination. }
  split; [rewrite Et; exact Nd | split].
  - assert (In_r : forall c, In c (start :: map destination es) -> In c cities).
    { intros c Hc. apply In_cities.
      destruct Hc as [<- | Hc]; [apply (validCity_in_range g start Wg Vs) |].
      apply in_map_iff in Hc. destruct Hc as (e & <- & He).
      clear - P He Wg. revert start P. induction es as [| x t IH]; intros u P; [destruct He |].
      destruct P as [Hx Pt]. destruct He as [-> | He].
      - apply (proj2 (proj2 (proj2 Wg)) u e Hx).
      - apply (IH He _ Pt). }
    pose proof (NoDup_incl_length Nd In_r) as L.
    rewrite El, printLegs_length, length_map.
    cbn [List.length] in L. rewrite length_map in L.
    change (List.length cities) with (Z.to_nat MAX_CITIES) in L. lia.
  - rewrite El. apply (printLegs_real g es start end_ P).
Qed.

Lemma route_rows_are_roads_witness :
  NoDup (1 :: map leg_to (legs (the_route (findRoute 100 thePlanner 1 13 60)))) /\
  (List.length (legs (the_route (findRoute 100 thePlanner 1 13 60)))
   < Z.to_nat MAX_CITIES)%nat /\
  Forall (real_leg thePlanner) (legs (the_route (findRoute 100 thePlanner 1 13 60))).
Proof.
  apply (route_rows_are_roads mapData thePlanner 1 13 60 100).
  - vm_compute. reflexivity.
  - apply nonneg_roadsb_sound. vm_compute. reflexivity.
  - apply registered_mapData. lia.
  - apply registered_mapData. lia.
  - unfold INT_MAX. lia.
  - vm_compute. reflexivity.
Defined.

(** ** Fuel efficiency between 5 and 16 km/L *)

Lemma SFsub_le mx ex y :
  bounded prec emax mx ex = true -> valid_binary y = true -> SFnn y ->
  SFsign (SFsub prec emax (S754_finite false mx ex) y) = false ->
  SFmag (SFsub prec emax (S754_finite false mx ex) y) <= Zpos mx * 2 ^ (ex + 1074).
Proof.
  intros Bx Vy Ny. pose proof (bounded_inv mx ex Bx) as (Hex & _).
  destruct (SFnn_shape_of y Vy Ny) as [s | | my ey By].
  - intros _. cbn [SFsub SFmag]. lia.
  - cbn [SFsub negb SFsign]. discriminate.
  - pose proof (bounded_inv my ey By) as (Hey & _).
    cbn [SFsub cond_Zopp negb].
    set (ez := Z.min ex ey).
    pose proof (shl_align_spec mx ex ez) as [_ Hx].
    replace (Z.min ex ez) with ez in Hx by lia.
    set (mx' := fst (shl_align mx ex ez)) in *.
    set (my' := fst (shl_align my ey ez)) in *.
    assert (P2 : 0 < 2 ^ (ez + 1074)) by (apply Z.pow_pos_nonneg; lia).
    assert (Ev : Zpos mx' * 2 ^ (ez + 1074) = Zpos mx * 2 ^ (ex + 1074)).
    { rewrite Hx, <- Z.mul_assoc, <- (Z.pow_add_r 2 (ex - ez) (ez + 1074)) by lia.
      do 2 f_equal. lia. }
    change (Zpos mx' + Zneg my') with (Zpos mx' - Zpos my').
    destruct (Zpos mx' - Zpos my') as [| p | p] eqn:D; cbn [binary_normalize].
    + intros _. cbn [SFmag]. lia.
    + intros _. destruct (binary_round_spec false p ez) as (_ & _ & ->).
      rewrite Wscaled_int by lia.
      replace (2 * (Zpos p * 2 ^ (ez + 1075))) with (4 * (Zpos p * 2 ^ (ez + 1074))).
      2:{ replace (ez + 1075) with (1 + (ez + 1074)) by lia.
          rewrite (Z.pow_add_r 2 1 (ez + 1074)) by lia. change (2 ^ 1) with 2. ring. }
      rewrite <- (rho_canonical mx ex Bx), <- Ev.
      apply rho_mono. split; [lia |].
      apply Z.mul_le_mono_nonneg_l; [lia |].
      apply Z.mul_le_mono_nonneg_r; lia.
    + destruct (binary_round_spec true p ez) as (_ & -> & _). discriminate.
Qed.

Lemma leb_rank x y : (x <=? y)%float = true ->
  SFnan (Prim2SF x) = false /\ SFnan (Prim2SF y) = false /\ rank x <= rank y.
Proof.
  intros H.
  destruct (SFnan (Prim2SF x)) eqn:Nx.
  { rewrite leb_spec in H. destruct (Prim2SF x); discriminate. }
  destruct (SFnan (Prim2SF y)) eqn:Ny.
  { rewrite leb_spec in H. destruct (Prim2SF y); try discriminate.
    destruct (Prim2SF x); discriminate. }
  rewrite (leb_val x y Nx Ny) in H. apply Z.leb_le in H. auto.
Qed.

(** a float between two positive finite floats is positive and finite *)
Lemma Fpos_between a x b : Fpos a -> Fpos b ->
  (a <=? x)%float = true -> (x <=? b)%float = true -> Fpos x.
Proof.
  intros Pa Pb Ha Hb.
  destruct (leb_rank a x Ha) as (_ & Nx & La). destruct (leb_rank x b Hb) as (_ & _ & Lb).
  pose proof (Fpos_FV a Pa) as Ba. pose proof (Fpos_FV b Pb) as Bb.
  assert (Ra : rank a = FV a) by (apply SFval_nn, Fpos_nn, Pa).
  assert (Rb : rank b = FV b) by (apply SFval_nn, Fpos_nn, Pb).
  unfold rank, SFval, FV in *.
  apply classify_pos; [apply Prim2SF_valid | exact Nx | |];
    destruct (SFsign (Prim2SF x)); try reflexivity;
    pose proof (SFmag_bounds (Prim2SF x) (Prim2SF_valid x)); lia.
Qed.

Lemma Fpos_16 : Fpos 16.
Proof. eexists _, _. reflexivity. Qed.

Lemma sub_below b y : Fpos b -> Fnn y -> (5 <? b - y)%float = true ->
  (b <=? 16)%float = true -> (b - y <=? 16)%float = true.
Proof.
  intros Pb Ny H5 H16.
  destruct (ltb_rank _ _ H5) as (N5 & Nx & L5).
  destruct (leb_rank _ _ H16) as (_ & N16 & L16).
  rewrite (leb_val _ _ Nx N16). apply Z.leb_le.
  assert (Rb : rank b = FV b) by (apply SFval_nn, Fpos_nn, Pb).
  assert (R5 : 0 < rank 5) by (vm_compute; reflexivity).
  destruct Pb as (m & e & Hb). pose proof (Prim2SF_valid b) as Vb. rewrite Hb in Vb.
  pose proof (SFsub_le m e (Prim2SF y) Vb (Prim2SF_valid y) Ny) as Le.
  assert (Ex : SFsub prec emax (S754_finite false m e) (Prim2SF y) = Prim2SF (b - y))
    by (rewrite sub_spec, Hb; reflexivity).
  rewrite Ex in Le.
  pose proof (SFmag_bounds _ (Prim2SF_valid (b - y))) as Bm.
  unfold rank, SFval, FV in *. rewrite Hb in Rb, L16. cbn [SFmag SFsign] in Rb, L16.
  destruct (SFsign (Prim2SF (b - y))); [lia |].
  specialize (Le eq_refl). lia.
Qed.

Lemma efficiency_range speed ty :
  (5 <=? calculateFuelEfficiency speed ty)%float = true /\
  (calculateFuelEfficiency speed ty <=? 16)%float = true.
Proof.
  unfold calculateFuelEfficiency. rewrite Z.gtb_ltb.
  destruct (Z.ltb_spec 90 speed) as [Hi | Lo].
  - split; [apply fmax_floor |].
    assert (E : int_to_double (speed - 90) = of_uint63 (Uint63.of_Z (speed - 90))).
    { unfold int_to_double. destruct (Z.ltb_spec (speed - 90) 0); [lia | reflexivity]. }
    rewrite E. unfold fmax.
    destruct (5 <? _)%float eqn:C; [| reflexivity].
    apply sub_below; [apply base_Fpos | apply drop_nn | exact C |].
    destruct ty; reflexivity.
  - destruct (speed <? 40); destruct ty; split; reflexivity.
Qed.

Lemma efficiency_Fpos speed ty : Fpos (calculateFuelEfficiency speed ty).
Proof.
  destruct (efficiency_range speed ty) as [Lo Hi].
  apply (Fpos_between 5 _ 16 Fpos_5 Fpos_16 Lo Hi).
Qed.

(** X9. Whatever the speed (zero and negative ones too) and the road
    type, [calculateFuelEfficiency] returns a number between 5.0 and 16.0:
    the division by the efficiency in [findRoute] is never a division by
    zero, by a negative number or by a NaN. *)
Theorem fuel_efficiency_bounds speed ty :
  (5 <=? calculateFuelEfficiency speed ty)%float = true /\
  (calculateFuelEfficiency speed ty <=? 16)%float = true /\
  (0 <? calculateFuelEfficiency speed ty)%float = true.
Proof.
  destruct (efficiency_range speed ty) as [Lo Hi].
  split; [exact Lo | split; [exact Hi |]].
  pose proof (efficiency_Fpos speed ty) as P.
  rewrite (ltb_nn _ _ Fnn_0 (Fpos_nn _ P)). apply Z.ltb_lt.
  rewrite FV_0. apply (Fpos_FV _ P).
Qed.

(** ** The numbers of the receipt *)

Lemma findRoute_receipt fuel g start end_ speed r :
  findRoute fuel g start end_ speed = Some (Route r) ->
  origin r = cityName g start /\ destinationName r = cityName g end_ /\
  avgSpeed r = speed /\
  hrs r = Z.quot (double_to_int (totalTime r)) 60 /\
  mins r = Z.rem (double_to_int (totalTime r)) 60 /\
  cost r = (totalFuel r * PRICE_PETROL)%float.
Proof.
  unfold findRoute. destruct (_ || _); [discriminate |].
  destruct (dijkstra fuel g speed (initState start)) as [st |]; [| discriminate].
  destruct (_ =? _)%float; [discriminate |].
  unfold printDetailedReceipt.
  destruct (backtrack fuel (parent st) end_) as [p |]; [| discriminate].
  intros E. injection E as <-. cbn. repeat split.
Qed.

Lemma FV_INF : FV INF = 1000000000 * 2 ^ 1074.
Proof. vm_compute. reflexivity. Qed.

(** [(int)x] of a number from zero to below [INF] is in the range of an
    [int]. *)
Lemma double_to_int_range x : Fnn x -> FV x < FV INF ->
  0 <= double_to_int x < 1000000000.
Proof.
  intros Nx L. rewrite FV_INF in L. unfold double_to_int, FV in *.
  pose proof (Prim2SF_valid x) as V.
  destruct (SFnn_shape_of _ V Nx) as [s | | m e B]; try lia.
  cbn [SFmag] in L. pose proof (bounded_inv m e B) as (He & _).
  assert (P : 0 < 2 ^ 1074) by (apply Z.pow_pos_nonneg; lia).
  destruct e as [| k | k].
  - rewrite Z.shiftl_0_r. change (2 ^ (0 + 1074)) with (2 ^ 1074) in L. nia.
  - rewrite Z.shiftl_mul_pow2 by lia.
    rewrite (Z.pow_add_r 2 (Zpos k) 1074) in L by lia.
    assert (0 < 2 ^ Zpos k) by (apply Z.pow_pos_nonneg; lia).
    split; [lia |]. rewrite Z.mul_assoc in L.
    apply (Z.mul_lt_mono_pos_r (2 ^ 1074)); assumption.
  - rewrite Z.shiftr_div_pow2 by lia.
    assert (Q : 0 < 2 ^ Zpos k) by (apply Z.pow_pos_nonneg; lia).
    split; [apply Z.div_pos; lia |].
    apply Z.div_lt_upper_bound; [exact Q |].
    assert (E : 2 ^ 1074 = 2 ^ Zpos k * 2 ^ (Zneg k + 1074)).
    { rewrite <- (Z.pow_add_r 2 (Zpos k) (Zneg k + 1074)) by lia. f_equal. lia. }
    rewrite E in L.
    assert (R : 0 < 2 ^ (Zneg k + 1074)) by (apply Z.pow_pos_nonneg; lia).
    apply (Z.mul_lt_mono_pos_r (2 ^ (Zneg k + 1074))); [exact R |].
    replace (2 ^ Z.pos k * 1000000000 * 2 ^ (Z.neg k + 1074))
      with (1000000000 * (2 ^ Z.pos k * 2 ^ (Z.neg k + 1074))) by ring.
    exact L.
Qed.

Lemma pathDistance_nn g : nonneg_roads g -> forall es u v acc,
  is_path g u es v -> Fnn acc ->
  Fnn (fold_left (fun t e => (t + distanceKM e)%float) es acc).
Proof.
  intros Hr. induction es as [| e t IH]; intros u v acc P N; cbn [fold_left]; [exact N |].
  destruct P as [He Pt]. apply (IH _ v _ Pt).
  apply add_nn; [exact N | apply Fnn_of_leb, (Hr u e He)].
Qed.

Lemma pathFuel_nn g speed : nonneg_roads g -> forall es u v acc,
  is_path g u es v -> Fnn acc ->
  Fnn (fold_left (fun t e => (t + segFuel speed e)%float) es acc).
Proof.
  intros Hr. induction es as [| e t IH]; intros u v acc P N; cbn [fold_left]; [exact N |].
  destruct P as [He Pt]. apply (IH _ v _ Pt).
  apply add_nn; [exact N |]. unfold segFuel, segmentFuel.
  apply div_nn; [apply Fnn_of_leb, (Hr u e He) | apply efficiency_Fpos].
Qed.

Lemma Fpos_PRICE : Fpos PRICE_PETROL.
Proof. eexists _, _. reflexivity. Qed.

Lemma leb_0_of_Fnn x : Fnn x -> (0 <=? x)%float = true.
Proof.
  intros N. apply (leb_of_FV _ _ Fnn_0 N). rewrite FV_0. apply FV_bounds.
Qed.

(** X10. The totals of a returned route, on a planner built by
    [addCity]/[addRoad] with non-negative road lengths and for
    [0 < speed <= INT_MAX]: the time is a number from zero to below
    [INF] = 1e9 minutes, so its conversion to [int] stays in range, and
    the receipt shows [hrs] hours and [mins] minutes with
    [hrs * 60 + mins] the whole minutes of the time and [0 <= mins < 60];
    the distance, the fuel and the cost are numbers, none of them negative
    or a NaN. *)
Theorem receipt_numbers ops g start end_ speed fuel r :
  build ops emptyPlanner = Some g ->
  nonneg_roads g ->
  registered ops start -> registered ops end_ ->
  0 < speed <= INT_MAX ->
  findRoute fuel g start end_ speed = Some (Route r) ->
  (0 <=? totalTime r)%float = true /\ (totalTime r <? INF)%float = true /\
  0 <= double_to_int (totalTime r) < 1000000000 /\
  hrs r * 60 + mins r = double_to_int (totalTime r) /\
  0 <= mins r < 60 /\ 0 <= hrs r < 16666667 /\
  (0 <=? totalDist r)%float = true /\
  (0 <=? totalFuel r)%float = true /\
  (0 <=? cost r)%float = true /\
  cost r = (totalFuel r * 280)%float.
Proof.
  intros B Hr Rs Re Hs F. assert (Wg : wf g) by apply (wf_build ops _ _ wf_empty B).
  assert (Vs : validCity g start) by apply (registered_valid ops _ _ _ B Rs).
  assert (Ve : validCity g end_) by apply (registered_valid ops _ _ _ B Re).
  destruct (findRoute_route_simple g start end_ speed fuel r Wg Hr Vs Ve Hs F)
    as (es & P & (_ & Ed & Ef & _) & _ & Nt & Lt).
  destruct (findRoute_receipt fuel g start end_ speed r F) as (_ & _ & _ & Eh & Em & Ec).
  pose proof (double_to_int_range _ Nt Lt) as Ri.
  assert (Nd : Fnn (totalDist r)).
  { rewrite Ed. apply (pathDistance_nn g Hr es start end_ 0%float P Fnn_0). }
  assert (Nf : Fnn (totalFuel r)).
  { rewrite Ef. apply (pathFuel_nn g speed Hr es start end_ 0%float P Fnn_0). }
  split; [apply leb_0_of_Fnn, Nt |].
  split; [rewrite (ltb_nn _ _ Nt Fnn_INF); apply Z.ltb_lt, Lt |].
  split; [exact Ri |].
  pose proof (Z.quot_rem' (double_to_int (totalTime r)) 60) as QR.
  pose proof (Z.rem_bound_pos (double_to_int (totalTime r)) 60 ltac:(lia) ltac:(lia)) as RB.
  pose proof (Z.quot_pos (double_to_int (totalTime r)) 60 ltac:(lia) ltac:(lia)) as QP.
  rewrite Eh, Em.
  split; [lia |]. split; [lia |]. split; [lia |].
  split; [apply leb_0_of_Fnn, Nd |]. split; [apply leb_0_of_Fnn, Nf |].
  split; [| exact Ec].
  rewrite Ec. apply leb_0_of_Fnn. apply mul_nn; [exact Nf | apply Fpos_PRICE].
Qed.

Lemma receipt_numbers_witness :
  (0 <=? totalTime (the_route (findRoute 100 thePlanner 1 13 60)))%float = true /\
  (totalTime (the_route (findRoute 100 thePlanner 1 13 60)) <? INF)%float = true /\
  0 <= double_to_int (totalTime (the_route (findRoute 100 thePlanner 1 13 60)))
    < 1000000000 /\
  hrs (the_route (findRoute 100 thePlanner 1 13 60)) * 60
    + mins (the_route (findRoute 100 thePlanner 1 13 60))
    = double_to_int (totalTime (the_route (findRoute 100 thePlanner 1 13 60))) /\
  0 <= mins (the_route (findRoute 100 thePlanner 1 13 60)) < 60 /\
  0 <= hrs (the_route (findRoute 100 thePlanner 1 13 60)) < 16666667 /\
  (0 <=? totalDist (the_route (findRoute 100 thePlanner 1 13 60)))%float = true /\
  (0 <=? totalFuel (the_route (findRoute 100 thePlanner 1 13 60)))%float = true /\
  (0 <=? cost (the_route (findRoute 100 thePlanner 1 13 60)))%float = true /\
  cost (the_route (findRoute 100 thePlanner 1 13 60))
    = (totalFuel (the_route (findRoute 100 thePlanner 1 13 60)) * 280)%float.
Proof.
  apply (receipt_numbers mapData thePlanner 1 13 60 100).
  - vm_compute. reflexivity.
  - apply nonneg_roadsb_sound. vm_compute. reflexivity.
  - apply registered_mapData. lia.
  - apply registered_mapData. lia.
  - unfold INT_MAX. lia.
  - vm_compute. reflexivity.
Defined.

(** ** The label of a row *)

Lemma length_substring0 : forall n s, (n <= String.length s)%nat ->
  String.length (substring 0 n s) = n.
Proof.
  induction n as [| n IH]; intros s L.
  - destruct s; reflexivity.
  - destruct s as [| c s']; cbn [String.length] in L; [lia |].
    cbn [substring String.length]. rewrite IH by lia. reflexivity.
Qed.

Lemma prefix_substring0 : forall n s, prefix (substring 0 n s) s = true.
Proof.
  induction n as [| n IH]; intros s.
  - destruct s; reflexivity.
  - destruct s as [| c s']; [reflexivity |].
    cbn [substring prefix]. destruct (ascii_dec c c) as [_ | N]; [apply IH | destruct N; reflexivity].
Qed.

Lemma prefix_refl : forall s, prefix s s = true.
Proof.
  induction s as [| c s IH]; [reflexivity |].
  cbn [prefix]. destruct (ascii_dec c c) as [_ | N]; [exact IH | destruct N; reflexivity].
Qed.

(** X11. The label of a row of the itinerary is the text "from->to" of
    the two city names cut to its first 18 characters: the full text when
    it has 18 characters or fewer, and its first 18 characters, no more
    and no fewer, when it is longer. *)
Theorem leg_label_at_most_18 g u v :
  (String.length (leg (printLeg g u v)) <= 18)%nat /\
  prefix (leg (printLeg g u v)) (cityName g u ++ "->" ++ cityName g v) = true /\
  ((String.length (cityName g u ++ "->" ++ cityName g v) <= 18)%nat ->
   leg (printLeg g u v) = (cityName g u ++ "->" ++ cityName g v)%string) /\
  ((18 < String.length (cityName g u ++ "->" ++ cityName g v))%nat ->
   String.length (leg (printLeg g u v)) = 18%nat /\
   leg (printLeg g u v) = substring 0 18 (cityName g u ++ "->" ++ cityName g v)) /\
  String.length (leg (printLeg g u v))
    = Nat.min 18 (String.length (cityName g u ++ "->" ++ cityName g v)).
Proof.
  unfold printLeg. destruct (findRoad (adj_of g u) v) as [[x y] z]. cbn [leg].
  set (s := (cityName g u ++ "->" ++ cityName g v)%string).
  destruct (Nat.ltb_spec 18 (String.length s)) as [L | L].
  - pose proof (length_substring0 18 s ltac:(lia)) as E.
    split; [lia |]. split; [apply prefix_substring0 |]. split; [lia |].
    split; [intros _; split; [exact E | reflexivity] | lia].
  - split; [exact L | split; [apply prefix_refl | split; [reflexivity |]]].
    split; [lia | lia].
Qed.

(** ** Longer roads and worse traffic *)

Lemma div_mono_num a b c : Fnn a -> Fnn b -> Fpos c ->
  FV a <= FV b -> FV (a / c) <= FV (b / c).
Proof.
  intros Na Nb Pc H.
  destruct (div_nn a c Na Pc) as [_ ->]. destruct (div_nn b c Nb Pc) as [_ ->].
  pose proof (FV_bounds a). pose proof (FV_bounds b). pose proof (Fpos_FV c Pc).
  assert (0 < 2 ^ 1075) by (apply Z.pow_pos_nonneg; lia).
  destruct (Z.eqb_spec (FV b) TOP) as [Tb | Fb].
  - destruct (FV a =? TOP); [lia | apply rho_le_TOP].
  - destruct (Z.eqb_spec (FV a) TOP) as [Ta | Fa]; [lia |].
    apply rho_mono. split.
    + apply Wfrac_nonneg; [lia | nia].
    + apply Wfrac_mono_num; [lia | nia].
Qed.

Lemma mul_mono_r x c1 c2 : Fnn x -> Fpos c1 -> Fpos c2 ->
  FV c1 <= FV c2 -> FV (x * c1) <= FV (x * c2).
Proof.
  intros Nx P1 P2 H.
  destruct (mul_nn x c1 Nx P1) as [_ ->]. destruct (mul_nn x c2 Nx P2) as [_ ->].
  pose proof (FV_bounds x). pose proof (Fpos_FV c1 P1). pose proof (Fpos_FV c2 P2).
  destruct (FV x =? TOP); [lia |].
  apply rho_mono. split.
  - apply Wfrac_nonneg; [apply Z.pow_pos_nonneg; lia | nia].
  - apply Wfrac_mono_num; [apply Z.pow_pos_nonneg; lia | nia].
Qed.

Lemma Fnn_above a b : Fnn a -> (a <=? b)%float = true -> Fnn b /\ FV a <= FV b.
Proof.
  intros Na H. destruct (leb_rank a b H) as (_ & Nb & L).
  assert (Ra : rank a = FV a) by (apply SFval_nn, Na).
  pose proof (FV_bounds a) as Ba. unfold rank, SFval, FV, Fnn, SFnn in *.
  destruct (SFsign (Prim2SF b)) eqn:Sb.
  - pose proof (SFmag_bounds _ (Prim2SF_valid b)).
    split; [split; [exact Nb | intros _; lia] | lia].
  - split; [split; [exact Nb | discriminate] | lia].
Qed.

Lemma multiplier_mono l1 l2 : 0 <= l1 <= l2 -> l2 <= 3 ->
  FV (getTrafficMultiplier l1) <= FV (getTrafficMultiplier l2).
Proof.
  intros H1 H2.
  assert (A : FV 1.0 <= FV 1.2) by (vm_compute; discriminate).
  assert (B : FV 1.2 <= FV 1.5) by (vm_compute; discriminate).
  assert (C : FV 1.5 <= FV 2.5) by (vm_compute; discriminate).
  assert (E1 : l1 = 0 \/ l1 = 1 \/ l1 = 2 \/ l1 = 3) by lia.
  assert (E2 : l2 = 0 \/ l2 = 1 \/ l2 = 2 \/ l2 = 3) by lia.
  destruct E1 as [-> | [-> | [-> | ->]]]; destruct E2 as [-> | [-> | [-> | ->]]];
    try lia; cbn [getTrafficMultiplier]; lia.
Qed.

(** X12. The cost of one road grows with its length and with the traffic:
    for [0 < speed <= INT_MAX], lengths [0 <= d1 <= d2] and traffic levels
    [0 <= l1 <= l2 <= 3] (Clear, Moderate, Heavy, Jammed), the travel time
    of the longer, busier road is not smaller, and neither is the fuel of
    the longer road, whatever the road type. *)
Theorem segment_cost_monotone d1 d2 speed l1 l2 ty :
  0 < speed <= INT_MAX ->
  (0 <=? d1)%float = true -> (d1 <=? d2)%float = true ->
  0 <= l1 <= l2 -> l2 <= 3 ->
  (realTime d1 speed l1 <=? realTime d2 speed l2)%float = true /\
  (segmentFuel d1 speed ty <=? segmentFuel d2 speed ty)%float = true.
Proof.
  intros Hs H0 H12 Hl1 Hl2.
  pose proof (Fnn_of_leb d1 H0) as N1.
  destruct (Fnn_above d1 d2 N1 H12) as [N2 L].
  destruct (int_to_double_spec speed Hs) as [Ps _].
  pose proof (Fpos_multiplier l1) as M1. pose proof (Fpos_multiplier l2) as M2.
  assert (B1 : Fnn (d1 / int_to_double speed * 60)).
  { apply mul_nn; [apply div_nn; assumption | apply Fpos_60]. }
  assert (B2 : Fnn (d2 / int_to_double speed * 60)).
  { apply mul_nn; [apply div_nn; assumption | apply Fpos_60]. }
  split.
  - unfold realTime. apply leb_of_FV; [apply mul_nn; assumption | apply mul_nn; assumption |].
    apply Z.le_trans with (FV (d1 / int_to_double speed * 60 * getTrafficMultiplier l2)).
    + apply mul_mono_r; [exact B1 | exact M1 | exact M2 | apply multiplier_mono; assumption].
    + apply mul_mono; [exact B1 | exact B2 | exact M2 |].
      apply mul_mono; [apply div_nn; assumption | apply div_nn; assumption | apply Fpos_60 |].
      apply div_mono_num; assumption.
  - unfold segmentFuel. pose proof (efficiency_Fpos speed ty) as Pe.
    apply leb_of_FV; [apply div_nn; assumption | apply div_nn; assumption |].
    apply div_mono_num; assumption.
Qed.

Lemma segment_cost_monotone_witness :
  (realTime 100 60 LOW <=? realTime 150 60 JAMMED)%float = true /\
  (segmentFuel 100 60 LOCAL <=? segmentFuel 150 60 LOCAL)%float = true.
Proof.
  apply (segment_cost_monotone 100 150 60 LOW JAMMED LOCAL).
  - unfold INT_MAX. lia.
  - reflexivity.
  - reflexivity.
  - unfold LOW, JAMMED. lia.
  - unfold JAMMED. lia.
Defined.

(** ** One more road *)

Lemma build_snoc ops o : forall g g1 g',
  build ops g = Some g1 -> apply_op o g1 = Some g' -> build (ops ++ [o]) g = Some g'.
Proof.
  induction ops as [| x t IH]; intros g g1 g' B A; cbn [build app] in *.
  - injection B as <-. rewrite A. reflexivity.
  - destruct (apply_op x g) as [g2 |]; [| discriminate]. apply (IH g2 g1 g' B A).
Qed.

Lemma registered_app ops more c : registered ops c -> registered (ops ++ more) c.
Proof.
  intros [R (name & H)]. split; [exact R |]. exists name. apply in_or_app. left. exact H.
Qed.

Lemma adj_of_addRoad_incl u v dist traf ty name g g' w e :
  wf g -> addRoad u v dist traf ty name g = Some g' ->
  In e (adj_of g w) -> In e (adj_of g' w).
Proof.
  intros W A H. destruct (adj_of_addRoad u v dist traf ty name g g' w W A) as (_ & _ & ->).
  apply in_or_app. left. apply in_or_app. left. exact H.
Qed.

Lemma is_path_addRoad u v dist traf ty name g g' :
  wf g -> addRoad u v dist traf ty name g = Some g' ->
  forall es a b, is_path g a es b -> is_path g' a es b.
Proof.
  intros W A. induction es as [| e t IH]; intros a b P; [exact P |].
  destruct P as [He Pt]. split; [| apply IH, Pt].
  apply (adj_of_addRoad_incl u v dist traf ty name g g' a e W A He).
Qed.

Lemma nonneg_roads_addRoad u v dist traf ty name g g' :
  wf g -> nonneg_roads g -> (0 <=? dist)%float = true ->
  addRoad u v dist traf ty name g = Some g' -> nonneg_roads g'.
Proof.
  intros W Hr Hd A w e He.
  destruct (adj_of_addRoad u v dist traf ty name g g' w W A) as (_ & _ & Ew).
  rewrite Ew in He. apply in_app_or in He.
  destruct He as [He | He]; [apply in_app_or in He; destruct He as [He | He] |].
  - apply (Hr w e He).
  - destruct (w =? u); [| destruct He]. destruct He as [<- | []]. exact Hd.
  - destruct (w =? v); [| destruct He]. destruct He as [<- | []]. exact Hd.
Qed.

(** X13. One more road never makes a trip longer: when a query returns a
    route on a planner built by [addCity]/[addRoad] with non-negative road
    lengths, the same query on the planner with one more road (of a
    length that is not negative, between two cities inside the arrays)
    returns a route again, with a total time that is not greater. *)
Theorem addRoad_never_slower ops g u v dist traf ty name start end_ speed fuel r :
  build ops emptyPlanner = Some g ->
  nonneg_roads g ->
  registered ops start -> registered ops end_ ->
  0 < speed <= INT_MAX ->
  0 <= u < MAX_CITIES -> 0 <= v < MAX_CITIES ->
  (0 <=? dist)%float = true ->
  findRoute fuel g start end_ speed = Some (Route r) ->
  exists g' fuel' r',
    addRoad u v dist traf ty name g = Some g' /\
    findRoute fuel' g' start end_ speed = Some (Route r') /\
    (totalTime r' <=? totalTime r)%float = true.
Proof.
  intros B Hr Rs Re Hs Ru Rv Hd F.
  assert (Wg : wf g) by apply (wf_build ops _ _ wf_empty B).
  assert (Vs : validCity g start) by apply (registered_valid ops _ _ _ B Rs).
  assert (Ve : validCity g end_) by apply (registered_valid ops _ _ _ B Re).
  destruct (addRoad_defined u v dist traf ty name g Ru Rv) as [g' A].
  assert (Wg' : wf g') by apply (wf_addRoad u v dist traf ty name g g' Wg A).
  pose proof (nonneg_roads_addRoad u v dist traf ty name g g' Wg Hr Hd A) as Hr'.
  destruct (addRoad_names _ _ _ _ _ _ _ _ A) as [_ Ec].
  assert (Vs' : validCity g' start) by (unfold validCity in *; rewrite Ec; exact Vs).
  assert (Ve' : validCity g' end_) by (unfold validCity in *; rewrite Ec; exact Ve).
  destruct (findRoute_route g start end_ speed fuel r Wg Hr Vs Ve Hs F)
    as (es & P & (Et & _) & Lt & Nt & _).
  pose proof (is_path_addRoad u v dist traf ty name g g' Wg A es start end_ P) as P'.
  destruct (findRoute_outcome g' start end_ speed Wg' Hr' Vs' Ve' Hs)
    as [fuel' [[Hall _] | (r' & es' & F' & _ & _ & _ & Nt' & Hopt)]].
  - specialize (Hall es P'). rewrite Et in Lt. lia.
  - exists g', fuel', r'. split; [exact A | split; [exact F' |]].
    apply (leb_of_FV _ _ Nt' Nt). rewrite Et. apply (Hopt es P').
Qed.

Lemma addRoad_never_slower_witness :
  exists g' fuel' r',
    addRoad 1 13 500 LOW MOTORWAY "Airlift" thePlanner = Some g' /\
    findRoute fuel' g' 1 13 60 = Some (Route r') /\
    (totalTime r' <=? totalTime (the_route (findRoute 100 thePlanner 1 13 60)))%float = true.
Proof.
  apply (addRoad_never_slower mapData thePlanner 1 13 500 LOW MOTORWAY "Airlift" 1 13 60 100).
  - vm_compute. reflexivity.
  - apply nonneg_roadsb_sound. vm_compute. reflexivity.
  - apply registered_mapData. lia.
  - apply registered_mapData. lia.
  - unfold INT_MAX. lia.
  - unfold MAX_CITIES. lia.
  - unfold MAX_CITIES. lia.
  - reflexivity.
  - vm_compute. reflexivity.
Defined.

(** ** The queries [main] makes *)

Lemma In_Zrange lo hi x : lo <= x <= hi -> In x (Zrange lo hi).
Proof.
  intros H. unfold Zrange. apply in_map_iff. exists (Z.to_nat (x - lo)).
  split; [lia | apply in_seq; lia].
Qed.

Lemma main_queries_checked :
  forallb (fun s =>
    forallb (fun e =>
      forallb (fun v => is_route_under 100 (findRoute 60 thePlanner s e v))
              (Zrange 40 160))
            (Zrange 1 15))
          (Zrange 1 15) = true.
Proof. vm_compute. reflexivity. Qed.

(** X14. Every query [main] can make is answered with a route: for the
    map of the program and every start, destination and speed that pass
    the input loops of [main], [findRoute] prints neither "Invalid City
    ID" nor "No road connection", within 60 turns, and the estimated time
    is under 100 hours. *)
Theorem main_queries_succeed source dest speedInput :
  main_accepts source dest speedInput = true ->
  exists r,
    findRoute 60 thePlanner source dest speedInput = Some (Route r) /\
    hrs r < 100.
Proof.
  unfold main_accepts. intros H.
  apply andb_true_iff in H. destruct H as [H Hv].
  apply andb_true_iff in H. destruct H as [Hs Hd].
  apply andb_true_iff in Hs, Hd, Hv.
  pose proof main_queries_checked as C.
  rewrite forallb_forall in C. specialize (C source (In_Zrange 1 15 source ltac:(lia))).
  rewrite forallb_forall in C. specialize (C dest (In_Zrange 1 15 dest ltac:(lia))).
  rewrite forallb_forall in C.
  specialize (C speedInput (In_Zrange 40 160 speedInput ltac:(lia))).
  unfold is_route_under in C.
  destruct (findRoute 60 thePlanner source dest speedInput) as [[| | r] |];
    try discriminate.
  exists r. split; [reflexivity | apply Z.ltb_lt, C].
Qed.

Lemma main_queries_succeed_witness :
  exists r, findRoute 60 thePlanner 1 13 40 = Some (Route r) /\ hrs r < 100.
Proof.
  apply (main_queries_succeed 1 13 40). reflexivity.
Defined.

(** ** Registered cities and the range check *)

(** X15. When the registered identifiers leave no gap, that is when every
    identifier from 1 to the city count is registered, the check of
    [findRoute] is a check of registration: "Invalid City ID" is the
    answer exactly when the start or the end is not a registered city. *)
Theorem no_gap_check_is_registration ops g fuel start end_ speed :
  build ops emptyPlanner = Some g ->
  (forall c, 1 <= c <= cityCount g -> registered ops c) ->
  (findRoute fuel g start end_ speed = Some InvalidCity <->
   ~ (registered ops start /\ registered ops end_)).
Proof.
  intros B Full. rewrite findRoute_check. split.
  - intros N [Rs Re]. apply N. split; apply (registered_valid ops _ _ _ B); assumption.
  - intros N [Vs Ve]. apply N. split; apply Full; assumption.
Qed.

Lemma no_gap_check_is_registration_witness :
  findRoute 10 thePlanner 16 1 60 = Some InvalidCity <->
  ~ (registered mapData 16 /\ registered mapData 1).
Proof.
  apply (no_gap_check_is_registration mapData thePlanner 10 16 1 60).
  - vm_compute. reflexivity.
  - intros c H. apply registered_mapData. exact H.
Defined.

(** ** No path, either way *)

Lemma reachable_sym g a b : symmetric g -> reachable g a b -> reachable g b a.
Proof.
  intros S [es P]. destruct (reverse_path g 1 S es a b P) as (es' & P' & _).
  exists es'. exact P'.
Qed.

(** X16. Roads go both ways, so being cut off goes both ways: on a
    planner built by [addCity]/[addRoad] there is a path from [a] to [b]
    exactly when there is one from [b] to [a]; and when there is none,
    with road lengths that are not negative and [0 < speed <= INT_MAX],
    the query between the registered cities [a] and [b] is answered "no
    road connection" in both directions, within one turn per entry of
    the adjacency lists and [MAX_CITIES + 2] more, and never otherwise. *)
Theorem cut_off_both_ways ops g a b speed :
  build ops emptyPlanner = Some g ->
  nonneg_roads g ->
  registered ops a -> registered ops b ->
  0 < speed <= INT_MAX ->
  (reachable g a b <-> reachable g b a) /\
  (~ reachable g a b ->
   findRoute (n_roads g + Z.to_nat MAX_CITIES + 2) g a b speed = Some Unreachable /\
   findRoute (n_roads g + Z.to_nat MAX_CITIES + 2) g b a speed = Some Unreachable /\
   (forall fuel o, findRoute fuel g a b speed = Some o \/
                   findRoute fuel g b a speed = Some o -> o = Unreachable)).
Proof.
  intros B Hr Ra Rb Hs.
  assert (Wg : wf g) by apply (wf_build ops _ _ wf_empty B).
  assert (Sg : symmetric g) by apply (symmetric_build ops _ _ wf_empty symmetric_empty B).
  assert (Va : validCity g a) by apply (registered_valid ops _ _ _ B Ra).
  assert (Vb : validCity g b) by apply (registered_valid ops _ _ _ B Rb).
  split; [split; apply reachable_sym, Sg |].
  intros N. assert (N' : ~ reachable g b a) by (intros R; apply N, (reachable_sym g b a Sg R)).
  assert (F1 : findRoute (n_roads g + Z.to_nat MAX_CITIES + 2) g a b speed = Some Unreachable).
  { destruct (findRoute_within g a b speed Wg Hr Va Vb Hs) as [U | (r & es & _ & P & _)];
      [exact U | destruct N; exists es; exact P]. }
  assert (F2 : findRoute (n_roads g + Z.to_nat MAX_CITIES + 2) g b a speed = Some Unreachable).
  { destruct (findRoute_within g b a speed Wg Hr Vb Va Hs) as [U | (r & es & _ & P & _)];
      [exact U | destruct N'; exists es; exact P]. }
  split; [exact F1 | split; [exact F2 |]].
  intros fuel o [H | H]; symmetry.
  - apply (findRoute_deterministic _ _ _ _ _ _ _ _ F1 H).
  - apply (findRoute_deterministic _ _ _ _ _ _ _ _ F2 H).
Qed.

Lemma cut_off_both_ways_witness :
  (reachable islePlanner 1 16 <-> reachable islePlanner 16 1) /\
  findRoute (n_roads islePlanner + Z.to_nat MAX_CITIES + 2) islePlanner 1 16 60
    = Some Unreachable /\
  findRoute (n_roads islePlanner + Z.to_nat MAX_CITIES + 2) islePlanner 16 1 60
    = Some Unreachable /\
  (forall fuel o, findRoute fuel islePlanner 1 16 60 = Some o \/
                  findRoute fuel islePlanner 16 1 60 = Some o -> o = Unreachable).
Proof.
  destruct (cut_off_both_ways isleOps islePlanner 1 16 60) as [Sym H].
  - vm_compute. reflexivity.
  - apply nonneg_roadsb_sound. vm_compute. reflexivity.
  - split; [unfold MAX_CITIES; lia |]. eexists. left. reflexivity.
  - split; [unfold MAX_CITIES; lia |]. eexists. unfold isleOps. apply in_or_app.
    right. left. reflexivity.
  - unfold INT_MAX. lia.
  - split; [exact Sym |]. apply H. intros R. apply Sym in R. destruct R as [es P].
    destruct es as [| e rest].
    + cbn [is_path] in P. discriminate P.
    + destruct P as [He _]. vm_compute in He. exact He.
Defined.

(** ** The distances of the rows and the total distance *)

Lemma distinctb_inj (f : Edge -> Z) es : distinctb (map f es) = true ->
  forall e1 e2, In e1 es -> In e2 es -> f e1 = f e2 -> e1 = e2.
Proof.
  induction es as [| x t IH]; intros H e1 e2 H1 H2 E; [destruct H1 |].
  cbn [map distinctb] in H. apply andb_true_iff in H. destruct H as [Hx Ht].
  apply negb_true_iff in Hx.
  assert (Nx : forall y, In y t -> f x <> f y).
  { intros y Hy Ey.
    assert (T : existsb (Z.eqb (f x)) (map f t) = true).
    { apply existsb_exists. exists (f y). split; [apply in_map, Hy | apply Z.eqb_eq, Ey]. }
    congruence. }
  destruct H1 as [<- | H1], H2 as [<- | H2].
  - reflexivity.
  - destruct (Nx e2 H2 E).
  - destruct (Nx e1 H1 (eq_sym E)).
  - apply (IH Ht e1 e2 H1 H2 E).
Qed.

Lemma no_parallelb_sound g : no_parallelb g = true -> no_parallel g.
Proof.
  unfold no_parallelb, no_parallel, adj_of, get. intros H u e1 e2 H1 H2 E.
  rewrite forallb_forall in H.
  destruct (u <? 0); [destruct H1 |].
  destruct (Nat.lt_ge_cases (Z.to_nat u) (List.length (adj g))) as [L | G].
  - apply (distinctb_inj destination _ (H _ (nth_In (adj g) [] L)) e1 e2 H1 H2 E).
  - rewrite nth_overflow in H1 by assumption. destruct H1.
Qed.

Lemma printLegs_roads g : no_parallel g -> forall es u v, is_path g u es v ->
  map d (printLegs g (u :: map destination es)) = map distanceKM es /\
  map rName (printLegs g (u :: map destination es)) = map roadName es.
Proof.
  intros NP. induction es as [| e t IH]; intros u v P; [split; reflexivity |].
  destruct P as [He Pt].
  change (printLegs g (u :: map destination (e :: t)))
    with (printLeg g u (destination e) :: printLegs g (destination e :: map destination t)).
  destruct (IH _ v Pt) as [IHd IHn]. cbn [map]. rewrite IHd, IHn.
  destruct (printLeg_fields g u (destination e)) as (_ & _ & Hrd).
  destruct (findRoad_first (adj_of g u) (destination e) e He eq_refl)
    as (e1 & (pre & post & Es & _ & Hd1) & Hfr).
  assert (I1 : In e1 (adj_of g u)) by (rewrite Es; apply in_or_app; right; left; reflexivity).
  rewrite (NP u e1 e I1 He Hd1) in Hfr.
  rewrite Hfr in Hrd. injection Hrd as Hn _ Hdd. rewrite Hn, Hdd. split; reflexivity.
Qed.

Lemma fold_left_map_add {A} (f : A -> float) l : forall acc,
  fold_left (fun t x => (t + f x)%float) l acc
  = fold_left (fun t x => (t + x)%float) (map f l) acc.
Proof.
  induction l as [| x t IH]; intros acc; [reflexivity |]. cbn [map fold_left]. apply IH.
Qed.

(** X17. On a planner with no two roads between the same two cities,
    built by [addCity]/[addRoad] with non-negative road lengths, the rows
    of a returned itinerary show the very roads the search went along: the
    distances of the rows, added from the first to the last, give exactly
    the total distance of the receipt. *)
Theorem rows_add_up_to_total ops g start end_ speed fuel r :
  build ops emptyPlanner = Some g ->
  nonneg_roads g -> no_parallel g ->
  registered ops start -> registered ops end_ ->
  0 < speed <= INT_MAX ->
  findRoute fuel g start end_ speed = Some (Route r) ->
  fold_left (fun t l => (t + d l)%float) (legs r) 0%float = totalDist r /\
  exists es,
    is_path g start es end_ /\
    map d (legs r) = map distanceKM es /\
    map rName (legs r) = map roadName es /\
    totalTime r = pathTime speed es.
Proof.
  intros B Hr NP Rs Re Hs F. assert (Wg : wf g) by apply (wf_build ops _ _ wf_empty B).
  assert (Vs : validCity g start) by apply (registered_valid ops _ _ _ B Rs).
  assert (Ve : validCity g end_) by apply (registered_valid ops _ _ _ B Re).
  destruct (findRoute_route g start end_ speed fuel r Wg Hr Vs Ve Hs F)
    as (es & P & (Et & Ed & _ & El) & _).
  destruct (printLegs_roads g NP es start end_ P) as [Hd Hn].
  rewrite <- El in Hd, Hn.
  split.
  - rewrite (fold_left_map_add d), Hd, Ed. unfold pathDistance.
    rewrite (fold_left_map_add distanceKM). reflexivity.
  - exists es. split; [exact P | split; [exact Hd | split; [exact Hn | exact Et]]].
Qed.

Lemma rows_add_up_to_total_witness :
  fold_left (fun t l => (t + d l)%float)
            (legs (the_route (findRoute 100 thePlanner 1 13 60))) 0%float
    = totalDist (the_route (findRoute 100 thePlanner 1 13 60)) /\
  exists es,
    is_path thePlanner 1 es 13 /\
    map d (legs (the_route (findRoute 100 thePlanner 1 13 60))) = map distanceKM es /\
    map rName (legs (the_route (findRoute 100 thePlanner 1 13 60))) = map roadName es /\
    totalTime (the_route (findRoute 100 thePlanner 1 13 60)) = pathTime 60 es.
Proof.
  apply (rows_add_up_to_total mapData thePlanner 1 13 60 100).
  - vm_compute. reflexivity.
  - apply nonneg_roadsb_sound. vm_compute. reflexivity.
  - apply no_parallelb_sound. vm_compute. reflexivity.
  - apply registered_mapData. lia.
  - apply registered_mapData. lia.
  - unfold INT_MAX. lia.
  - vm_compute. reflexivity.
Defined.

(** ** Traffic labels *)

Lemma traffic_level_cases level :
  level = 0 \/ level = 1 \/ level = 2 \/ level = 3 \/
  (getTrafficString level = "Unknown"%string /\ getTrafficMultiplier level = 1.0%float /\
   (level < 0 \/ 3 < level)).
Proof.
  destruct level as [| p | p]; [auto | | right; right; right; right; repeat split; lia].
  destruct p as [[p | p |] | [p | p |] |]; auto;
    right; right; right; right; repeat split; lia.
Qed.

(** X18. The label of a traffic level: "Clear", "Moderate", "Heavy" and
    "Jammed" for the levels 0 to 3, four different texts, and "Unknown"
    for any other value; a road with such a value is shown as "Unknown"
    and timed as a clear road. *)
Theorem traffic_label_and_fallback :
  getTrafficString LOW = "Clear"%string /\
  getTrafficString MODERATE = "Moderate"%string /\
  getTrafficString HIGH = "Heavy"%string /\
  getTrafficString JAMMED = "Jammed"%string /\
  (forall l1 l2, 0 <= l1 <= 3 -> 0 <= l2 <= 3 ->
     getTrafficString l1 = getTrafficString l2 -> l1 = l2) /\
  (forall level, getTrafficString level = "Unknown"%string <-> level < 0 \/ 3 < level) /\
  (forall level d speed, level < 0 \/ 3 < level ->
     realTime d speed level = realTime d speed LOW).
Proof.
  split; [reflexivity | split; [reflexivity | split; [reflexivity | split; [reflexivity |]]]].
  split; [| split].
  - intros l1 l2 H1 H2.
    assert (E1 : l1 = 0 \/ l1 = 1 \/ l1 = 2 \/ l1 = 3) by lia.
    assert (E2 : l2 = 0 \/ l2 = 1 \/ l2 = 2 \/ l2 = 3) by lia.
    destruct E1 as [-> | [-> | [-> | ->]]]; destruct E2 as [-> | [-> | [-> | ->]]];
      cbn [getTrafficString]; intros E; try reflexivity; discriminate E.
  - intros level. split.
    + destruct (traffic_level_cases level) as [-> | [-> | [-> | [-> | (_ & _ & H)]]]];
        cbn [getTrafficString]; intros E; try discriminate E. exact H.
    + intros H.
      destruct (traffic_level_cases level) as [-> | [-> | [-> | [-> | (E & _)]]]];
        try lia. exact E.
  - intros level d speed H. unfold realTime.
    destruct (traffic_level_cases level) as [-> | [-> | [-> | [-> | (_ & E & _)]]]];
      try lia. rewrite E. reflexivity.
Qed.

(** ** The fastest route *)

Lemma printLegs_show g : forall es u v, is_path g u es v ->
  rows_show g u v es (printLegs g (u :: map destination es)).
Proof.
  induction es as [| e t IH]; intros u v P.
  - exists []. cbn. repeat split; auto.
  - pose proof (printLegs_real g (e :: t) u v P) as Real.
    destruct P as [He Pt].
    destruct (IH _ v Pt) as (sh & Ps & Ed & _ & _ & Hd & Hn & Hc & Hnp).
    destruct (printLeg_fields g u (destination e)) as (_ & _ & Hrd).
    destruct (findRoad_first (adj_of g u) (destination e) e He eq_refl)
      as (e1 & (pre & post & Es & Hpre & Hd1) & Hfr).
    assert (I1 : In e1 (adj_of g u)) by (rewrite Es; apply in_or_app; right; left; reflexivity).
    rewrite Hfr in Hrd. injection Hrd as Hn1 Hc1 Hdd1.
    exists (e1 :: sh).
    change (printLegs g (u :: map destination (e :: t)))
      with (printLeg g u (destination e) :: printLegs g (destination e :: map destination t))
      in *.
    split; [split; [exact I1 | rewrite Hd1; exact Ps] |].
    split; [cbn [map]; rewrite Hd1, Ed; reflexivity |].
    split; [exact (printLegs_ends g (u :: map destination (e :: t))) |].
    split; [exact Real |].
    cbn [map]. rewrite Hd, Hn, Hc, Hn1, Hc1, Hdd1.
    repeat split.
    intros NP. rewrite (Hnp NP), (NP u e1 e I1 He Hd1). reflexivity.
Qed.

(** C1 (amended). For every planner built by [addCity]/[addRoad] whose
    roads have non-negative lengths, registered cities [start] and [end_]
    and a speed [0 < speed <= INT_MAX].
    If some path from [start] to [end_] takes less than [INF] (1e9)
    minutes, [findRoute] ends with a route: its total time is the time of
    a path [es] from [start] to [end_] and is not greater than the time of
    any path from [start] to [end_]; its total distance and total fuel are
    the sums along [es]; its rows are those printed for the cities of
    [es]: they form a path from [start] to [end_] through the same
    cities, each row showing the first road in definition order between
    its two cities, which is the road of [es] when no two roads join the
    same two cities, and then the distances of the rows add up to the
    total distance.
    If every path from [start] to [end_] takes [INF] minutes or more,
    [findRoute] reports "no road connection", and nothing else.
    All sums are floating-point sums taken from the origin on. *)
Theorem C1_route_is_fastest ops g start end_ speed :
  build ops emptyPlanner = Some g ->
  nonneg_roads g ->
  registered ops start -> registered ops end_ ->
  0 < speed <= INT_MAX ->
  ((exists p, is_path g start p end_ /\ (pathTime speed p <? INF)%float = true) ->
   exists fuel r es,
     findRoute fuel g start end_ speed = Some (Route r) /\
     is_path g start es end_ /\
     totalTime r = pathTime speed es /\
     (forall p, is_path g start p end_ ->
        (totalTime r <=? pathTime speed p)%float = true) /\
     totalDist r = pathDistance es /\
     totalFuel r = pathFuel speed es /\
     legs r = printLegs g (start :: map destination es) /\
     rows_show g start end_ es (legs r) /\
     (no_parallel g ->
      fold_left (fun t l => (t + d l)%float) (legs r) 0%float = totalDist r)) /\
  ((forall p, is_path g start p end_ -> (pathTime speed p <? INF)%float = false) ->
   (exists fuel, findRoute fuel g start end_ speed = Some Unreachable) /\
   (forall fuel o, findRoute fuel g start end_ speed = Some o -> o = Unreachable)).
Proof.
  intros B Hr Rs Re Hs.
  pose proof (wf_build ops _ _ wf_empty B) as W.
  pose proof (registered_valid ops _ _ _ B Rs) as Vs.
  pose proof (registered_valid ops _ _ _ B Re) as Ve.
  destruct (findRoute_outcome g start end_ speed W Hr Vs Ve Hs)
    as [fuel [[Far U] | (r & es & F & P & (Et & Ed & Ef & El) & Lt & Nr & Opt)]].
  - split.
    + intros (p & Pp & Lp).
      pose proof (pathTime_nn g speed p start end_ Hs Hr Pp) as Np.
      rewrite (ltb_nn _ _ Np Fnn_INF) in Lp. apply Z.ltb_lt in Lp.
      specialize (Far p Pp). lia.
    + intros _. split; [exists fuel; exact U |].
      intros fuel' o F'. symmetry.
      apply (findRoute_deterministic _ _ _ _ _ _ _ _ U F').
  - split.
    + intros _. exists fuel, r, es.
      split; [exact F | split; [exact P | split; [exact Et | split]]].
      { intros q Pq. apply leb_of_FV; [exact Nr | | apply Opt, Pq].
        apply (pathTime_nn g speed q start end_ Hs Hr Pq). }
      split; [exact Ed | split; [exact Ef | split; [exact El |]]].
      pose proof (printLegs_show g es start end_ P) as Sh. rewrite <- El in Sh.
      split; [exact Sh |].
      intros NP. destruct Sh as (sh & _ & _ & _ & _ & Hd & _ & _ & Hnp).
      rewrite (Hnp NP) in Hd.
      rewrite (fold_left_map_add d), Hd, Ed. unfold pathDistance.
      rewrite (fold_left_map_add distanceKM). reflexivity.
    + intros All. exfalso. specialize (All es P).
      rewrite <- Et, (ltb_nn _ _ Nr Fnn_INF) in All. apply Z.ltb_ge in All. lia.
Qed.

Lemma far_paths_slow p : is_path farPlanner 1 p 2 -> (pathTime 60 p <? INF)%float = false.
Proof.
  assert (Hr : nonneg_roads farPlanner) by (apply nonneg_roadsb_sound; vm_compute; reflexivity).
  assert (Hs : 0 < 60 <= INT_MAX) by (unfold INT_MAX; lia).
  intros P. destruct p as [| e1 rest]; [cbn [is_path] in P; discriminate P |].
  pose proof (pathTime_nn farPlanner 60 _ 1 2 Hs Hr P) as Np.
  destruct P as [H1 P].
  rewrite (ltb_nn _ _ Np Fnn_INF). apply Z.ltb_ge.
  change (pathTime 60 (e1 :: rest)) with (pathTimeFrom 60 (0 + segTime 60 e1) rest).
  vm_compute in H1. destruct H1 as [<- | []].
  eapply Z.le_trans; [| apply (pathTimeFrom_infl farPlanner 60 Hs Hr rest _ 2 _ P)].
  - vm_compute. discriminate.
  - apply Fnn_of_leb. vm_compute. reflexivity.
Qed.

Lemma C1_route_is_fastest_witness :
  (exists fuel r es,
     findRoute fuel thePlanner 1 3 100 = Some (Route r) /\
     is_path thePlanner 1 es 3 /\
     totalTime r = pathTime 100 es /\
     (forall p, is_path thePlanner 1 p 3 ->
        (totalTime r <=? pathTime 100 p)%float = true) /\
     totalDist r = pathDistance es /\
     totalFuel r = pathFuel 100 es /\
     legs r = printLegs thePlanner (1 :: map destination es) /\
     rows_show thePlanner 1 3 es (legs r) /\
     fold_left (fun t l => (t + d l)%float) (legs r) 0%float = totalDist r) /\
  ((exists fuel, findRoute fuel farPlanner 1 2 60 = Some Unreachable) /\
   (forall fuel o, findRoute fuel farPlanner 1 2 60 = Some o -> o = Unreachable)).
Proof.
  split.
  - destruct (C1_route_is_fastest mapData thePlanner 1 3 100) as [H _].
    + vm_compute. reflexivity.
    + apply nonneg_roadsb_sound. vm_compute. reflexivity.
    + apply registered_mapData. lia.
    + apply registered_mapData. lia.
    + unfold INT_MAX. lia.
    + destruct H as (fuel & r & es & F & P & Et & Opt & Ed & Ef & El & Sh & Sum).
      * exists [mkEdge 2 165 JAMMED MOTORWAY "M-9 Motorway";
                mkEdge 3 330 MODERATE HIGHWAY "N-5 National Hwy"]%float%string.
        split; [vm_compute; auto 10 | vm_compute; reflexivity].
      * exists fuel, r, es. repeat split; try assumption.
        apply Sum. apply no_parallelb_sound. vm_compute. reflexivity.
  - destruct (C1_route_is_fastest farOps farPlanner 1 2 60) as [_ H].
    + vm_compute. reflexivity.
    + apply nonneg_roadsb_sound. vm_compute. reflexivity.
    + split; [unfold MAX_CITIES; lia |]. eexists. left. reflexivity.
    + split; [unfold MAX_CITIES; lia |]. eexists. right. left. reflexivity.
    + unfold INT_MAX. lia.
    + apply H. intros p P. apply (far_paths_slow p P).
Defined.

(** C1, as stated, fails, in two ways.  A road of two billion kilometres
    joins cities 1 and 2, yet at 60 km/h [findRoute] reports no
    connection, because the time of the road is not below the sentinel
    [INF].  And with two roads between cities 1 and 2, of 200 km (defined
    first) and of 50 km, the route at 60 km/h goes along the second one
    (total distance 50, total time 50 minutes) while its one row shows
    the first one, with 200 km. *)
Lemma C1_counterexample :
  (build farOps emptyPlanner = Some farPlanner /\
   is_path farPlanner 1 [mkEdge 2 2e9 LOW MOTORWAY "far"] 2 /\
   findRoute 10 farPlanner 1 2 60 = Some Unreachable) /\
  (build twinOps emptyPlanner = Some twinPlanner /\
   exists r,
     findRoute 10 twinPlanner 1 2 60 = Some (Route r) /\
     totalDist r = 50%float /\ totalTime r = 50%float /\
     map leg_ends (legs r) = [(1, 2)] /\
     map rName (legs r) = ["first"%string] /\
     map d (legs r) = [200%float]).
Proof.
  split.
  - split; [vm_compute; reflexivity |].
    split; [vm_compute; auto | vm_compute; reflexivity].
  - split; [vm_compute; reflexivity |].
    exists (the_route (findRoute 10 twinPlanner 1 2 60)). vm_compute. repeat split.
Qed.
